(** * GracyBot plugin runtime: a shallow embedding of the core modules

    The development follows the Python sources under [core/]:
    - [core/plugin_manager.py]: version comparison, dependency-cycle
      detection, the two-phase plugin load, command matching and reload;
    - [core/security_manager.py]: the QQ-id validator, the sliding-window
      rate limiter and the permission check;
    - [core/monitor.py]: per-plugin execution statistics;
    - [core/handler.py]: the callback pre-checks and the plugin dispatch.

    Conventions.  Python [str] is [string] (the UTF-8 bytes of the text; a
    byte-level substring test agrees with the code-point one on valid
    UTF-8).  Python [int] is [Z].  [time.time()] readings and durations are
    exact rationals [Q]; floating-point rounding is not modelled.  A Python
    [dict] whose iteration order matters is an association list in
    insertion order, a [dict] used only for lookups is a [gmap], a [set] is
    a [gset].  Log output is an explicit list of messages.  External
    collaborators (file system, module import, plugin handlers, HTTP
    sending) are section variables or explicit outcome values. *)

From Stdlib Require Import ZArith QArith String Ascii List Lia Lqa Bool.
From Stdlib Require Import DecimalString DecimalZ DecimalPos.
From stdpp Require Import base gmap strings list.
Import ListNotations.
Open Scope string_scope.
Open Scope list_scope.

(* ===================================================================== *)
(** * Strings *)
(* ===================================================================== *)

Module Str.

(** [needle in hay] of Python, for [str] operands. *)
Fixpoint contains (needle hay : string) : bool :=
  String.prefix needle hay ||
  match hay with
  | EmptyString => false
  | String _ hay' => contains needle hay'
  end.

(** [" -> ".join(parts)]. *)
Definition join (sep : string) (parts : list string) : string :=
  String.concat sep parts.

(** [s.replace(old, new)] for a non-empty [old]: leftmost occurrences,
    not overlapping.  [skip] counts the characters of a match still to be
    dropped. *)
Fixpoint replace_from (old new : string) (skip : nat) (s : string) : string :=
  match s with
  | EmptyString => EmptyString
  | String c s' =>
      match skip with
      | S k => replace_from old new k s'
      | O =>
          if String.prefix old s
          then new +:+ replace_from old new (String.length old - 1) s'
          else String c (replace_from old new O s')
      end
  end.

Definition replace (old new s : string) : string := replace_from old new 0 s.

(** ASCII white space. *)
Definition is_space (c : ascii) : bool :=
  let n := nat_of_ascii c in
  ((9 <=? n)%nat && (n <=? 13)%nat) || (n =? 32)%nat || ((28 <=? n)%nat && (n <=? 31)%nat).

Definition code (c : ascii) : nat := nat_of_ascii c.

(** The number of bytes of the white-space code point at the head of [s],
    [0] when there is none: the ASCII white space, U+0085, U+00A0, U+1680,
    U+2000 to U+200A, U+2028, U+2029, U+202F, U+205F and U+3000. *)
Definition ws_width (s : string) : nat :=
  match s with
  | EmptyString => 0
  | String c rest =>
      if is_space c then 1
      else
        match rest with
        | String d rest' =>
            if (code c =? 194)%nat then
              if (code d =? 133)%nat || (code d =? 160)%nat then 2 else 0
            else
              match rest' with
              | String e _ =>
                  if (code c =? 225)%nat then
                    if (code d =? 154)%nat && (code e =? 128)%nat then 3 else 0
                  else if (code c =? 226)%nat then
                    if ((code d =? 128)%nat &&
                        (((128 <=? code e)%nat && (code e <=? 138)%nat) ||
                         (code e =? 168)%nat || (code e =? 169)%nat ||
                         (code e =? 175)%nat)) ||
                       ((code d =? 129)%nat && (code e =? 159)%nat)
                    then 3 else 0
                  else if (code c =? 227)%nat then
                    if (code d =? 128)%nat && (code e =? 128)%nat then 3 else 0
                  else 0
              | EmptyString => 0
              end
        | EmptyString => 0
        end
  end.

(** [s.lstrip()]: white-space code points are dropped from the left;
    [skip] counts the bytes of one still to be dropped. *)
Fixpoint lstrip_from (skip : nat) (s : string) : string :=
  match s with
  | EmptyString => EmptyString
  | String c s' =>
      match skip with
      | S k => lstrip_from k s'
      | O =>
          match ws_width s with
          | O => s
          | S k => lstrip_from k s'
          end
      end
  end.

Definition lstrip (s : string) : string := lstrip_from 0 s.

(** [s] holds white space only. *)
Fixpoint all_space_from (skip : nat) (s : string) : bool :=
  match s with
  | EmptyString => true
  | String c s' =>
      match skip with
      | S k => all_space_from k s'
      | O =>
          match ws_width s with
          | O => false
          | S k => all_space_from k s'
          end
      end
  end.

(** [s.rstrip()]: the text up to its trailing white space. *)
Fixpoint rstrip (s : string) : string :=
  match s with
  | EmptyString => EmptyString
  | String c s' =>
      if all_space_from 0 s then EmptyString else String c (rstrip s')
  end.

(** Python's [str.strip()]. *)
Definition strip (s : string) : string := rstrip (lstrip s).

Example strip_examples :
  strip "  /help  " = "/help" /\ strip "　/关于　" = "/关于" /\
  strip "a　b " = "a　b" /\ strip " 　 " = "" /\
  strip (String "010"%char "x" +:+ String "009"%char "") = "x".
Proof. split_and!; vm_compute; reflexivity. Qed.

(** [os.path.join(a, b)] and [os.path.dirname(p)] on POSIX paths with a
    relative second component. *)
Definition path_join (a b : string) : string :=
  match a with
  | EmptyString => b
  | _ => if String.prefix "/" (String.rev a) then a +:+ b else a +:+ "/" +:+ b
  end.

Fixpoint dirname_rev (r : string) : string :=
  match r with
  | EmptyString => EmptyString
  | String c r' => if Ascii.eqb c "/"%char then r else dirname_rev r'
  end.

Fixpoint strip_slashes_rev (r : string) : string :=
  match r with
  | EmptyString => EmptyString
  | String c r' => if Ascii.eqb c "/"%char then strip_slashes_rev r' else r
  end.

Definition dirname (p : string) : string :=
  let head := dirname_rev (String.rev p) in
  match strip_slashes_rev head with
  | EmptyString => String.rev head
  | h => String.rev h
  end.

Lemma append_nil_r (a : string) : a +:+ EmptyString = a.
Proof.
  induction a as [|x a IH]; [reflexivity|].
  change (String x (a +:+ EmptyString) = String x a). now rewrite IH.
Qed.

Lemma append_assoc (a b c : string) : (a +:+ b) +:+ c = a +:+ (b +:+ c).
Proof.
  induction a as [|x a IH]; [reflexivity|].
  change (String x ((a +:+ b) +:+ c) = String x (a +:+ (b +:+ c))).
  now rewrite IH.
Qed.

Lemma prefix_app (p s : string) : String.prefix p (p +:+ s) = true.
Proof.
  induction p as [|c p IH]; simpl.
  - now destruct s.
  - rewrite IH. destruct (Ascii.ascii_dec c c); congruence.
Qed.

Lemma prefix_split (p s : string) :
  String.prefix p s = true -> exists post, s = p +:+ post.
Proof.
  revert s. induction p as [|c p IH]; intros s H.
  - exists s. reflexivity.
  - destruct s as [|d s]; simpl in H; [discriminate|].
    destruct (Ascii.ascii_dec c d) as [->|]; [|discriminate].
    destruct (IH _ H) as [post ->]. exists post. reflexivity.
Qed.

(** [contains] is the unanchored, case-sensitive substring relation. *)
Lemma contains_spec (needle hay : string) :
  contains needle hay = true <->
  exists pre post, hay = pre +:+ needle +:+ post.
Proof.
  split.
  - induction hay as [|c hay IH]; cbn [contains]; intros H.
    + rewrite orb_false_r in H. destruct (prefix_split _ _ H) as [post ->].
      exists EmptyString, post. reflexivity.
    + apply orb_true_iff in H as [H|H].
      * destruct (prefix_split _ _ H) as [post ->].
        exists EmptyString, post. reflexivity.
      * destruct (IH H) as (pre & post & ->).
        exists (String c pre), post. reflexivity.
  - intros (pre & post & ->). induction pre as [|c pre IH].
    + change ("" +:+ needle +:+ post) with (needle +:+ post).
      destruct (needle +:+ post) eqn:E; cbn [contains].
      * destruct needle; [reflexivity | discriminate].
      * rewrite <- E, prefix_app. reflexivity.
    + change (String c pre +:+ needle +:+ post)
        with (String c (pre +:+ needle +:+ post)).
      cbn [contains]. rewrite IH. apply orb_true_r.
Qed.

End Str.

(* ===================================================================== *)
(** * Code points and the interpreter's tables *)
(* ===================================================================== *)

Module Unicode.

(** What the modelled code takes from the interpreter that runs it:
    [decimal cp] is the value of the code point [cp] above U+007F as a
    decimal digit in the interpreter's Unicode database ([None] when it is
    not one), and [max_str_digits] is [sys.get_int_max_str_digits()], [0]
    when the check is off or the interpreter has none. *)
Class Interpreter : Type := mk_interpreter {
  decimal : N -> option N;
  max_str_digits : nat
}.

(** The code points of a UTF-8 text.  [pending] counts the continuation
    bytes still to come, [acc] holds the bits read so far. *)
Fixpoint decode_from (pending : nat) (acc : N) (s : string) : list N :=
  match s with
  | EmptyString => []
  | String c s' =>
      let b := N_of_ascii c in
      match pending with
      | O =>
          if (b <? 128)%N then b :: decode_from 0 0 s'
          else if (b <? 224)%N then decode_from 1 (b mod 32) s'
          else if (b <? 240)%N then decode_from 2 (b mod 16) s'
          else decode_from 3 (b mod 8) s'
      | S O => (acc * 64 + b mod 64)%N :: decode_from 0 0 s'
      | S k => decode_from k (acc * 64 + b mod 64)%N s'
      end
  end.

Definition decode (s : string) : list N := decode_from 0 0 s.

Section WithInterpreter.

Context {interp : Interpreter}.

(** The value of a code point as a decimal digit, the class [\d] of a
    [str] pattern: the ASCII digits, and what the database says above
    U+007F. *)
Definition digit (cp : N) : option N :=
  if (48 <=? cp)%N && (cp <=? 57)%N then Some (cp - 48)%N
  else if (cp <? 128)%N then None
  else decimal cp.

Definition is_digit (cp : N) : bool :=
  match digit cp with
  | Some _ => true
  | None => false
  end.

End WithInterpreter.

(** The first code points of the runs of decimal digits of Unicode 14.0
    above U+007F, with the length of each run; a digit's value is its
    offset in the run modulo ten. *)
Definition decimal_runs : list (N * N) :=
  [(1632, 10); (1776, 10); (1984, 10); (2406, 10); (2534, 10); (2662, 10);
   (2790, 10); (2918, 10); (3046, 10); (3174, 10); (3302, 10); (3430, 10);
   (3558, 10); (3664, 10); (3792, 10); (3872, 10); (4160, 10); (4240, 10);
   (6112, 10); (6160, 10); (6470, 10); (6608, 10); (6784, 10); (6800, 10);
   (6992, 10); (7088, 10); (7232, 10); (7248, 10); (42528, 10); (43216, 10);
   (43264, 10); (43472, 10); (43504, 10); (43600, 10); (44016, 10);
   (65296, 10); (66720, 10); (68912, 10); (69734, 10); (69872, 10);
   (69942, 10); (70096, 10); (70384, 10); (70736, 10); (70864, 10);
   (71248, 10); (71360, 10); (71472, 10); (71904, 10); (72016, 10);
   (72784, 10); (73040, 10); (73120, 10); (92768, 10); (92864, 10);
   (93008, 10); (120782, 50); (123200, 10); (123632, 10); (125264, 10);
   (130032, 10)]%N.

Definition decimal_of_runs (runs : list (N * N)) (cp : N) : option N :=
  match List.find (fun r => (fst r <=? cp)%N && (cp <? fst r + snd r)%N) runs with
  | Some r => Some ((cp - fst r) mod 10)%N
  | None => None
  end.

(** CPython 3.11 as it starts: Unicode 14.0 and a limit of 4300 digits. *)
#[global] Instance cpython : Interpreter :=
  mk_interpreter (decimal_of_runs decimal_runs) 4300.

Example decode_examples :
  decode "1.2" = [49; 46; 50]%N /\
  decode "１２" = [65297; 65298]%N /\
  decode "/关于" = [47; 20851; 20110]%N /\
  option_map (fun cp => digit cp) (head (decode "٣")) = Some (Some 3%N).
Proof. split_and!; vm_compute; reflexivity. Qed.

End Unicode.

(* ===================================================================== *)
(** * Version numbers ([PluginManager.parse_version], [compare_versions]) *)
(* ===================================================================== *)

Module Version.

Section WithInterpreter.

Context {interp : Unicode.Interpreter}.

(** [re.findall(r'\d+', version)] on the code points: the maximal runs of
    decimal digits, left to right.  [cur] is the run being read, empty
    when there is none. *)
Fixpoint findall_digits_from (cur : list N) (s : list N) : list (list N) :=
  match s with
  | [] =>
      match cur with [] => [] | _ => [cur] end
  | c :: s' =>
      if Unicode.is_digit c then findall_digits_from (cur ++ [c]) s'
      else
        match cur with
        | [] => findall_digits_from [] s'
        | _ => cur :: findall_digits_from [] s'
        end
  end.

Definition findall_digits (version : string) : list (list N) :=
  findall_digits_from [] (Unicode.decode version).

(** The interpreter's check of the number of digits: it starts above 640
    digits and applies when a limit is set. *)
Definition too_long (digits : nat) : bool :=
  (640 <? digits)%nat &&
  ((0 <? Unicode.max_str_digits)%nat && (Unicode.max_str_digits <? digits)%nat).

Fixpoint int_from (acc : Z) (part : list N) : option Z :=
  match part with
  | [] => Some acc
  | c :: part' =>
      match Unicode.digit c with
      | Some v => int_from (10 * acc + Z.of_N v) part'
      | None => None
      end
  end.

(** [int(part)] for a part that [\d+] matched; [None] stands for
    [ValueError]. *)
Definition int (part : list N) : option Z :=
  if too_long (length part) then None else int_from 0 part.

(** [[int(part) for part in parts]]; [None] when a conversion raises. *)
Fixpoint int_all (parts : list (list N)) : option (list Z) :=
  match parts with
  | [] => Some []
  | part :: rest =>
      match int part with
      | None => None
      | Some z =>
          match int_all rest with
          | None => None
          | Some zs => Some (z :: zs)
          end
      end
  end.

(** [parse_version]: ["1.2.3" -> [1; 2; 3]], and [[0]] from the [except]
    branch when a conversion raises. *)
Definition parse_version (version : string) : list Z :=
  match int_all (findall_digits version) with
  | Some parts => parts
  | None => [0%Z]
  end.

(** The [for i in range(max_len)] loop of [compare_versions]; [None]
    stands for the [IndexError] of an index out of range. *)
Fixpoint compare_loop (v1_parts v2_parts : list Z) (indices : list nat)
  : option Z :=
  match indices with
  | [] => Some 0%Z
  | i :: rest =>
      match nth_error v1_parts i, nth_error v2_parts i with
      | Some a, Some b =>
          if (a >? b)%Z then Some 1%Z
          else if (a <? b)%Z then Some (-1)%Z
          else compare_loop v1_parts v2_parts rest
      | _, _ => None
      end
  end.

(** [parts += [0] * (max_len - len(parts))]. *)
Definition pad (parts : list Z) (max_len : nat) : list Z :=
  parts ++ repeat 0%Z (max_len - length parts).

Definition compare_versions_result (version1 version2 : string) : option Z :=
  let v1_parts := parse_version version1 in
  let v2_parts := parse_version version2 in
  let max_len := Nat.max (length v1_parts) (length v2_parts) in
  let v1_parts := pad v1_parts max_len in
  let v2_parts := pad v2_parts max_len in
  compare_loop v1_parts v2_parts (seq 0 max_len).

(** The value [compare_versions] returns; the padding keeps every index
    in range ([compare_versions_returns]), so the second case does not
    occur. *)
Definition compare_versions (version1 version2 : string) : Z :=
  match compare_versions_result version1 version2 with
  | Some r => r
  | None => 0%Z
  end.

(** ** The reading of the specification *)

(** Zero-padding to [n] components, and the comparison of two lists
    component by component. *)
Definition zero_padded (n : nat) (parts : list Z) : list Z :=
  parts ++ repeat 0%Z (n - length parts).

Fixpoint componentwise (a b : list Z) : Z :=
  match a, b with
  | x :: a', y :: b' =>
      match (x ?= y)%Z with
      | Gt => 1
      | Lt => -1
      | Eq => componentwise a' b'
      end
  | _, _ => 0
  end%Z.

Definition padded_compare (a b : list Z) : Z :=
  let n := Nat.max (length a) (length b) in
  componentwise (zero_padded n a) (zero_padded n b).

(** Component [i] of a version after zero-padding, and the lexicographic
    comparison of the [n] components from [i] on. *)
Definition component (version : string) (i : nat) : Z :=
  nth i (parse_version version) 0%Z.

Fixpoint lex_from (f g : nat -> Z) (i n : nat) : Z :=
  match n with
  | O => 0
  | S n' =>
      match (f i ?= g i)%Z with
      | Gt => 1
      | Lt => -1
      | Eq => lex_from f g (S i) n'
      end
  end%Z.

(** ** Properties of the comparison *)

Lemma length_pad (parts : list Z) (max_len : nat) :
  (length parts <= max_len)%nat -> length (pad parts max_len) = max_len.
Proof. intros H. unfold pad. rewrite length_app, repeat_length. lia. Qed.

Lemma nth_pad (parts : list Z) (max_len i : nat) :
  nth i (pad parts max_len) 0%Z = nth i parts 0%Z.
Proof.
  unfold pad. destruct (Nat.lt_ge_cases i (length parts)) as [Hlt|Hge].
  - now rewrite app_nth1.
  - rewrite app_nth2 by exact Hge. rewrite nth_repeat.
    now rewrite nth_overflow.
Qed.

Lemma compare_loop_lex (v1 v2 : list Z) (n i : nat) :
  (i + n <= length v1)%nat -> (i + n <= length v2)%nat ->
  compare_loop v1 v2 (seq i n) =
  Some (lex_from (fun k => nth k v1 0%Z) (fun k => nth k v2 0%Z) i n).
Proof.
  revert i. induction n as [|n IH]; intros i H1 H2; [reflexivity|].
  cbn [seq compare_loop lex_from].
  destruct (nth_error v1 i) as [a|] eqn:Ea.
  2:{ apply nth_error_None in Ea. lia. }
  destruct (nth_error v2 i) as [b|] eqn:Eb.
  2:{ apply nth_error_None in Eb. lia. }
  rewrite (nth_error_nth _ _ 0%Z Ea), (nth_error_nth _ _ 0%Z Eb).
  rewrite IH by lia.
  destruct (Z.compare_spec a b) as [E|L|G].
  - destruct (Z.gtb_spec a b); [lia|].
    destruct (Z.ltb_spec a b); [lia|reflexivity].
  - destruct (Z.gtb_spec a b); [lia|].
    destruct (Z.ltb_spec a b); [reflexivity|lia].
  - destruct (Z.gtb_spec a b); [reflexivity|lia].
Qed.

Lemma componentwise_lex (a b : list Z) :
  length a = length b ->
  forall i,
    componentwise (skipn i a) (skipn i b)
    = lex_from (fun k => nth k a 0%Z) (fun k => nth k b 0%Z) i (length a - i).
Proof.
  intros Hlen i. remember (length a - i)%nat as n eqn:Hn. revert i Hn.
  induction n as [|n IH]; intros i Hn.
  - cbn [lex_from]. rewrite (skipn_all2 a) by lia. reflexivity.
  - assert (Hi : (i < length a)%nat) by lia.
    destruct (nth_error a i) as [x|] eqn:Ex.
    2:{ apply nth_error_None in Ex. lia. }
    destruct (nth_error b i) as [y|] eqn:Ey.
    2:{ apply nth_error_None in Ey. lia. }
    pose proof (nth_error_nth _ _ 0%Z Ex) as Hx.
    pose proof (nth_error_nth _ _ 0%Z Ey) as Hy.
    apply nth_error_split in Ex as (a1 & a2 & -> & Hl1).
    apply nth_error_split in Ey as (b1 & b2 & -> & Hl2).
    assert (Ha : skipn i (a1 ++ x :: a2) = x :: a2).
    { rewrite skipn_app, (skipn_all2 a1) by lia.
      replace (i - length a1)%nat with 0%nat by lia. reflexivity. }
    assert (Hb : skipn i (b1 ++ y :: b2) = y :: b2).
    { rewrite skipn_app, (skipn_all2 b1) by lia.
      replace (i - length b1)%nat with 0%nat by lia. reflexivity. }
    rewrite Ha, Hb. cbn [componentwise lex_from]. rewrite Hx, Hy.
    specialize (IH (S i) ltac:(lia)).
    assert (Ha' : skipn (S i) (a1 ++ x :: a2) = a2).
    { rewrite skipn_app, (skipn_all2 a1) by lia.
      replace (S i - length a1)%nat with 1%nat by lia. reflexivity. }
    assert (Hb' : skipn (S i) (b1 ++ y :: b2) = b2).
    { rewrite skipn_app, (skipn_all2 b1) by lia.
      replace (S i - length b1)%nat with 1%nat by lia. reflexivity. }
    rewrite Ha', Hb' in IH. now rewrite IH.
Qed.

Lemma lex_from_ext (f g f' g' : nat -> Z) (i n : nat) :
  (forall k, (i <= k < i + n)%nat -> f k = f' k /\ g k = g' k) ->
  lex_from f g i n = lex_from f' g' i n.
Proof.
  revert i. induction n as [|n IH]; intros i H; [reflexivity|].
  cbn [lex_from]. destruct (H i ltac:(lia)) as [-> ->].
  rewrite (IH (S i)); [reflexivity|]. intros k Hk. apply H. lia.
Qed.

Lemma lex_from_all_eq (f g : nat -> Z) (i n : nat) :
  (forall k, (i <= k < i + n)%nat -> f k = g k) -> lex_from f g i n = 0%Z.
Proof.
  revert i. induction n as [|n IH]; intros i H; [reflexivity|].
  cbn [lex_from]. rewrite (H i) by lia. rewrite Z.compare_refl.
  apply IH. intros k Hk. apply H. lia.
Qed.

Lemma lex_from_more (f g : nat -> Z) (i n m : nat) :
  (forall k, (i + n <= k)%nat -> f k = g k) ->
  lex_from f g i (n + m) = lex_from f g i n.
Proof.
  revert i. induction n as [|n IH]; intros i H.
  - cbn [Nat.add lex_from]. apply lex_from_all_eq. intros k Hk. apply H. lia.
  - cbn [Nat.add lex_from]. rewrite IH; [reflexivity|].
    intros k Hk. apply H. lia.
Qed.

Lemma lex_from_range (f g : nat -> Z) (i n : nat) :
  lex_from f g i n = (-1)%Z \/ lex_from f g i n = 0%Z \/ lex_from f g i n = 1%Z.
Proof.
  revert i. induction n as [|n IH]; intros i; cbn [lex_from]; [auto|].
  destruct (f i ?= g i)%Z; auto.
Qed.

Lemma lex_from_opp (f g : nat -> Z) (i n : nat) :
  lex_from f g i n = (- lex_from g f i n)%Z.
Proof.
  revert i. induction n as [|n IH]; intros i; cbn [lex_from]; [reflexivity|].
  rewrite (Z.compare_antisym (f i) (g i)).
  destruct (f i ?= g i)%Z; cbn [CompOpp]; auto.
Qed.

(** The first differing component decides. *)
Lemma lex_from_gt (f g : nat -> Z) (i n : nat) :
  lex_from f g i n = 1%Z <->
  exists k, (i <= k < i + n)%nat /\
            (forall j, (i <= j < k)%nat -> f j = g j) /\ (g k < f k)%Z.
Proof.
  revert i. induction n as [|n IH]; intros i; cbn [lex_from].
  - split; [discriminate|]. intros (k & Hk & _). lia.
  - destruct (Z.compare_spec (f i) (g i)) as [E|L|G].
    + rewrite IH. split.
      * intros (k & Hk & Heq & Hlt). exists k. repeat split; [lia|lia| |exact Hlt].
        intros j Hj. destruct (Nat.eq_dec j i) as [->|]; [exact E|].
        apply Heq. lia.
      * intros (k & Hk & Heq & Hlt). exists k.
        assert (k <> i) by (intros ->; lia).
        repeat split; [lia|lia| |exact Hlt]. intros j Hj. apply Heq. lia.
    + split; [discriminate|]. intros (k & Hk & Heq & Hlt).
      destruct (Nat.eq_dec k i) as [->|]; [lia|].
      specialize (Heq i ltac:(lia)). lia.
    + split; [|reflexivity]. intros _. exists i.
      repeat split; [lia|lia| |lia]. intros j Hj. lia.
Qed.

Lemma lex_from_zero (f g : nat -> Z) (i n : nat) :
  lex_from f g i n = 0%Z <-> forall k, (i <= k < i + n)%nat -> f k = g k.
Proof.
  split; [|apply lex_from_all_eq].
  revert i. induction n as [|n IH]; intros i; cbn [lex_from]; [intros; lia|].
  destruct (Z.compare_spec (f i) (g i)) as [E|L|G]; try discriminate.
  intros H k Hk. destruct (Nat.eq_dec k i) as [->|]; [exact E|].
  apply (IH (S i) H). lia.
Qed.

Lemma lex_from_trans (f g h : nat -> Z) (i n : nat) :
  (lex_from f g i n <= 0)%Z -> (lex_from g h i n <= 0)%Z ->
  (lex_from f h i n <= 0)%Z.
Proof.
  revert i. induction n as [|n IH]; intros i; cbn [lex_from]; [lia|].
  destruct (Z.compare_spec (f i) (g i)) as [E1|L1|G1];
    destruct (Z.compare_spec (g i) (h i)) as [E2|L2|G2];
    destruct (Z.compare_spec (f i) (h i)) as [E3|L3|G3];
    try lia; apply IH.
Qed.

Lemma component_overflow (v : string) (k : nat) :
  (length (parse_version v) <= k)%nat -> component v k = 0%Z.
Proof. intros H. unfold component. now apply nth_overflow. Qed.

(** The loop of [compare_versions] stays within the padded lists. *)
Lemma compare_versions_returns (a b : string) :
  compare_versions_result a b = Some (compare_versions a b) /\
  compare_versions a b
  = lex_from (component a) (component b) 0
      (Nat.max (length (parse_version a)) (length (parse_version b))).
Proof.
  unfold compare_versions, compare_versions_result. cbv zeta.
  set (m := Nat.max _ _).
  rewrite compare_loop_lex by (rewrite length_pad; unfold m; lia).
  split; [reflexivity|].
  apply lex_from_ext. intros k _. unfold component. now rewrite !nth_pad.
Qed.

(** [compare_versions] is the lexicographic comparison of the zero-padded
    component sequences, taken over any number of leading components
    that covers both versions. *)
Lemma compare_versions_lex (a b : string) (n : nat) :
  (length (parse_version a) <= n)%nat ->
  (length (parse_version b) <= n)%nat ->
  compare_versions a b = lex_from (component a) (component b) 0 n.
Proof.
  intros Ha Hb. destruct (compare_versions_returns a b) as [_ ->].
  set (m := Nat.max _ _).
  replace n with (m + (n - m))%nat by (unfold m; lia).
  symmetry. apply lex_from_more. intros k Hk.
  rewrite !component_overflow; [reflexivity | unfold m in Hk; lia ..].
Qed.

Lemma compare_versions_zero (a b : string) :
  compare_versions a b = 0%Z <-> forall i, component a i = component b i.
Proof.
  set (n := Nat.max (length (parse_version a)) (length (parse_version b))).
  rewrite (compare_versions_lex a b n) by (unfold n; lia).
  rewrite lex_from_zero. split.
  - intros H i. destruct (Nat.lt_ge_cases i n) as [Hlt|Hge].
    + apply H. lia.
    + rewrite !component_overflow; [reflexivity | unfold n in Hge; lia ..].
  - intros H k _. apply H.
Qed.

Lemma compare_versions_gt (a b : string) :
  compare_versions a b = 1%Z <->
  exists k, (forall j, (j < k)%nat -> component a j = component b j) /\
            (component b k < component a k)%Z.
Proof.
  set (n := Nat.max (length (parse_version a)) (length (parse_version b))).
  rewrite (compare_versions_lex a b n) by (unfold n; lia).
  rewrite lex_from_gt. split.
  - intros (k & Hk & Heq & Hlt). exists k. split; [|exact Hlt].
    intros j Hj. apply Heq. lia.
  - intros (k & Heq & Hlt). exists k. repeat split; [lia| | |exact Hlt].
    + destruct (Nat.lt_ge_cases k n) as [Hk|Hk]; [lia|].
      rewrite !component_overflow in Hlt; [lia | unfold n in Hk; lia ..].
    + intros j Hj. apply Heq. lia.
Qed.

Lemma compare_versions_opp (a b : string) :
  compare_versions a b = (- compare_versions b a)%Z.
Proof.
  set (n := Nat.max (length (parse_version a)) (length (parse_version b))).
  rewrite (compare_versions_lex a b n), (compare_versions_lex b a n)
    by (unfold n; lia).
  apply lex_from_opp.
Qed.

Lemma compare_versions_trans (a b c : string) :
  (compare_versions a b <= 0)%Z -> (compare_versions b c <= 0)%Z ->
  (compare_versions a c <= 0)%Z.
Proof.
  set (n := Nat.max (length (parse_version a))
              (Nat.max (length (parse_version b)) (length (parse_version c)))).
  rewrite (compare_versions_lex a b n), (compare_versions_lex b c n),
    (compare_versions_lex a c n) by (unfold n; lia).
  apply lex_from_trans.
Qed.

Lemma compare_versions_range (a b : string) :
  compare_versions a b = (-1)%Z \/ compare_versions a b = 0%Z \/
  compare_versions a b = 1%Z.
Proof.
  rewrite (compare_versions_lex a b
             (Nat.max (length (parse_version a)) (length (parse_version b))))
    by lia.
  apply lex_from_range.
Qed.

Lemma length_zero_padded (n : nat) (parts : list Z) :
  (length parts <= n)%nat -> length (zero_padded n parts) = n.
Proof. intros H. unfold zero_padded. rewrite length_app, repeat_length. lia. Qed.

Lemma nth_zero_padded (n i : nat) (parts : list Z) :
  nth i (zero_padded n parts) 0%Z = nth i parts 0%Z.
Proof. apply (nth_pad parts n i). Qed.

Lemma compare_versions_padded (a b : string) :
  compare_versions a b = padded_compare (parse_version a) (parse_version b).
Proof.
  destruct (compare_versions_returns a b) as [_ ->].
  unfold padded_compare. cbv zeta. set (n := Nat.max _ _).
  pose proof (componentwise_lex (zero_padded n (parse_version a))
                (zero_padded n (parse_version b))) as H.
  rewrite !length_zero_padded in H by (unfold n; lia).
  specialize (H eq_refl 0%nat). rewrite !skipn_O in H. rewrite H, Nat.sub_0_r.
  apply lex_from_ext. intros k _. unfold component.
  now rewrite !nth_zero_padded.
Qed.

Lemma padded_equal (a b : string) :
  let n := Nat.max (length (parse_version a)) (length (parse_version b)) in
  (forall i, component a i = component b i) <->
  zero_padded n (parse_version a) = zero_padded n (parse_version b).
Proof.
  cbv zeta. set (n := Nat.max _ _). unfold component. split.
  - intros H. apply (nth_ext _ _ 0%Z 0%Z).
    + rewrite !length_zero_padded; [reflexivity | unfold n; lia ..].
    + intros i _. rewrite !nth_zero_padded. apply H.
  - intros H i. rewrite <- (nth_zero_padded n i (parse_version a)),
      <- (nth_zero_padded n i (parse_version b)). now rewrite H.
Qed.

(** C7: version comparison is a total order consistent with the
    component-wise integer comparison after zero-padding.  The loop of
    [compare_versions] never leaves the padded lists; its result is the
    comparison, component by component, of the two parsed versions padded
    with zeros to equal length; it is 0 exactly when the padded lists are
    equal; it is reflexive, antisymmetric ([compare a b = - compare b a],
    and two versions below each other have equal padded lists),
    transitive and total, with values -1, 0 and 1; and
    [compare "1.2" "1.2.0" = 0], [compare "2.0" "1.9.9" > 0].  This holds
    for every table of decimal digits and every digit limit of the
    interpreter. *)
Theorem compare_versions_total_order :
  (forall a b, compare_versions_result a b = Some (compare_versions a b)) /\
  (forall a b, compare_versions a b
               = padded_compare (parse_version a) (parse_version b)) /\
  (forall a b,
     let n := Nat.max (length (parse_version a)) (length (parse_version b)) in
     compare_versions a b = 0%Z <->
     zero_padded n (parse_version a) = zero_padded n (parse_version b)) /\
  (forall a, compare_versions a a = 0%Z) /\
  (forall a b, compare_versions a b = (- compare_versions b a)%Z) /\
  (forall a b, (compare_versions a b <= 0)%Z -> (compare_versions b a <= 0)%Z ->
               compare_versions a b = 0%Z) /\
  (forall a b c, (compare_versions a b <= 0)%Z -> (compare_versions b c <= 0)%Z ->
                 (compare_versions a c <= 0)%Z) /\
  (forall a b, (compare_versions a b <= 0)%Z \/ (compare_versions b a <= 0)%Z) /\
  (forall a b, compare_versions a b = (-1)%Z \/ compare_versions a b = 0%Z \/
               compare_versions a b = 1%Z) /\
  compare_versions "1.2" "1.2.0" = 0%Z /\
  (compare_versions "2.0" "1.9.9" > 0)%Z.
Proof.
  split_and!.
  - intros a b. apply compare_versions_returns.
  - apply compare_versions_padded.
  - intros a b. cbv zeta. rewrite compare_versions_zero.
    apply (padded_equal a b).
  - intros a. now apply compare_versions_zero.
  - apply compare_versions_opp.
  - intros a b Hab Hba. rewrite compare_versions_opp in Hba. lia.
  - apply compare_versions_trans.
  - intros a b. rewrite (compare_versions_opp b a).
    destruct (compare_versions_range a b) as [H|[H|H]]; rewrite H; lia.
  - apply compare_versions_range.
  - reflexivity.
  - reflexivity.
Qed.

(** ** Components are natural numbers *)

Lemma int_from_nonneg (part : list N) :
  forall acc z, (0 <= acc)%Z -> int_from acc part = Some z -> (0 <= z)%Z.
Proof.
  induction part as [|c part IH]; intros acc z Hacc H; cbn [int_from] in H.
  - now injection H as <-.
  - destruct (Unicode.digit c) as [v|]; [|discriminate].
    apply (IH (10 * acc + Z.of_N v)%Z z); [lia|exact H].
Qed.

Lemma int_all_nonneg (parts : list (list N)) :
  forall zs, int_all parts = Some zs -> Forall (fun z => (0 <= z)%Z) zs.
Proof.
  induction parts as [|p rest IH]; intros zs H; cbn [int_all] in H.
  - injection H as <-. constructor.
  - unfold int in H. destruct (too_long (length p)); [discriminate|].
    destruct (int_from 0 p) as [z|] eqn:Hz; [|discriminate].
    destruct (int_all rest) as [zs'|]; [|discriminate].
    injection H as <-. constructor; [|now apply IH].
    now apply (int_from_nonneg p 0%Z z).
Qed.

Lemma parse_version_nonneg (v : string) :
  Forall (fun z => (0 <= z)%Z) (parse_version v).
Proof.
  unfold parse_version.
  destruct (int_all (findall_digits v)) as [zs|] eqn:H.
  - now apply int_all_nonneg in H.
  - constructor; [lia|constructor].
Qed.

Lemma component_nonneg (v : string) (i : nat) : (0 <= component v i)%Z.
Proof.
  unfold component. pose proof (parse_version_nonneg v) as H. revert i.
  induction H as [|z l Hz _ IH]; intros i.
  - destruct i; reflexivity.
  - destruct i; [exact Hz|apply IH].
Qed.

Lemma component_overflow_zero (v : string) (i : nat) :
  forallb (fun z => (z =? 0)%Z) (parse_version v) = true -> component v i = 0%Z.
Proof.
  unfold component. generalize (parse_version v). intros l H. revert i.
  induction l as [|z l IH]; intros i; [now destruct i|].
  cbn [forallb] in H. apply andb_true_iff in H as [Hz Hl].
  apply Z.eqb_eq in Hz. destruct i; [exact Hz|now apply IH].
Qed.

(** A run of digits beyond the interpreter's limit sends [parse_version]
    to its [except] branch. *)
Lemma parse_version_digit_limit (v : string) :
  existsb (fun run => too_long (length run)) (findall_digits v) = true ->
  parse_version v = [0%Z].
Proof.
  unfold parse_version. intros H.
  assert (Hnone : int_all (findall_digits v) = None).
  { induction (findall_digits v) as [|run runs IH]; [discriminate|].
    cbn [existsb int_all] in *. unfold int at 1.
    destruct (too_long (length run)); [reflexivity|]. cbn [orb] in H.
    destruct (int_from 0 run); [|reflexivity]. now rewrite (IH H). }
  now rewrite Hnone.
Qed.

(** X2: no version is below a version that parses to zeros only (in
    particular the default lower bound "0.0.0"), because the numbers that
    [parse_version] reads are never negative, whatever the digits and
    whether or not the [except] branch is taken. *)
Theorem zero_version_is_least (v zero : string) :
  (forall z, In z (parse_version zero) -> z = 0%Z) ->
  (compare_versions v zero >= 0)%Z /\ (compare_versions zero v <= 0)%Z.
Proof.
  intros Hzero.
  assert (Hz : forall i, component zero i = 0%Z).
  { intros i. unfold component.
    destruct (nth_in_or_default i (parse_version zero) 0%Z) as [Hin| ->];
      [now apply Hzero|reflexivity]. }
  assert (H : compare_versions zero v <> 1%Z).
  { intros Hgt. apply compare_versions_gt in Hgt as (k & _ & Hlt).
    rewrite Hz in Hlt. pose proof (component_nonneg v k). lia. }
  rewrite (compare_versions_opp v zero).
  destruct (compare_versions_range zero v) as [E|[E|E]]; rewrite ?E in *; lia.
Qed.

End WithInterpreter.

(** With the tables of CPython 3.11: digits of other scripts count, and
    a run of more than 4300 digits sends [parse_version] to its [except]
    branch. *)
Example parse_version_examples :
  parse_version "v1.0.3" = [1; 0; 3]%Z /\
  parse_version "１.２" = [1; 2]%Z /\
  compare_versions "１.２" "1.1" = 1%Z /\
  parse_version "no digits" = [] /\
  compare_versions "1.2" "1.2.1" = (-1)%Z.
Proof. split_and!; vm_compute; reflexivity. Qed.

Example parse_version_digit_limit_example :
  parse_version (String.concat "" (repeat "9" 4301)) = [0%Z] /\
  parse_version ("1." +:+ String.concat "" (repeat "0" 4301)) = [0%Z] /\
  length (parse_version ("1." +:+ String.concat "" (repeat "0" 4300))) = 2%nat /\
  compare_versions (String.concat "" (repeat "9" 4301)) "1" = (-1)%Z.
Proof. split_and!; vm_compute; reflexivity. Qed.

Lemma zero_version_is_least_witness :
  (compare_versions "v1.0.3" "0.0.0" >= 0)%Z /\
  (compare_versions "0.0.0" "v1.0.3" <= 0)%Z.
Proof.
  apply (zero_version_is_least "v1.0.3" "0.0.0").
  intros z Hz. vm_compute in Hz. intuition congruence.
Defined.

End Version.

(* ===================================================================== *)
(** * Insertion-ordered dictionaries *)
(* ===================================================================== *)

Module Dict.

(** A Python [dict] with [str] keys whose iteration order is observable:
    the association list of its items in insertion order. *)
Definition t (V : Type) : Type := list (string * V).

Fixpoint get {V} (d : t V) (key : string) : option V :=
  match d with
  | [] => None
  | (k, v) :: d' => if String.eqb k key then Some v else get d' key
  end.

(** [d[key] = value]: overwrite in place, or append a new item. *)
Fixpoint set {V} (d : t V) (key : string) (value : V) : t V :=
  match d with
  | [] => [(key, value)]
  | (k, v) :: d' =>
      if String.eqb k key then (k, value) :: d' else (k, v) :: set d' key value
  end.

Definition keys {V} (d : t V) : list string := map fst d.

Definition contains_key {V} (d : t V) (key : string) : bool :=
  match get d key with Some _ => true | None => false end.

Lemma get_some_in {V} (d : t V) (key : string) (v : V) :
  get d key = Some v -> In (key, v) d.
Proof.
  induction d as [|[k w] d IH]; cbn [get]; [discriminate|].
  destruct (String.eqb_spec k key) as [->|].
  - intros [= ->]. now left.
  - intros H. right. now apply IH.
Qed.

Lemma get_some_key {V} (d : t V) (key : string) (v : V) :
  get d key = Some v -> In key (keys d).
Proof.
  intros H. apply get_some_in in H. unfold keys.
  change key with (fst (key, v)). now apply in_map.
Qed.

Lemma get_set {V} (d : t V) (k k' : string) (v : V) :
  get (set d k v) k' = if String.eqb k k' then Some v else get d k'.
Proof.
  induction d as [|[k0 v0] d IH]; cbn [set get].
  - reflexivity.
  - destruct (String.eqb_spec k0 k) as [->|Hne]; cbn [get].
    + now destruct (String.eqb_spec k k').
    + rewrite IH. destruct (String.eqb_spec k0 k') as [->|Hne'].
      * destruct (String.eqb_spec k k'); congruence.
      * reflexivity.
Qed.

End Dict.

(* ===================================================================== *)
(** * Dependency graph and cycle detection
      ([PluginManager.check_circular_dependency]) *)
(* ===================================================================== *)

Module DepGraph.

(** [DEPENDENCY_GRAPH : Dict[str, List[str]]]. *)
Definition graph : Type := Dict.t (list string).

(** The mutable objects threaded through the recursion: the [visited] set
    and the [path] list (both shared by all recursive calls), and the
    messages passed to [logger.error]. *)
Record dfs_state : Type := mk_dfs_state {
  visited : gset string;
  path : list string;
  errors : list string
}.

Definition add_visited (name : string) (st : dfs_state) : dfs_state :=
  mk_dfs_state ({[name]} ∪ visited st) (path st) (errors st).

Definition path_append (name : string) (st : dfs_state) : dfs_state :=
  mk_dfs_state (visited st) (path st ++ [name]) (errors st).

Definition path_pop (st : dfs_state) : dfs_state :=
  mk_dfs_state (visited st) (removelast (path st)) (errors st).

Definition log_error (msg : string) (st : dfs_state) : dfs_state :=
  mk_dfs_state (visited st) (path st) (errors st ++ [msg]).

(** [path.index(x)], called only under [x in path]. *)
Fixpoint index (x : string) (l : list string) : nat :=
  match l with
  | [] => 0
  | y :: l' => if String.eqb y x then 0 else S (index x l')
  end.

(** [" -> ".join(path[cycle_start_index:]) + " -> " + dependency]. *)
Definition render_cycle (path : list string) (dependency : string) : string :=
  let cycle_start_index := index dependency path in
  Str.join " -> " (drop cycle_start_index path) +:+ " -> " +:+ dependency.

Definition cycle_message (cycle : string) : string :=
  "❌ 检测到循环依赖: " +:+ cycle.

(** The [for dependency in DEPENDENCY_GRAPH[plugin_name]] loop; [rec] is the
    recursive call.  [None] stands for an exhausted recursion budget. *)
Fixpoint for_dependencies
    (rec : string -> dfs_state -> option (bool * dfs_state))
    (deps : list string) (st : dfs_state) : option (bool * dfs_state) :=
  match deps with
  | [] => Some (false, st)
  | dependency :: rest =>
      if bool_decide (dependency ∉ visited st) then
        match rec dependency st with
        | None => None
        | Some (true, st') => Some (true, st')
        | Some (false, st') => for_dependencies rec rest st'
        end
      else if bool_decide (dependency ∈ path st) then
        Some (true, log_error (cycle_message (render_cycle (path st) dependency)) st)
      else for_dependencies rec rest st
  end.

Fixpoint check_fuel (G : graph) (fuel : nat) (plugin_name : string)
    (st : dfs_state) : option (bool * dfs_state) :=
  match fuel with
  | O => None
  | S fuel' =>
      let st := add_visited plugin_name st in
      let st := path_append plugin_name st in
      let body :=
        match Dict.get G plugin_name with
        | Some deps => for_dependencies (check_fuel G fuel') deps st
        | None => Some (false, st)
        end in
      match body with
      | None => None
      | Some (true, st') => Some (true, st')
      | Some (false, st') => Some (false, path_pop st')
      end
  end.

(** Every name that occurs in the graph, as a key or as a dependency. *)
Definition nodes (G : graph) : gset string :=
  list_to_set (Dict.keys G ++ concat (map snd G)).

(** [check_circular_dependency(plugin_name, visited, path)].  Each call
    marks a name that was not visited before, so the recursion depth is
    at most the number of names of the graph plus one (see
    [check_circular_dependency_returns]).  The interpreter's own
    recursion limit is not modelled. *)
Definition check_circular_dependency (G : graph) (plugin_name : string)
    (st : dfs_state) : option (bool * dfs_state) :=
  check_fuel G (S (size (nodes G))) plugin_name st.

(** The state of a top-level call [check_circular_dependency(name, set(), [])],
    keeping the log written so far. *)
Definition fresh (errors : list string) : dfs_state :=
  mk_dfs_state ∅ [] errors.

(** The cycle-detection pass of [PluginManager.init]:

      VISITED.clear()
      for plugin_name in DEPENDENCY_GRAPH:
          if plugin_name not in VISITED:
              if self.check_circular_dependency(plugin_name, set(), []):
                  logger.error(...); return

    [VISITED] is the module-level set; nothing adds to it.  The result is
    whether a cycle was found and the error log. *)
Definition init_failed_message : string := "❌ 检测到循环依赖，初始化失败！".

Fixpoint detect_cycles_from (G : graph) (VISITED : gset string)
    (names : list string) (errors : list string) : option (bool * list string) :=
  match names with
  | [] => Some (false, errors)
  | plugin_name :: rest =>
      if bool_decide (plugin_name ∉ VISITED) then
        match check_circular_dependency G plugin_name (fresh errors) with
        | None => None
        | Some (true, st) => Some (true, (DepGraph.errors st ++ [init_failed_message]))
        | Some (false, st) => detect_cycles_from G VISITED rest (DepGraph.errors st)
        end
      else detect_cycles_from G VISITED rest errors
  end.

Definition detect_cycles (G : graph) (errors : list string)
  : option (bool * list string) :=
  let VISITED : gset string := ∅ in
  detect_cycles_from G VISITED (Dict.keys G) errors.

(** ** Graph-theoretic vocabulary *)

Section Graph.
Variable G : graph.

Definition succs (n : string) : list string :=
  match Dict.get G n with Some deps => deps | None => [] end.

(** [edge n m]: plugin [n] declares a dependency on [m]. *)
Definition edge (n m : string) : Prop := m ∈ succs n.

(** Consecutive elements are joined by edges. *)
Fixpoint chain (l : list string) : Prop :=
  match l with
  | [] => True
  | x :: l' =>
      match l' with
      | [] => True
      | y :: _ => edge x y /\ chain l'
      end
  end.

(** [c = [x0; ..; xk]] is a dependency cycle: x0 -> .. -> xk -> x0. *)
Definition is_cycle (c : list string) : Prop :=
  match c with
  | [] => False
  | x :: _ => chain (c ++ [x])
  end.

(** The cycle as it is printed, closed by repeating its first element. *)
Definition closed (c : list string) : list string :=
  match c with
  | [] => []
  | x :: _ => (c ++ [x])
  end.

Definition has_cycle : Prop := exists c, is_cycle c.

(** No infinite dependency chain starts at [n]. *)
Inductive good : string -> Prop :=
| good_intro n : (forall m, edge n m -> good m) -> good n.

End Graph.

(** ** Correctness of the traversal *)

Section Traversal.
Variable G : graph.

(** The new log is the old one followed by one message that renders a
    simple dependency cycle of [G]. *)
Definition reported (before after : list string) : Prop :=
  exists c, is_cycle G c /\ NoDup c /\
    after = before ++ [cycle_message (Str.join " -> " (closed c))].

(** Names already left by the traversal start no infinite chain. *)
Definition finished_good (st : dfs_state) : Prop :=
  forall m, m ∈ visited st -> m ∉ path st -> good G m.

Definition wf_state (st : dfs_state) : Prop :=
  chain G (path st) /\ NoDup (path st) /\
  (forall x, x ∈ path st -> x ∈ visited st) /\ finished_good st.

Lemma chain_cons_iff (x y : string) (l : list string) :
  chain G (x :: y :: l) <-> edge G x y /\ chain G (y :: l).
Proof. reflexivity. Qed.

Lemma chain_snoc (l : list string) (d : string) :
  chain G l -> (forall p, last l = Some p -> edge G p d) ->
  chain G (l ++ [d]).
Proof.
  induction l as [|x l IH]; intros Hc Hl; [exact I|].
  destruct l as [|y l].
  - cbn. split; [|exact I]. now apply Hl.
  - change ((x :: y :: l) ++ [d]) with (x :: y :: (l ++ [d])).
    apply chain_cons_iff in Hc as [Hxy Hc]. apply chain_cons_iff.
    split; [exact Hxy|]. apply IH; [exact Hc|].
    intros p Hp. apply Hl. exact Hp.
Qed.

Lemma chain_tail (x : string) (l : list string) :
  chain G (x :: l) -> chain G l.
Proof. destruct l; [intros; exact I | intros [_ H]; exact H]. Qed.

Lemma chain_drop (k : nat) (l : list string) :
  chain G l -> chain G (drop k l).
Proof.
  revert l. induction k as [|k IH]; intros l H; [now rewrite drop_0|].
  destruct l as [|x l]; [exact I|]. cbn [drop]. apply IH.
  now apply chain_tail with x.
Qed.

(** Inside a closed chain every listed name has a successor in it. *)
Lemma chain_successor (l : list string) (z n : string) :
  chain G (l ++ [z]) -> n ∈ l -> exists m, edge G n m /\ m ∈ l ++ [z].
Proof.
  induction l as [|x l IH]; intros Hc Hn; [inversion Hn|].
  apply elem_of_cons in Hn as [->|Hn].
  - destruct l as [|y l].
    + destruct Hc as [Hxz _]. exists z. split; [exact Hxz|].
      cbn. apply elem_of_cons. right. apply elem_of_cons. now left.
    + destruct Hc as [Hxy _]. exists y. split; [exact Hxy|].
      apply elem_of_cons. right. apply elem_of_cons. now left.
  - destruct (IH (chain_tail _ _ Hc) Hn) as (m & He & Hm).
    exists m. split; [exact He|]. apply elem_of_cons. now right.
Qed.

Lemma good_not_on_cycle (n : string) :
  good G n -> forall c, is_cycle G c -> n ∉ c.
Proof.
  induction 1 as [n _ IH]. intros c Hc Hn.
  destruct c as [|x c]; [exact Hc|]. cbn [is_cycle] in Hc.
  destruct (chain_successor _ _ _ Hc Hn) as (m & He & Hm).
  apply (IH m He (x :: c)); [exact Hc|].
  apply elem_of_app in Hm as [Hm|Hm]; [exact Hm|].
  apply list_elem_of_singleton in Hm as ->. apply elem_of_cons. now left.
Qed.

Lemma index_lookup (d : string) (l : list string) :
  d ∈ l -> l !! index d l = Some d.
Proof.
  induction l as [|y l IH]; intros H; [inversion H|].
  cbn [index]. destruct (String.eqb_spec y d) as [->|Hne]; [reflexivity|].
  apply elem_of_cons in H as [->|H]; [congruence|]. now apply IH.
Qed.

Lemma join_snoc (sep d : string) (c : list string) :
  c <> [] -> Str.join sep c +:+ sep +:+ d = Str.join sep (c ++ [d]).
Proof.
  unfold Str.join. induction c as [|x c IH]; intros Hne; [congruence|].
  destruct c as [|y c].
  - reflexivity.
  - change (String.concat sep ((x :: y :: c) ++ [d]))
      with (x +:+ sep +:+ String.concat sep ((y :: c) ++ [d])).
    rewrite <- IH by discriminate.
    change (String.concat sep (x :: y :: c))
      with (x +:+ sep +:+ String.concat sep (y :: c)).
    now rewrite !Str.append_assoc.
Qed.

Lemma last_drop (k : nat) (l : list string) :
  k < length l -> last (drop k l) = last l.
Proof.
  intros Hk. rewrite !last_lookup, lookup_drop, length_drop. f_equal. lia.
Qed.

(** A dependency that is already on the path closes a simple cycle, and
    the message built by the code renders it. *)
Lemma back_edge_reported (st : dfs_state) (n d : string) :
  wf_state st -> last (path st) = Some n -> edge G n d -> d ∈ path st ->
  reported (errors st)
    (errors (log_error (cycle_message (render_cycle (path st) d)) st)).
Proof.
  intros (Hchain & Hnd & _ & _) Hlast He Hd.
  pose proof (index_lookup _ _ Hd) as Hidx.
  pose proof (drop_S _ _ _ Hidx) as Hdrop.
  exists (drop (index d (path st)) (path st)). repeat split.
  - rewrite Hdrop. cbn [is_cycle]. rewrite <- Hdrop.
    apply chain_snoc; [now apply chain_drop|].
    intros p Hp. rewrite last_drop in Hp.
    + rewrite Hlast in Hp. injection Hp as <-. exact He.
    + now apply lookup_lt_Some in Hidx.
  - eapply sublist_NoDup; [exact Hnd | apply sublist_drop].
  - cbn [log_error errors]. unfold render_cycle. cbv zeta.
    rewrite join_snoc by (rewrite Hdrop; discriminate).
    rewrite Hdrop. reflexivity.
Qed.

(** What a call on [n] may assume, and what it guarantees. *)
Definition call_pre (n : string) (st : dfs_state) : Prop :=
  wf_state st /\ (forall p, last (path st) = Some p -> edge G p n) /\
  n ∉ visited st.

Definition call_post (n : string) (st : dfs_state) (b : bool)
    (st' : dfs_state) : Prop :=
  if b then reported (errors st) (errors st')
  else path st' = path st /\ errors st' = errors st /\
       visited st ⊆ visited st' /\ n ∈ visited st' /\
       finished_good st' /\ good G n.

Lemma for_dependencies_spec
    (rec : string -> dfs_state -> option (bool * dfs_state)) (n : string) :
  (forall d st b st', rec d st = Some (b, st') ->
                      call_pre d st -> call_post d st b st') ->
  forall deps st b st',
    for_dependencies rec deps st = Some (b, st') ->
    wf_state st -> last (path st) = Some n ->
    (forall d, d ∈ deps -> edge G n d) ->
    if b then reported (errors st) (errors st')
    else path st' = path st /\ errors st' = errors st /\
         visited st ⊆ visited st' /\ finished_good st' /\
         forall d, d ∈ deps -> good G d.
Proof.
  intros Hrec. induction deps as [|d rest IH];
    intros st b st' H Hwf Hlast Hedges; cbn [for_dependencies] in H.
  - injection H as <- <-. destruct Hwf as (_ & _ & _ & Hfg).
    split_and!; [done | done | done | exact Hfg | intros d Hd; inversion Hd].
  - assert (Hd : edge G n d) by (apply Hedges; apply elem_of_cons; now left).
    assert (Hrest : forall d', d' ∈ rest -> edge G n d')
      by (intros d' Hd'; apply Hedges; apply elem_of_cons; now right).
    case_bool_decide as Hvis.
    + assert (Hpre : call_pre d st).
      { split_and!; [exact Hwf| |exact Hvis].
        intros p Hp. rewrite Hlast in Hp. now injection Hp as <-. }
      destruct (rec d st) as [[[] st1]|] eqn:Hr; try discriminate.
      * injection H as <- <-. apply (Hrec d st true st1 Hr Hpre).
      * destruct (Hrec d st false st1 Hr Hpre)
          as (Hp & He & Hv & Hin & Hfg & Hgood).
        destruct Hwf as (Hc & Hnd & Hsub & _).
        apply IH in H; [| |congruence|exact Hrest].
        2:{ split_and!; rewrite ?Hp; auto. }
        destruct b; [now rewrite <- He|].
        destruct H as (Hp' & He' & Hv' & Hfg' & Hgood').
        split_and!; [congruence | congruence | | exact Hfg' |].
        { clear -Hv Hv'. set_solver. }
        intros d' Hd'. apply elem_of_cons in Hd' as [->|Hd']; [exact Hgood|].
        now apply Hgood'.
    + case_bool_decide as Hpath.
      * injection H as <- <-. now apply back_edge_reported with n.
      * pose proof Hwf as (_ & _ & _ & Hfg).
        apply IH in H; [|exact Hwf|exact Hlast|exact Hrest].
        destruct b; [exact H|].
        destruct H as (Hp' & He' & Hv' & Hfg' & Hgood').
        split_and!; [exact Hp' | exact He' | exact Hv' | exact Hfg' |].
        intros d' Hd'. apply elem_of_cons in Hd' as [->|Hd']; [|now apply Hgood'].
        apply Hfg; [|exact Hpath].
        destruct (decide (d ∈ visited st)); [assumption|contradiction].
Qed.

Lemma good_of_succs (n : string) :
  (forall d, d ∈ succs G n -> good G d) -> good G n.
Proof. intros H. constructor. exact H. Qed.

Lemma wf_state_enter (n : string) (st : dfs_state) :
  call_pre n st -> wf_state (path_append n (add_visited n st)).
Proof.
  intros ((Hc & Hnd & Hsub & Hfg) & Hlast & Hvis).
  unfold wf_state, finished_good. cbn [path_append add_visited path visited].
  split_and!.
  - now apply chain_snoc.
  - apply NoDup_app. split_and!; [exact Hnd| |apply NoDup_singleton].
    intros x Hx Hx'. apply list_elem_of_singleton in Hx' as ->. auto.
  - intros x Hx. apply elem_of_app in Hx as [Hx|Hx].
    + apply elem_of_union_r. now apply Hsub.
    + apply list_elem_of_singleton in Hx as ->.
      apply elem_of_union_l. now apply elem_of_singleton.
  - intros m Hm Hm'. apply not_elem_of_app in Hm' as [Hm1 Hm2].
    rewrite list_elem_of_singleton in Hm2.
    apply elem_of_union in Hm as [Hm|Hm]; [|now apply Hfg].
    apply elem_of_singleton in Hm. contradiction.
Qed.

(** Leaving [n] after its dependencies were all found good. *)
Lemma call_post_leave (n : string) (st st2 : dfs_state) :
  path st2 = path st ++ [n] -> errors st2 = errors st ->
  {[n]} ∪ visited st ⊆ visited st2 -> finished_good st2 -> good G n ->
  call_post n st false (path_pop st2).
Proof.
  intros Hp He Hv Hfg2 Hgood.
  unfold call_post, finished_good. cbn [path_pop path errors visited].
  rewrite Hp, removelast_last. split_and!.
  - reflexivity.
  - exact He.
  - clear -Hv. set_solver.
  - clear -Hv. set_solver.
  - intros m Hm Hm'. destruct (decide (m = n)) as [->|Hne]; [exact Hgood|].
    apply Hfg2; [exact Hm|]. rewrite Hp. apply not_elem_of_app.
    split; [exact Hm'|]. now rewrite list_elem_of_singleton.
  - exact Hgood.
Qed.

Lemma check_fuel_spec (fuel : nat) :
  forall n st b st',
    check_fuel G fuel n st = Some (b, st') ->
    call_pre n st -> call_post n st b st'.
Proof.
  induction fuel as [|fuel IH]; intros n st b st' H Hpre; [discriminate|].
  cbn [check_fuel] in H. cbv zeta in H.
  pose proof (wf_state_enter n st Hpre) as Hwf1.
  set (st1 := path_append n (add_visited n st)) in *.
  assert (Hlast1 : last (path st1) = Some n) by apply last_snoc.
  destruct (Dict.get G n) as [deps|] eqn:Hget.
  - destruct (for_dependencies (check_fuel G fuel) deps st1)
      as [[b1 st2]|] eqn:Hloop; [|discriminate].
    assert (Hedges : forall d, d ∈ deps -> edge G n d).
    { intros d Hd. unfold edge, succs. now rewrite Hget. }
    pose proof (for_dependencies_spec _ n IH deps st1 b1 st2 Hloop Hwf1
                  Hlast1 Hedges) as Hspec.
    destruct b1; injection H as <- <-; [exact Hspec|].
    destruct Hspec as (Hp & He & Hv & Hfg2 & Hgood).
    apply call_post_leave; [exact Hp | exact He | exact Hv | exact Hfg2 |].
    apply good_of_succs. unfold succs. now rewrite Hget.
  - injection H as <- <-.
    apply call_post_leave; [reflexivity | reflexivity | reflexivity | apply Hwf1 |].
    apply good_of_succs. unfold succs. rewrite Hget. intros d Hd. inversion Hd.
Qed.

(** ** Termination: the recursion budget is never exhausted *)

Lemma dependency_in_nodes (n d : string) (deps : list string) :
  Dict.get G n = Some deps -> d ∈ deps -> d ∈ nodes G.
Proof.
  intros Hget Hd. unfold nodes. apply elem_of_list_to_set, elem_of_app.
  right. apply list_elem_of_In, in_concat. exists deps. split.
  - apply Dict.get_some_in in Hget.
    change deps with (snd (n, deps)). now apply in_map.
  - now apply list_elem_of_In.
Qed.

Lemma unvisited_shrinks (d : string) (V : gset string) :
  d ∈ nodes G -> d ∉ V ->
  size (nodes G ∖ ({[d]} ∪ V)) < size (nodes G ∖ V).
Proof.
  generalize (nodes G). intros N Hd Hv. apply subset_size. split.
  - apply difference_mono_l, union_subseteq_r.
  - intros Hsub. specialize (Hsub d).
    rewrite !elem_of_difference, elem_of_union, elem_of_singleton in Hsub.
    tauto.
Qed.

Lemma unvisited_mono (V V' : gset string) :
  V ⊆ V' -> size (nodes G ∖ V') <= size (nodes G ∖ V).
Proof. intros H. apply subseteq_size. now apply difference_mono_l. Qed.

Lemma for_dependencies_total
    (rec : string -> dfs_state -> option (bool * dfs_state)) (fuel : nat) :
  (forall d st, size (nodes G ∖ ({[d]} ∪ visited st)) < fuel ->
     exists b st', rec d st = Some (b, st') /\ visited st ⊆ visited st') ->
  forall deps st,
    (forall d, d ∈ deps -> d ∈ nodes G) ->
    size (nodes G ∖ visited st) <= fuel ->
    exists b st', for_dependencies rec deps st = Some (b, st') /\
                  visited st ⊆ visited st'.
Proof.
  intros Hrec. induction deps as [|d rest IH]; intros st Hin Hsize;
    cbn [for_dependencies].
  - exists false, st. split; [reflexivity|set_solver].
  - assert (Hd : d ∈ nodes G) by (apply Hin, elem_of_cons; now left).
    assert (Hrest : forall d', d' ∈ rest -> d' ∈ nodes G)
      by (intros d' Hd'; apply Hin, elem_of_cons; now right).
    case_bool_decide as Hvis.
    + destruct (Hrec d st) as (b & st1 & -> & Hv).
      { pose proof (unvisited_shrinks d (visited st) Hd Hvis). lia. }
      destruct b; [now exists true, st1|].
      destruct (IH st1 Hrest) as (b & st2 & -> & Hv2).
      { pose proof (unvisited_mono _ _ Hv). lia. }
      exists b, st2. split; [reflexivity|]. clear -Hv Hv2. set_solver.
    + case_bool_decide as Hpath.
      * eexists true, _. split; [reflexivity|]. cbn. set_solver.
      * now apply IH.
Qed.

Lemma check_fuel_total (fuel : nat) :
  forall n st,
    size (nodes G ∖ ({[n]} ∪ visited st)) < fuel ->
    exists b st', check_fuel G fuel n st = Some (b, st') /\
                  visited st ⊆ visited st'.
Proof.
  induction fuel as [|fuel IH]; intros n st Hsize; [lia|].
  cbn [check_fuel]. cbv zeta.
  set (st1 := path_append n (add_visited n st)).
  assert (Hv1 : visited st ⊆ visited st1) by (cbn; set_solver).
  destruct (Dict.get G n) as [deps|] eqn:Hget.
  - destruct (for_dependencies_total _ fuel IH deps st1)
      as (b & st2 & -> & Hv2).
    + intros d Hd. now apply dependency_in_nodes with n deps.
    + cbn [st1 path_append add_visited visited]. lia.
    + destruct b; eexists _, _; (split; [reflexivity|]); cbn;
        clear -Hv1 Hv2; set_solver.
  - exists false, (path_pop st1). split; [reflexivity|]. exact Hv1.
Qed.

(** [check_circular_dependency] returns, for every name and state. *)
Lemma check_circular_dependency_returns (n : string) (st : dfs_state) :
  exists b st', check_circular_dependency G n st = Some (b, st').
Proof.
  destruct (check_fuel_total (S (size (nodes G))) n st) as (b & st' & H & _).
  - assert (size (nodes G ∖ ({[n]} ∪ visited st)) <= size (nodes G))
      by apply subseteq_size, subseteq_difference_l, reflexivity.
    lia.
  - now exists b, st'.
Qed.

(** A top-level call either logs one rendered simple cycle, or leaves the
    log alone and certifies that no cycle passes through [n]. *)
Lemma check_circular_dependency_fresh (n : string) (errs : list string) :
  exists b st', check_circular_dependency G n (fresh errs) = Some (b, st') /\
    if b then reported errs (errors st')
    else errors st' = errs /\ good G n.
Proof.
  destruct (check_circular_dependency_returns n (fresh errs)) as (b & st' & H).
  exists b, st'. split; [exact H|].
  apply check_fuel_spec in H.
  - destruct b; [exact H|]. destruct H as (_ & He & _ & _ & _ & Hg). now split.
  - unfold call_pre, wf_state, finished_good. cbn. split_and!.
    + exact I.
    + constructor.
    + intros x Hx. inversion Hx.
    + intros m Hm. set_solver.
    + intros p Hp. discriminate.
    + set_solver.
Qed.

Lemma detect_cycles_from_spec (names : list string) :
  forall errs,
  exists b errs', detect_cycles_from G ∅ names errs = Some (b, errs') /\
    if b then exists mid, reported errs mid /\
                          errs' = mid ++ [init_failed_message]
    else errs' = errs /\ forall n, n ∈ names -> good G n.
Proof.
  induction names as [|n rest IH]; intros errs; cbn [detect_cycles_from].
  - exists false, errs. split; [reflexivity|]. split; [reflexivity|].
    intros n Hn. inversion Hn.
  - rewrite bool_decide_eq_true_2 by set_solver.
    destruct (check_circular_dependency_fresh n errs) as (b & st' & -> & Hb).
    destruct b.
    + eexists true, _. split; [reflexivity|]. now exists (errors st').
    + destruct Hb as (-> & Hgood).
      destruct (IH errs) as (b & errs' & -> & Hb). exists b, errs'.
      split; [reflexivity|]. destruct b; [exact Hb|].
      destruct Hb as (-> & Hall). split; [reflexivity|].
      intros m Hm. apply elem_of_cons in Hm as [->|Hm]; auto.
Qed.

Lemma cycle_head_is_key (x : string) (c : list string) :
  is_cycle G (x :: c) -> x ∈ Dict.keys G.
Proof.
  intros Hc. cbn [is_cycle] in Hc.
  destruct (chain_successor (x :: c) x x Hc) as (m & He & _).
  { apply elem_of_cons. now left. }
  unfold edge, succs in He. destruct (Dict.get G x) as [deps|] eqn:Hget.
  - apply list_elem_of_In. now apply Dict.get_some_key with deps.
  - inversion He.
Qed.

(** The detection pass finds a cycle exactly when the graph has one, and
    then logs one rendered simple cycle followed by the failure note. *)
Lemma detect_cycles_spec (errs : list string) :
  exists b errs', detect_cycles G errs = Some (b, errs') /\
    if b then exists mid, reported errs mid /\
                          errs' = mid ++ [init_failed_message]
    else errs' = errs /\ ~ has_cycle G.
Proof.
  unfold detect_cycles. cbv zeta.
  destruct (detect_cycles_from_spec (Dict.keys G) errs) as (b & errs' & H & Hb).
  exists b, errs'. split; [exact H|]. destruct b; [exact Hb|].
  destruct Hb as (-> & Hgood). split; [reflexivity|].
  intros ([|x c] & Hc); [exact Hc|].
  apply (good_not_on_cycle x (Hgood x (cycle_head_is_key x c Hc)) (x :: c) Hc).
  apply elem_of_cons. now left.
Qed.

End Traversal.

(** The cycle printed on the first run over a three-plugin ring. *)
Example detect_cycles_ring :
  detect_cycles [("A", ["B"]); ("B", ["C"]); ("C", ["A"]); ("D", [])] [] =
  Some (true, ["❌ 检测到循环依赖: A -> B -> C -> A"; init_failed_message]).
Proof. vm_compute. reflexivity. Qed.

Example detect_cycles_self_loop :
  detect_cycles [("A", ["A"])] [] =
  Some (true, ["❌ 检测到循环依赖: A -> A"; init_failed_message]).
Proof. vm_compute. reflexivity. Qed.

Example detect_cycles_diamond :
  detect_cycles [("A", ["B"; "C"]); ("B", ["D"]); ("C", ["D"]); ("D", [])] [] =
  Some (false, []).
Proof. vm_compute. reflexivity. Qed.



(** X1: the detection pass answers "no cycle", leaving the log as it
    was, exactly when the dependency graph is acyclic: it never reports a
    cycle that the graph does not have. *)
Theorem acyclic_graph_passes (G : graph) (errs : list string) :
  detect_cycles G errs = Some (false, errs) <-> ~ has_cycle G.
Proof.
  destruct (detect_cycles_spec G errs) as (b & errs' & H & Hb). split.
  - intros H'. rewrite H' in H. injection H as <- <-. now destruct Hb.
  - intros Hacyc. destruct b.
    + destruct Hb as (mid & (c & Hc & _) & _). destruct Hacyc. now exists c.
    + destruct Hb as (-> & _). exact H.
Qed.

End DepGraph.

(* ===================================================================== *)
(** * Python results *)
(* ===================================================================== *)

Module Py.

(** The exceptions that decide control flow in the modelled code.
    [BaseOnly] stands for the classes that derive from [BaseException]
    but not from [Exception] ([SystemExit], [KeyboardInterrupt],
    [GeneratorExit]); [except Exception] does not catch them. *)
Inductive exn : Type :=
| NameError (name : string)
| UnboundLocalError (name : string)
| ImportError (name : string)
| OtherException (msg : string)
| BaseOnly (class_name : string).

Definition is_Exception (e : exn) : bool :=
  match e with
  | BaseOnly _ => false
  | _ => true
  end.

(** [str(e)]. *)
Definition message (e : exn) : string :=
  match e with
  | NameError name => "name '" +:+ name +:+ "' is not defined"
  | UnboundLocalError name =>
      "local variable '" +:+ name +:+ "' referenced before assignment"
  | ImportError name => "No module named '" +:+ name +:+ "'"
  | OtherException msg => msg
  | BaseOnly _ => ""
  end.

Inductive result (A : Type) : Type :=
| Returned (a : A)
| Raised (e : exn).
Arguments Returned {A} a.
Arguments Raised {A} e.

(** A tuple of length two is truthy, whatever its components. *)
Definition truthy_pair {A B : Type} (t : A * B) : bool := true.

(** Truthiness of an optional string ([None] and [""] are falsy). *)
Definition truthy_opt_str (o : option string) : bool :=
  match o with
  | Some (String _ _) => true
  | _ => false
  end.

End Py.

(* ===================================================================== *)
(** * The plugin manager ([core/plugin_manager.py]) *)
(* ===================================================================== *)

Module PluginManager.

(** ** Data *)

(** An item of a plugin's [dependencies] list. *)
Record dependency : Type := mk_dependency {
  dep_name : string;
  dep_min_version : option string;
  dep_max_version : option string
}.

(** A metadata dictionary as it is read ([PLUGIN_META], or the result of
    [_convert_adapter_to_meta]); a key may be absent. *)
Record raw_meta : Type := mk_raw_meta {
  raw_name : option string;
  raw_version : option string;
  raw_commands : option (list string);
  raw_handler : option string;
  raw_chat_type : option (list string);
  raw_permission : option string;
  raw_is_at_required : option bool;
  raw_dependencies : option (list dependency)
}.

(** The metadata dictionary once the required keys were found and the
    optional ones defaulted. *)
Record plugin_meta : Type := mk_plugin_meta {
  name : string;
  version : string;
  commands : list string;
  handler : string;
  chat_type : list string;
  permission : string;
  is_at_required : bool;
  dependencies : list dependency;
  plugin_path : string
}.

(** What importing a Python file yields when nothing but an [Exception]
    can go wrong. *)
Inductive import_outcome (A : Type) : Type :=
| Imported (module : A)
| ImportFails (msg : string).
Arguments Imported {A} module.
Arguments ImportFails {A} msg.

(** [adapter.json] on disk. *)
Inductive adapter_file : Type :=
| Unreadable
| Malformed
| Parsed (adapter_data : raw_meta).

(** The imports that the loader performs, in order: [ExecInit p] is
    [exec_module] on the [__init__.py] of plugin [p], which runs that
    module and whatever it imports in turn; [ExecCore p] is [exec_module]
    on the core module of [p]. *)
Inductive event : Type :=
| ExecInit (plugin_name : string)
| ExecCore (plugin_name : string).

Section WithHandlers.

(** The interpreter's table of decimal digits and its digit limit, which
    [parse_version] and [is_valid_qq] depend on. *)
Context {interp : Unicode.Interpreter}.

(** The callables that plugins export. *)
Variable Handler : Type.
(** [core.config.MASTER_QQ]. *)
Variable MASTER_QQ : string.

Inductive attribute : Type :=
| Callable (h : Handler)
| NotCallable.

(** A plugin's core module: [hasattr]/[getattr] by name. *)
Record core_module : Type := mk_core_module {
  module_getattr : string -> option attribute
}.

(** An item of [os.listdir(plugin_dir)] with what the loader can find in
    it.  [None] is a missing file. *)
Record dir_entry : Type := mk_dir_entry {
  entry_name : string;
  entry_is_dir : bool;
  adapter_json : option adapter_file;
  init_py : option (import_outcome (option raw_meta));
  core_py : option (import_outcome core_module)
}.

(** The file system under the plugin directories: [None] when the
    directory does not exist. *)
Definition file_system : Type := string -> option (list dir_entry).

Record registered_plugin : Type := mk_registered_plugin {
  meta : plugin_meta;
  handler_func : Handler;
  registered_module : core_module
}.

(** Module-level state: [PLUGIN_REGISTRY], [LOADED_PLUGIN_VERSIONS],
    [DEPENDENCY_GRAPH], the singleton's [_initialized] flag, and what was
    observed: the cycle reports sent to [logger.error] and the plugin
    code that ran. *)
Record state : Type := mk_state {
  initialized : bool;
  PLUGIN_REGISTRY : list registered_plugin;
  LOADED_PLUGIN_VERSIONS : gmap string string;
  DEPENDENCY_GRAPH : DepGraph.graph;
  error_log : list string;
  trace : list event
}.

Definition initial_state : state := mk_state false [] ∅ [] [] [].

(** ** Phase 1: [_scan_plugins_metadata] *)

(** Names bound at module level in [plugin_manager.py]: by its [import]
    statements (lines 1-7) and its assignments. *)
Definition module_globals : list string :=
  ["os"; "importlib"; "Dict"; "List"; "Callable"; "Optional"; "Set"; "Tuple";
   "re"; "logger"; "ROBOT_QQ"; "MASTER_QQ"; "PLUGIN_REGISTRY";
   "LOADED_PLUGIN_VERSIONS"; "DEPENDENCY_GRAPH"; "VISITED"; "PluginManager";
   "plugin_manager"].

Definition global_defined (name : string) : bool :=
  existsb (String.eqb name) module_globals.

Definition default_to {A} (d : A) (o : option A) : A :=
  match o with Some a => a | None => d end.

(** [_convert_adapter_to_meta(adapter_data, plugin_name)]. *)
Definition convert_adapter_to_meta (adapter_data : raw_meta)
    (plugin_name : string) : raw_meta :=
  mk_raw_meta
    (Some (default_to plugin_name (raw_name adapter_data)))
    (Some (default_to "1.0.0" (raw_version adapter_data)))
    (Some (default_to [] (raw_commands adapter_data)))
    (Some (default_to
             ("handle_" +:+
              Str.replace "-" "_" (Str.replace "_plugin" "" plugin_name))
             (raw_handler adapter_data)))
    (Some (default_to ["private"; "group"] (raw_chat_type adapter_data)))
    (Some (default_to "all" (raw_permission adapter_data)))
    (Some (default_to false (raw_is_at_required adapter_data)))
    (raw_dependencies adapter_data).

(** The [try] block that reads [adapter.json]:

      with open(adapter_file_path, 'r', encoding='utf-8') as f:
          adapter_data = json.load(f)
      plugin_meta = self._convert_adapter_to_meta(adapter_data, plugin_name)

    [json] is looked up in the module globals when [json.load] is
    evaluated. *)
Definition read_adapter (file : adapter_file) (plugin_name : string)
  : Py.result raw_meta :=
  match file with
  | Unreadable => Py.Raised (Py.OtherException "open")
  | Malformed =>
      if global_defined "json"
      then Py.Raised (Py.OtherException "JSONDecodeError")
      else Py.Raised (Py.NameError "json")
  | Parsed adapter_data =>
      if global_defined "json"
      then Py.Returned (convert_adapter_to_meta adapter_data plugin_name)
      else Py.Raised (Py.NameError "json")
  end.

(** The required-key check, the defaults for [version] and
    [dependencies], and [plugin_path]. *)
Definition validate_meta (m : raw_meta) (path : string) : option plugin_meta :=
  match raw_name m, raw_commands m, raw_handler m, raw_chat_type m,
        raw_permission m with
  | Some n, Some cmds, Some h, Some ct, Some perm =>
      Some (mk_plugin_meta n (default_to "1.0.0" (raw_version m)) cmds h ct perm
              (default_to false (raw_is_at_required m))
              (default_to [] (raw_dependencies m)) path)
  | _, _, _, _, _ => None
  end.

Record scan_state : Type := mk_scan_state {
  plugins_meta : Dict.t plugin_meta;
  scan_graph : DepGraph.graph;
  scan_trace : list event
}.

Definition store_meta (plugin_name : string) (pm : plugin_meta)
    (st : scan_state) : scan_state :=
  mk_scan_state
    (Dict.set (plugins_meta st) plugin_name pm)
    (Dict.set (scan_graph st) plugin_name (map dep_name (dependencies pm)))
    (scan_trace st).

(** The metadata of one directory and the plugin code run to get it:
    [adapter.json] first, then [__init__.py] when the descriptor is absent
    or could not be read. *)
Definition collect_meta (e : dir_entry) : option raw_meta * list event :=
  let plugin_name := entry_name e in
  let from_adapter :=
    match adapter_json e with
    | Some file =>
        match read_adapter file plugin_name with
        | Py.Returned m => Some m
        | Py.Raised _ => None
        end
    | None => None
    end in
  match from_adapter with
  | Some m => (Some m, [])
  | None =>
      match init_py e with
      | Some outcome =>
          (match outcome with
           | Imported (Some m) => Some m
           | Imported None => None
           | ImportFails _ => None
           end, [ExecInit plugin_name])
      | None => (None, [])
      end
  end.

(** One turn of the loop over [os.listdir(plugin_dir)]. *)
Definition scan_entry (plugin_dir : string) (e : dir_entry)
    (st : scan_state) : scan_state :=
  let plugin_name := entry_name e in
  let plugin_path := Str.path_join plugin_dir plugin_name in
  if negb (entry_is_dir e) then st
  else
    match adapter_json e, init_py e with
    | None, None => st
    | _, _ =>
        let '(found, events) := collect_meta e in
        let st := mk_scan_state (plugins_meta st) (scan_graph st)
                    (scan_trace st ++ events) in
        match found with
        | None => st
        | Some m =>
            match validate_meta m plugin_path with
            | None => st
            | Some pm => store_meta plugin_name pm st
            end
        end
    end.

Fixpoint scan_entries (plugin_dir : string) (entries : list dir_entry)
    (st : scan_state) : scan_state :=
  match entries with
  | [] => st
  | e :: rest => scan_entries plugin_dir rest (scan_entry plugin_dir e st)
  end.

(** [_scan_plugins_metadata(plugin_dir)]; [graph] is [DEPENDENCY_GRAPH] on
    entry. *)
Definition scan_plugins_metadata (fs : file_system) (plugin_dir : string)
    (graph : DepGraph.graph) (events : list event) : scan_state :=
  match fs plugin_dir with
  | None => mk_scan_state [] graph events
  | Some entries => scan_entries plugin_dir entries (mk_scan_state [] graph events)
  end.

(** ** Phase 2: [_load_plugins_by_dependency] *)

Inductive dependency_error : Type :=
| NotLoaded (dep : string)
| VersionTooLow (dep required actual : string)
| VersionTooHigh (dep allowed actual : string).

(** [check_plugin_dependencies]: [None] is [(True, "")]. *)
Fixpoint check_plugin_dependencies (versions : gmap string string)
    (deps : list dependency) : option dependency_error :=
  match deps with
  | [] => None
  | dep :: rest =>
      let min_version := default_to "0.0.0" (dep_min_version dep) in
      let max_version := dep_max_version dep in
      match versions !! dep_name dep with
      | None => Some (NotLoaded (dep_name dep))
      | Some loaded_version =>
          if (Version.compare_versions loaded_version min_version <? 0)%Z
          then Some (VersionTooLow (dep_name dep) min_version loaded_version)
          else if Py.truthy_opt_str max_version &&
                  (Version.compare_versions loaded_version
                     (default_to "" max_version) >? 0)%Z
          then Some (VersionTooHigh (dep_name dep) (default_to "" max_version)
                       loaded_version)
          else check_plugin_dependencies versions rest
      end
  end.

Record load_state : Type := mk_load_state {
  registry : list registered_plugin;
  versions : gmap string string;
  loaded : gset string;
  load_trace : list event
}.

Definition find_entry (entries : list dir_entry) (plugin_name : string)
  : option dir_entry :=
  List.find (fun e => String.eqb (entry_name e) plugin_name) entries.

(** The [for dep in dependencies] loop of [load_plugin]. *)
Fixpoint load_dependencies
    (rec : string -> load_state -> option (bool * load_state))
    (deps : list dependency) (st : load_state) : option (bool * load_state) :=
  match deps with
  | [] => Some (true, st)
  | dep :: rest =>
      if bool_decide (dep_name dep ∉ loaded st) then
        match rec (dep_name dep) st with
        | None => None
        | Some (false, st') => Some (false, st')
        | Some (true, st') => load_dependencies rec rest st'
        end
      else load_dependencies rec rest st
  end.

(** Import of the core file, handler lookup and registration. *)
Definition load_core (entries : list dir_entry) (plugin_name : string)
    (pm : plugin_meta) (st : load_state) : bool * load_state :=
  match find_entry entries plugin_name with
  | None => (false, st)
  | Some e =>
      match core_py e with
      | None => (false, st)
      | Some outcome =>
          let st := mk_load_state (registry st) (versions st) (loaded st)
                      (load_trace st ++ [ExecCore plugin_name]) in
          match outcome with
          | ImportFails _ => (false, st)
          | Imported module =>
              match module_getattr module (handler pm) with
              | None => (false, st)
              | Some NotCallable => (false, st)
              | Some (Callable handler_func) =>
                  (true,
                   mk_load_state
                     (registry st ++ [mk_registered_plugin pm handler_func module])
                     (<[plugin_name := version pm]> (versions st))
                     ({[plugin_name]} ∪ loaded st)
                     (load_trace st))
              end
          end
      end
  end.

(** The nested function [load_plugin]; [None] stands for an exhausted
    recursion budget. *)
Fixpoint load_plugin (metas : Dict.t plugin_meta) (entries : list dir_entry)
    (fuel : nat) (plugin_name : string) (st : load_state)
  : option (bool * load_state) :=
  match fuel with
  | O => None
  | S fuel' =>
      if bool_decide (plugin_name ∈ loaded st) then Some (true, st)
      else
        match Dict.get metas plugin_name with
        | None => Some (false, st)
        | Some pm =>
            match load_dependencies (load_plugin metas entries fuel')
                    (dependencies pm) st with
            | None => None
            | Some (false, st') => Some (false, st')
            | Some (true, st') =>
                match check_plugin_dependencies (versions st') (dependencies pm) with
                | Some _ => Some (false, st')
                | None => Some (load_core entries plugin_name pm st')
                end
            end
        end
  end.

(** The final loop [for plugin_name in plugins_meta]. *)
Fixpoint load_all (metas : Dict.t plugin_meta) (entries : list dir_entry)
    (names : list string) (st : load_state) : option load_state :=
  match names with
  | [] => Some st
  | plugin_name :: rest =>
      if bool_decide (plugin_name ∉ loaded st) then
        match load_plugin metas entries (S (length metas)) plugin_name st with
        | None => None
        | Some (_, st') => load_all metas entries rest st'
        end
      else load_all metas entries rest st
  end.

Definition load_plugins_by_dependency (metas : Dict.t plugin_meta)
    (entries : list dir_entry) (st : load_state) : option load_state :=
  load_all metas entries (Dict.keys metas) st.

(** ** [init] *)

Definition listing (fs : file_system) (plugin_dir : string) : list dir_entry :=
  match fs plugin_dir with Some entries => entries | None => [] end.

(** [PluginManager.init(plugin_dir)].  [None] would mean that a recursion
    budget ran out; it does not happen ([init_returns]). *)
Definition init (fs : file_system) (plugin_dir : string) (st : state)
  : option state :=
  if initialized st then Some st
  else
    let scanned := scan_plugins_metadata fs plugin_dir [] (trace st) in
    match DepGraph.detect_cycles (scan_graph scanned) (error_log st) with
    | None => None
    | Some (true, errs) =>
        Some (mk_state false [] ∅ (scan_graph scanned) errs (scan_trace scanned))
    | Some (false, errs) =>
        match load_plugins_by_dependency (plugins_meta scanned)
                (listing fs plugin_dir)
                (mk_load_state [] ∅ ∅ (scan_trace scanned)) with
        | None => None
        | Some ld =>
            Some (mk_state true (registry ld) (versions ld)
                    (scan_graph scanned) errs (load_trace ld))
        end
    end.

(** ** [get_matched_plugin] *)

(** The four filters, in the order of the source. *)
Definition scene_ok (plugin : plugin_meta) (chat_type_ : string) : bool :=
  bool_decide (chat_type_ ∈ chat_type plugin).

Definition permission_ok (plugin : plugin_meta) (sender_id : string) : bool :=
  negb (String.eqb (permission plugin) "master" &&
        negb (String.eqb sender_id MASTER_QQ)).

Definition at_ok (plugin : plugin_meta) (chat_type_ : string)
    (is_at_bot : bool) : bool :=
  negb (String.eqb chat_type_ "group" && is_at_required plugin && negb is_at_bot).

Definition matched_cmd (plugin : plugin_meta) (raw_msg : string) : list string :=
  List.filter (fun cmd => Str.contains cmd raw_msg) (commands plugin).

Fixpoint get_matched_plugin (registry_ : list registered_plugin)
    (raw_msg chat_type_ sender_id : string) (is_at_bot : bool)
  : option registered_plugin :=
  match registry_ with
  | [] => None
  | plugin :: rest =>
      if negb (scene_ok (meta plugin) chat_type_) then
        get_matched_plugin rest raw_msg chat_type_ sender_id is_at_bot
      else if negb (permission_ok (meta plugin) sender_id) then
        get_matched_plugin rest raw_msg chat_type_ sender_id is_at_bot
      else if negb (at_ok (meta plugin) chat_type_ is_at_bot) then
        get_matched_plugin rest raw_msg chat_type_ sender_id is_at_bot
      else
        match matched_cmd (meta plugin) raw_msg with
        | _ :: _ => Some plugin
        | [] => get_matched_plugin rest raw_msg chat_type_ sender_id is_at_bot
        end
  end.

(** ** [reload_plugin] *)

(** The first loop of [reload_plugin]: the path of the first registered
    plugin with that name. *)
Fixpoint find_plugin_path (registry_ : list registered_plugin)
    (plugin_name : string) : option string :=
  match registry_ with
  | [] => None
  | plugin :: rest =>
      if String.eqb (name (meta plugin)) plugin_name
      then Some (plugin_path (meta plugin))
      else find_plugin_path rest plugin_name
  end.

(** Scope of a name inside [reload_plugin], by Python's rule: a name that
    is bound somewhere in the function body (assignment, [for] target,
    [except ... as]) and not declared [global] is local to the whole
    body.  The body binds [plugin_path] (line 443), [plugin] (444),
    [PLUGIN_REGISTRY] (456) and [e] (471), and has no [global]
    statement. *)
Definition reload_bound_names : list string :=
  ["plugin_path"; "plugin"; "PLUGIN_REGISTRY"; "e"].

Definition reload_global_declarations : list string := [].

Definition reload_local (var : string) : bool :=
  bool_decide (var ∈ reload_bound_names) &&
  negb (bool_decide (var ∈ reload_global_declarations)).

(** Reading [PLUGIN_REGISTRY] inside [reload_plugin]; [binding] is the
    value of the local variable, if it has one yet. *)
Definition read_registry (binding : option (list registered_plugin))
    (st : state) : Py.result (list registered_plugin) :=
  if reload_local "PLUGIN_REGISTRY" then
    match binding with
    | Some registry_ => Py.Returned registry_
    | None => Py.Raised (Py.UnboundLocalError "PLUGIN_REGISTRY")
    end
  else Py.Returned (PLUGIN_REGISTRY st).

(** [reload_plugin(plugin_name)].  The loop of lines 444-447 is the first
    statement that reads [PLUGIN_REGISTRY]; it stands before the [try],
    and nothing has bound the name by then. *)
Definition reload_plugin (fs : file_system) (plugin_name : string)
    (st : state) : Py.result (bool * state) :=
  let binding : option (list registered_plugin) := None in
  match read_registry binding st with
  | Py.Raised e => Py.Raised e
  | Py.Returned registry_ =>
      match find_plugin_path registry_ plugin_name with
      | None => Py.Returned (false, st)
      | Some "" => Py.Returned (false, st)
      | Some path =>
          match read_registry binding st with
          | Py.Raised e => Py.Returned (false, st)
          | Py.Returned registry_ =>
              let versions_ := delete plugin_name (LOADED_PLUGIN_VERSIONS st) in
              let st := mk_state false (PLUGIN_REGISTRY st) versions_
                          (DEPENDENCY_GRAPH st) (error_log st) (trace st) in
              match init fs (Str.dirname path) st with
              | Some st' => Py.Returned (true, st')
              | None => Py.Returned (false, st)
              end
          end
      end
  end.

(** ** Command matching *)

(** The four conditions of the specification, for one plugin. *)
Definition passes (plugin : plugin_meta) (raw_msg chat_type_ sender_id : string)
    (is_at_bot : bool) : Prop :=
  chat_type_ ∈ chat_type plugin /\
  (permission plugin = "master" -> sender_id = MASTER_QQ) /\
  (chat_type_ = "group" -> is_at_required plugin = true -> is_at_bot = true) /\
  exists cmd, cmd ∈ commands plugin /\
              exists pre post, raw_msg = pre +:+ cmd +:+ post.

Lemma matched_cmd_nonempty (plugin : plugin_meta) (raw_msg : string) :
  matched_cmd plugin raw_msg <> [] <->
  exists cmd, cmd ∈ commands plugin /\
              exists pre post, raw_msg = pre +:+ cmd +:+ post.
Proof.
  unfold matched_cmd. split.
  - intros H. destruct (List.filter _ _) as [|cmd l] eqn:E; [congruence|].
    assert (Hin : In cmd (List.filter (fun cmd => Str.contains cmd raw_msg)
                            (commands plugin))) by (rewrite E; now left).
    apply filter_In in Hin as [Hin Hc]. exists cmd. split.
    + now apply list_elem_of_In.
    + now apply Str.contains_spec.
  - intros (cmd & Hin & Hsub) E.
    assert (Hf : In cmd (List.filter (fun cmd => Str.contains cmd raw_msg)
                           (commands plugin))).
    { apply filter_In. split; [now apply list_elem_of_In|].
      now apply Str.contains_spec. }
    rewrite E in Hf. exact Hf.
Qed.

Lemma filters_pass (plugin : plugin_meta) (raw_msg chat_type_ sender_id : string)
    (is_at_bot : bool) :
  (scene_ok plugin chat_type_ = true /\
   permission_ok plugin sender_id = true /\
   at_ok plugin chat_type_ is_at_bot = true /\
   matched_cmd plugin raw_msg <> []) <->
  passes plugin raw_msg chat_type_ sender_id is_at_bot.
Proof.
  unfold passes, scene_ok, permission_ok, at_ok.
  rewrite bool_decide_eq_true, !negb_true_iff, !andb_false_iff,
    !negb_false_iff, matched_cmd_nonempty.
  destruct (String.eqb_spec (permission plugin) "master") as [Hp|Hp];
    destruct (String.eqb_spec sender_id MASTER_QQ) as [Hs|Hs];
    destruct (String.eqb_spec chat_type_ "group") as [Hg|Hg];
    destruct (is_at_required plugin); destruct is_at_bot;
    intuition congruence.
Qed.

Lemma get_matched_plugin_spec (registry_ : list registered_plugin)
    (raw_msg chat_type_ sender_id : string) (is_at_bot : bool) :
  match get_matched_plugin registry_ raw_msg chat_type_ sender_id is_at_bot with
  | Some plugin =>
      exists before after,
        registry_ = before ++ plugin :: after /\
        passes (meta plugin) raw_msg chat_type_ sender_id is_at_bot /\
        forall q, q ∈ before ->
                  ~ passes (meta q) raw_msg chat_type_ sender_id is_at_bot
  | None =>
      forall q, q ∈ registry_ ->
                ~ passes (meta q) raw_msg chat_type_ sender_id is_at_bot
  end.
Proof.
  induction registry_ as [|plugin rest IH]; cbn [get_matched_plugin].
  - intros q Hq. inversion Hq.
  - pose proof (filters_pass (meta plugin) raw_msg chat_type_ sender_id
                  is_at_bot) as Hf.
    assert (Hskip :
      ~ passes (meta plugin) raw_msg chat_type_ sender_id is_at_bot ->
      match get_matched_plugin rest raw_msg chat_type_ sender_id is_at_bot with
      | Some p =>
          exists before after,
            plugin :: rest = before ++ p :: after /\
            passes (meta p) raw_msg chat_type_ sender_id is_at_bot /\
            forall q, q ∈ before ->
                      ~ passes (meta q) raw_msg chat_type_ sender_id is_at_bot
      | None =>
          forall q, q ∈ plugin :: rest ->
                    ~ passes (meta q) raw_msg chat_type_ sender_id is_at_bot
      end).
    { intros Hno.
      destruct (get_matched_plugin rest raw_msg chat_type_ sender_id is_at_bot)
        as [p|].
      - destruct IH as (before & after & -> & Hp & Hbefore).
        exists (plugin :: before), after. split_and!; [reflexivity|exact Hp|].
        intros q Hq. apply elem_of_cons in Hq as [->|Hq]; auto.
      - intros q Hq. apply elem_of_cons in Hq as [->|Hq]; auto. }
    destruct (scene_ok (meta plugin) chat_type_) eqn:E1; cbn [negb];
      [|apply Hskip; intros Hp; apply Hf in Hp; intuition congruence].
    destruct (permission_ok (meta plugin) sender_id) eqn:E2; cbn [negb];
      [|apply Hskip; intros Hp; apply Hf in Hp; intuition congruence].
    destruct (at_ok (meta plugin) chat_type_ is_at_bot) eqn:E3; cbn [negb];
      [|apply Hskip; intros Hp; apply Hf in Hp; intuition congruence].
    destruct (matched_cmd (meta plugin) raw_msg) as [|cmd l] eqn:E4;
      [apply Hskip; intros Hp; apply Hf in Hp; intuition congruence|].
    exists [], rest. split_and!; [reflexivity| |intros q Hq; inversion Hq].
    apply Hf. split_and!; [reflexivity | reflexivity | reflexivity | discriminate].
Qed.

(** C5: [get_matched_plugin] scans the registry in registration order
    and returns the first plugin that passes the four filters (chat scope
    declared; master-only plugins for the master only; a required mention
    present in group chats; some trigger is a case-sensitive substring of
    the message), and [None] when no plugin passes; a master-only plugin
    is never returned for a caller other than the master. *)
Theorem get_matched_plugin_first_match :
  forall (registry_ : list registered_plugin)
         (raw_msg chat_type_ sender_id : string) (is_at_bot : bool),
    match get_matched_plugin registry_ raw_msg chat_type_ sender_id is_at_bot with
    | Some plugin =>
        (exists before after,
           registry_ = before ++ plugin :: after /\
           passes (meta plugin) raw_msg chat_type_ sender_id is_at_bot /\
           forall q, q ∈ before ->
                     ~ passes (meta q) raw_msg chat_type_ sender_id is_at_bot) /\
        (permission (meta plugin) = "master" -> sender_id = MASTER_QQ)
    | None =>
        forall q, q ∈ registry_ ->
                  ~ passes (meta q) raw_msg chat_type_ sender_id is_at_bot
    end.
Proof.
  intros registry_ raw_msg chat_type_ sender_id is_at_bot.
  pose proof (get_matched_plugin_spec registry_ raw_msg chat_type_ sender_id
                is_at_bot) as H.
  destruct (get_matched_plugin registry_ raw_msg chat_type_ sender_id is_at_bot)
    as [plugin|]; [|exact H].
  split; [exact H|].
  destruct H as (_ & _ & _ & (_ & Hperm & _) & _). exact Hperm.
Qed.

(** ** Phase 1, one directory at a time *)

(** What one directory contributes to [plugins_meta]. *)
Definition collected (plugin_dir : string) (e : dir_entry) : option plugin_meta :=
  if entry_is_dir e then
    match fst (collect_meta e) with
    | Some m => validate_meta m (Str.path_join plugin_dir (entry_name e))
    | None => None
    end
  else None.

(** The plugin code that Phase 1 runs for one directory. *)
Definition phase1_events (e : dir_entry) : list event :=
  if entry_is_dir e then snd (collect_meta e) else [].

Lemma scan_entry_unfold (plugin_dir : string) (e : dir_entry) (st : scan_state) :
  scan_entry plugin_dir e st =
  let st' := mk_scan_state (plugins_meta st) (scan_graph st)
               (scan_trace st ++ phase1_events e) in
  match collected plugin_dir e with
  | Some pm => store_meta (entry_name e) pm st'
  | None => st'
  end.
Proof.
  unfold scan_entry, collected, phase1_events. cbv zeta.
  destruct st as [metas g tr].
  destruct (entry_is_dir e); cbn [negb]; [|now rewrite app_nil_r].
  unfold collect_meta. cbv zeta.
  destruct (adapter_json e) as [file|]; destruct (init_py e) as [o|];
    cbn [fst snd plugins_meta scan_graph scan_trace];
    try destruct (read_adapter file (entry_name e));
    try destruct o as [[m|]|]; cbn [fst snd];
    rewrite ?app_nil_r; reflexivity.
Qed.

(** The metadata and the graph after a scan do not depend on the trace. *)
Lemma scan_entries_data (plugin_dir : string) (entries : list dir_entry) :
  forall st1 st2,
    plugins_meta st1 = plugins_meta st2 -> scan_graph st1 = scan_graph st2 ->
    plugins_meta (scan_entries plugin_dir entries st1) =
      plugins_meta (scan_entries plugin_dir entries st2) /\
    scan_graph (scan_entries plugin_dir entries st1) =
      scan_graph (scan_entries plugin_dir entries st2).
Proof.
  induction entries as [|e rest IH]; intros st1 st2 Hm Hg; [now split|].
  cbn [scan_entries]. apply IH; rewrite !scan_entry_unfold; cbv zeta;
    destruct (collected plugin_dir e);
    cbn [store_meta plugins_meta scan_graph]; congruence.
Qed.

Lemma scan_entries_app (plugin_dir : string) (l1 l2 : list dir_entry)
    (st : scan_state) :
  scan_entries plugin_dir (l1 ++ l2) st =
  scan_entries plugin_dir l2 (scan_entries plugin_dir l1 st).
Proof.
  revert st. induction l1 as [|e l1 IH]; intros st; [reflexivity|].
  cbn [app scan_entries]. apply IH.
Qed.

Lemma scan_entries_trace (plugin_dir : string) (entries : list dir_entry) :
  forall st,
    scan_trace (scan_entries plugin_dir entries st) =
    scan_trace st ++ concat (map phase1_events entries).
Proof.
  induction entries as [|e rest IH]; intros st; cbn [scan_entries map concat].
  - now rewrite app_nil_r.
  - rewrite IH, scan_entry_unfold. cbv zeta.
    destruct (collected plugin_dir e);
      cbn [store_meta scan_trace]; now rewrite app_assoc.
Qed.

(** [adapter.json] is absent, or reading it raised. *)
Definition adapter_unread (e : dir_entry) : Prop :=
  match adapter_json e with
  | None => True
  | Some file => forall m, read_adapter file (entry_name e) <> Py.Returned m
  end.

Lemma phase1_events_unread (e : dir_entry) :
  entry_is_dir e = true -> adapter_unread e ->
  phase1_events e =
  match init_py e with
  | Some _ => [ExecInit (entry_name e)]
  | None => []
  end.
Proof.
  intros Hd Hu. unfold phase1_events, collect_meta, adapter_unread in *.
  rewrite Hd. cbv zeta. destruct (adapter_json e) as [file|].
  - destruct (read_adapter file (entry_name e)) as [m|x];
      [now destruct (Hu m)|]. now destruct (init_py e).
  - now destruct (init_py e).
Qed.

Lemma collected_from_init (plugin_dir : string) (e : dir_entry) (m : raw_meta) :
  entry_is_dir e = true -> adapter_unread e ->
  init_py e = Some (Imported (Some m)) ->
  collected plugin_dir e =
  validate_meta m (Str.path_join plugin_dir (entry_name e)).
Proof.
  intros Hd Hu Hi. unfold collected, collect_meta, adapter_unread in *.
  rewrite Hd, Hi. cbv zeta. destruct (adapter_json e) as [file|]; [|reflexivity].
  destruct (read_adapter file (entry_name e)) as [m'|x];
    [now destruct (Hu m')|reflexivity].
Qed.

(** As the module stands the descriptor is never read: [json] is not one
    of its names, so evaluating [json.load] raises [NameError]. *)
Lemma read_adapter_raises (file : adapter_file) (plugin_name : string) :
  exists e, read_adapter file plugin_name = Py.Raised e.
Proof. destruct file; cbn; eauto. Qed.

Lemma adapter_json_is_never_read (e : dir_entry) : adapter_unread e.
Proof.
  unfold adapter_unread. destruct (adapter_json e) as [file|]; [|exact I].
  intros m. destruct (read_adapter_raises file (entry_name e)) as [x ->].
  discriminate.
Qed.

Lemma validate_meta_defaults (m : raw_meta) (path : string) (pm : plugin_meta) :
  validate_meta m path = Some pm ->
  raw_name m = Some (name pm) /\ raw_commands m = Some (commands pm) /\
  raw_handler m = Some (handler pm) /\ raw_chat_type m = Some (chat_type pm) /\
  raw_permission m = Some (permission pm) /\
  version pm = default_to "1.0.0" (raw_version m) /\
  dependencies pm = default_to [] (raw_dependencies m) /\
  plugin_path pm = path.
Proof.
  unfold validate_meta.
  destruct (raw_name m), (raw_commands m), (raw_handler m), (raw_chat_type m),
    (raw_permission m); try discriminate.
  intros [= <-]. cbn. now split_and!.
Qed.

Lemma scan_entries_skip (plugin_dir : string) (before after : list dir_entry)
    (bad : dir_entry) (st : scan_state) :
  collected plugin_dir bad = None ->
  plugins_meta (scan_entries plugin_dir (before ++ bad :: after) st) =
    plugins_meta (scan_entries plugin_dir (before ++ after) st) /\
  scan_graph (scan_entries plugin_dir (before ++ bad :: after) st) =
    scan_graph (scan_entries plugin_dir (before ++ after) st).
Proof.
  intros Hbad. rewrite !scan_entries_app. cbn [scan_entries].
  apply scan_entries_data; rewrite scan_entry_unfold, Hbad; reflexivity.
Qed.

(** C4 (as the code behaves): for every plugin directory whose
    [adapter.json] is absent or was not read, Phase 1 imports the
    directory's [__init__.py], running that plugin code, to read
    [PLUGIN_META] (the required keys are checked, [version] defaults to
    "1.0.0" and [dependencies] to the empty list); these imports, one per
    such directory and in directory order, are all that the loader itself
    executes in Phase 1 (it imports no core module there; what an
    [__init__.py] imports in turn runs as part of its import); and a
    directory from which no metadata is collected leaves the metadata and
    the dependency graph gathered for the rest of the batch as they would
    be without it. *)
Theorem phase1_collects_per_directory :
  (forall e, entry_is_dir e = true -> adapter_unread e ->
             phase1_events e =
             match init_py e with
             | Some _ => [ExecInit (entry_name e)]
             | None => []
             end) /\
  (forall e, entry_is_dir e = false -> phase1_events e = []) /\
  (forall plugin_dir e m,
      entry_is_dir e = true -> adapter_unread e ->
      init_py e = Some (Imported (Some m)) ->
      collected plugin_dir e =
        validate_meta m (Str.path_join plugin_dir (entry_name e)) /\
      forall pm, collected plugin_dir e = Some pm ->
        raw_name m = Some (name pm) /\ raw_commands m = Some (commands pm) /\
        raw_handler m = Some (handler pm) /\
        raw_chat_type m = Some (chat_type pm) /\
        raw_permission m = Some (permission pm) /\
        version pm = default_to "1.0.0" (raw_version m) /\
        dependencies pm = default_to [] (raw_dependencies m)) /\
  (forall (fs : file_system) plugin_dir entries graph events,
      fs plugin_dir = Some entries ->
      scan_trace (scan_plugins_metadata fs plugin_dir graph events) =
      events ++ concat (map phase1_events entries)) /\
  (forall (fs fs' : file_system) plugin_dir before bad after graph events,
      fs plugin_dir = Some (before ++ bad :: after) ->
      fs' plugin_dir = Some (before ++ after) ->
      collected plugin_dir bad = None ->
      plugins_meta (scan_plugins_metadata fs plugin_dir graph events) =
        plugins_meta (scan_plugins_metadata fs' plugin_dir graph events) /\
      scan_graph (scan_plugins_metadata fs plugin_dir graph events) =
        scan_graph (scan_plugins_metadata fs' plugin_dir graph events)).
Proof.
  split_and!.
  - apply phase1_events_unread.
  - intros e Hd. unfold phase1_events. now rewrite Hd.
  - intros plugin_dir e m Hd Hu Hi.
    pose proof (collected_from_init plugin_dir e m Hd Hu Hi) as Hc.
    split; [exact Hc|]. intros pm Hpm. rewrite Hc in Hpm.
    apply validate_meta_defaults in Hpm. tauto.
  - intros fs plugin_dir entries graph events Hfs.
    unfold scan_plugins_metadata. rewrite Hfs. apply scan_entries_trace.
  - intros fs fs' plugin_dir before bad after graph events Hfs Hfs' Hbad.
    unfold scan_plugins_metadata. rewrite Hfs, Hfs'.
    now apply scan_entries_skip.
Qed.

(** ** [init] on a cyclic batch *)

(** C1 (as the code behaves): when the dependency graph of the scanned
    batch contains a cycle, [init] logs the rendered cycle and the
    failure note and returns at once: no plugin of the batch is loaded,
    the registry and the table of loaded versions are empty, and the
    manager remains uninitialised. *)
Theorem init_cycle_aborts_batch (fs : file_system) (plugin_dir : string)
    (st : state) :
  initialized st = false ->
  DepGraph.has_cycle
    (scan_graph (scan_plugins_metadata fs plugin_dir [] (trace st))) ->
  exists st' c,
    init fs plugin_dir st = Some st' /\
    PLUGIN_REGISTRY st' = [] /\ LOADED_PLUGIN_VERSIONS st' = ∅ /\
    initialized st' = false /\
    DepGraph.is_cycle (DEPENDENCY_GRAPH st') c /\
    error_log st' =
      error_log st ++
      [DepGraph.cycle_message (Str.join " -> " (DepGraph.closed c));
       DepGraph.init_failed_message].
Proof.
  intros Hinit Hcyc. unfold init. rewrite Hinit.
  set (scanned := scan_plugins_metadata fs plugin_dir [] (trace st)) in *.
  destruct (DepGraph.detect_cycles_spec (scan_graph scanned) (error_log st))
    as (b & errs & -> & Hb).
  destruct b; [|now destruct Hb as (_ & Hno)].
  destruct Hb as (mid & (c & Hc & _ & ->) & ->).
  eexists _, c. split_and!; try reflexivity; [exact Hc|].
  cbn [error_log]. now rewrite <- app_assoc.
Qed.

(** ** [init] returns *)

(** The graph records, for every collected plugin, the names of its
    declared dependencies. *)
Definition graph_of_metas (metas : Dict.t plugin_meta) (G : DepGraph.graph) : Prop :=
  forall k pm, Dict.get metas k = Some pm ->
               Dict.get G k = Some (map dep_name (dependencies pm)).

Lemma scan_entries_graph (plugin_dir : string) (entries : list dir_entry) :
  forall st,
    graph_of_metas (plugins_meta st) (scan_graph st) ->
    graph_of_metas (plugins_meta (scan_entries plugin_dir entries st))
      (scan_graph (scan_entries plugin_dir entries st)).
Proof.
  induction entries as [|e rest IH]; intros st H; [exact H|].
  cbn [scan_entries]. apply IH. rewrite scan_entry_unfold. cbv zeta.
  destruct (collected plugin_dir e) as [pm|]; [|exact H].
  intros k pm'. cbn [store_meta plugins_meta scan_graph].
  rewrite !Dict.get_set. destruct (String.eqb (entry_name e) k).
  - now intros [= <-].
  - apply H.
Qed.

Lemma load_dependencies_returns
    (rec : string -> load_state -> option (bool * load_state))
    (deps : list dependency) :
  (forall d st, d ∈ map dep_name deps -> exists r, rec d st = Some r) ->
  forall st, exists r, load_dependencies rec deps st = Some r.
Proof.
  induction deps as [|dep rest IH]; intros Hrec st; cbn [load_dependencies].
  - eauto.
  - assert (Hrest : forall d st, d ∈ map dep_name rest ->
                                 exists r, rec d st = Some r).
    { intros d st' Hd. apply Hrec. cbn. apply elem_of_cons. now right. }
    case_bool_decide; [|now apply IH].
    destruct (Hrec (dep_name dep) st) as [[[] st'] ->].
    { cbn. apply elem_of_cons. now left. }
    + now apply IH.
    + eauto.
Qed.

Lemma load_plugin_returns (metas : Dict.t plugin_meta) (G : DepGraph.graph)
    (entries : list dir_entry) :
  graph_of_metas metas G -> ~ DepGraph.has_cycle G ->
  forall fuel stack plugin_name st,
    NoDup stack -> (forall x, x ∈ stack -> x ∈ Dict.keys metas) ->
    DepGraph.chain G (stack ++ [plugin_name]) ->
    length (Dict.keys metas) < fuel + length stack ->
    exists r, load_plugin metas entries fuel plugin_name st = Some r.
Proof.
  intros Hok Hacyc. induction fuel as [|fuel IH];
    intros stack plugin_name st Hnd Hsub Hchain Hlen.
  - exfalso. cbn in Hlen.
    assert (length stack <= length (Dict.keys metas)); [|lia].
    apply submseteq_length, NoDup_submseteq; [exact Hnd|exact Hsub].
  - cbn [load_plugin]. case_bool_decide; [eauto|].
    destruct (Dict.get metas plugin_name) as [pm|] eqn:Hget; [|eauto].
    assert (Hfresh : plugin_name ∉ stack).
    { intros Hin. apply Hacyc. apply list_elem_of_split in Hin as (l1 & l2 & ->).
      exists (plugin_name :: l2). cbn [DepGraph.is_cycle].
      rewrite <- app_assoc in Hchain.
      apply (DepGraph.chain_drop G (length l1)) in Hchain.
      now rewrite drop_app_length in Hchain. }
    destruct (load_dependencies_returns
                (load_plugin metas entries fuel) (dependencies pm)) with (st := st)
      as [[[] st'] ->].
    + intros d st' Hd. apply (IH (stack ++ [plugin_name])).
      * apply NoDup_app. split_and!; [exact Hnd| |apply NoDup_singleton].
        intros x Hx Hx'. apply list_elem_of_singleton in Hx' as ->. auto.
      * intros x Hx. apply elem_of_app in Hx as [Hx|Hx]; [now apply Hsub|].
        apply list_elem_of_singleton in Hx as ->.
        apply list_elem_of_In. now apply Dict.get_some_key with pm.
      * apply DepGraph.chain_snoc; [exact Hchain|].
        intros x Hx. rewrite last_snoc in Hx. injection Hx as <-.
        unfold DepGraph.edge, DepGraph.succs. now rewrite (Hok _ _ Hget).
      * rewrite length_app. cbn. lia.
    + destruct (check_plugin_dependencies _ _); eauto.
    + eauto.
Qed.

Lemma load_all_returns (metas : Dict.t plugin_meta) (G : DepGraph.graph)
    (entries : list dir_entry) :
  graph_of_metas metas G -> ~ DepGraph.has_cycle G ->
  forall names st, exists st', load_all metas entries names st = Some st'.
Proof.
  intros Hok Hacyc. induction names as [|n rest IH]; intros st; cbn [load_all].
  - eauto.
  - case_bool_decide; [|apply IH].
    destruct (load_plugin_returns metas G entries Hok Hacyc
                (S (length metas)) [] n st) as [[b st'] ->].
    + constructor.
    + intros x Hx. inversion Hx.
    + exact I.
    + unfold Dict.keys. rewrite length_map. cbn. lia.
    + apply IH.
Qed.

(** [init] returns for every plugin directory: neither recursion budget
    runs out. *)
Lemma init_returns (fs : file_system) (plugin_dir : string) (st : state) :
  exists st', init fs plugin_dir st = Some st'.
Proof.
  unfold init. destruct (initialized st); [eauto|].
  set (scanned := scan_plugins_metadata fs plugin_dir [] (trace st)).
  destruct (DepGraph.detect_cycles_spec (scan_graph scanned) (error_log st))
    as (b & errs & -> & Hb).
  destruct b; [eauto|]. destruct Hb as (_ & Hacyc).
  assert (Hok : graph_of_metas (plugins_meta scanned) (scan_graph scanned)).
  { unfold scanned, scan_plugins_metadata.
    destruct (fs plugin_dir) as [entries|].
    - apply scan_entries_graph. intros k pm. discriminate.
    - intros k pm. discriminate. }
  unfold load_plugins_by_dependency.
  destruct (load_all_returns _ _ (listing fs plugin_dir) Hok Hacyc
              (Dict.keys (plugins_meta scanned))
              (mk_load_state [] ∅ ∅ (scan_trace scanned))) as [ld ->].
  eauto.
Qed.

(** ** Reload *)

(** C3 (as the code behaves): [reload_plugin] raises [UnboundLocalError]
    for every plugin name and every state, before its [try] block is
    entered; it never returns a boolean. *)
Theorem reload_plugin_raises (fs : file_system) (plugin_name : string)
    (st : state) :
  reload_plugin fs plugin_name st =
  Py.Raised (Py.UnboundLocalError "PLUGIN_REGISTRY").
Proof.
  unfold reload_plugin, read_registry. cbv zeta.
  assert (Hlocal : reload_local "PLUGIN_REGISTRY" = true) by now vm_compute.
  now rewrite Hlocal.
Qed.

(** ** Dependency checks *)

(** The loaded version of [dep] lies within its declared bounds. *)
Definition satisfies (versions_ : gmap string string) (dep : dependency) : Prop :=
  exists loaded_version,
    versions_ !! dep_name dep = Some loaded_version /\
    (Version.compare_versions loaded_version
       (default_to "0.0.0" (dep_min_version dep)) >= 0)%Z /\
    (Py.truthy_opt_str (dep_max_version dep) = true ->
     (Version.compare_versions loaded_version
        (default_to "" (dep_max_version dep)) <= 0)%Z).

Lemma check_plugin_dependencies_cons (versions_ : gmap string string)
    (dep : dependency) (rest : list dependency) :
  check_plugin_dependencies versions_ (dep :: rest) = None <->
  satisfies versions_ dep /\ check_plugin_dependencies versions_ rest = None.
Proof.
  cbn [check_plugin_dependencies]. cbv zeta. unfold satisfies.
  destruct (versions_ !! dep_name dep) as [v|].
  - destruct (Z.ltb_spec (Version.compare_versions v
                            (default_to "0.0.0" (dep_min_version dep))) 0).
    + split; [discriminate|]. intros [(v' & [= <-] & Hmin & _) _]. lia.
    + destruct (Py.truthy_opt_str (dep_max_version dep)); cbn [andb].
      * destruct (Z.gtb_spec (Version.compare_versions v
                                (default_to "" (dep_max_version dep))) 0).
        -- split; [discriminate|].
           intros [(v' & [= <-] & _ & Hmax) _]. specialize (Hmax eq_refl). lia.
        -- split.
           ++ intros Hrest. split; [|exact Hrest]. exists v.
              split_and!; [reflexivity|lia|intros _; lia].
           ++ now intros [_ Hrest].
      * split.
        -- intros Hrest. split; [|exact Hrest]. exists v.
           split_and!; [reflexivity|lia|discriminate].
        -- now intros [_ Hrest].
  - split; [discriminate|]. intros [(v' & Hv & _) _]. discriminate.
Qed.

(** X3: [check_plugin_dependencies] accepts a dependency list exactly when
    every listed plugin is loaded with a version not below the declared
    minimum (default "0.0.0") and, when a non-empty maximum is declared,
    not above it. *)
Theorem check_plugin_dependencies_ok (versions_ : gmap string string)
    (deps : list dependency) :
  check_plugin_dependencies versions_ deps = None <->
  Forall (satisfies versions_) deps.
Proof.
  induction deps as [|dep rest IH].
  - split; [constructor|reflexivity].
  - rewrite check_plugin_dependencies_cons, IH. split.
    + intros [H1 H2]. now constructor.
    + intros H. inversion H; subst. now split.
Qed.

(** X4: a dependency that declares no minimum and no (or an empty)
    maximum version is satisfied exactly when the named plugin is loaded,
    whatever its version string. *)
Theorem unbounded_dependency (versions_ : gmap string string) (dep : dependency) :
  dep_min_version dep = None ->
  Py.truthy_opt_str (dep_max_version dep) = false ->
  (check_plugin_dependencies versions_ [dep] = None <->
   is_Some (versions_ !! dep_name dep)).
Proof.
  intros Hmin Hmax. rewrite check_plugin_dependencies_cons. unfold satisfies.
  rewrite Hmin, Hmax. cbn [default_to check_plugin_dependencies]. split.
  - intros [(v & Hv & _) _]. now exists v.
  - intros [v Hv]. split; [|reflexivity]. exists v.
    split_and!; [exact Hv| |discriminate].
    assert (Hz : Version.compare_versions "0.0.0" v <> 1%Z).
    { intros Hgt. apply Version.compare_versions_gt in Hgt as (k & _ & Hlt).
      rewrite (Version.component_overflow_zero "0.0.0") in Hlt by reflexivity.
      pose proof (Version.component_nonneg v k). lia. }
    rewrite (Version.compare_versions_opp v "0.0.0").
    destruct (Version.compare_versions_range "0.0.0" v) as [E|[E|E]];
      rewrite ?E in *; lia.
Qed.

(** ** What [init] leaves behind *)

(** Every recorded version is the declared version of a scanned plugin. *)
Definition versions_from (metas : Dict.t plugin_meta)
    (versions_ : gmap string string) : Prop :=
  forall k v, versions_ !! k = Some v ->
              exists pm, Dict.get metas k = Some pm /\ v = version pm.

Definition load_inv (metas : Dict.t plugin_meta) (st : load_state) : Prop :=
  (forall p, p ∈ registry st ->
             check_plugin_dependencies (versions st) (dependencies (meta p)) = None) /\
  versions_from metas (versions st).

Lemma satisfies_insert (versions_ : gmap string string) (k v : string)
    (dep : dependency) :
  (versions_ !! k = None \/ versions_ !! k = Some v) ->
  satisfies versions_ dep -> satisfies (<[k := v]> versions_) dep.
Proof.
  intros Hk (lv & Hlv & Hmin & Hmax). exists lv. split; [|now split].
  destruct (decide (k = dep_name dep)) as [E|Hne].
  - rewrite <- E in Hlv |- *. rewrite (lookup_insert_eq versions_ k v).
    destruct Hk as [Hk|Hk]; congruence.
  - now rewrite (lookup_insert_ne versions_ k (dep_name dep) v Hne).
Qed.

Lemma check_insert (versions_ : gmap string string) (k v : string)
    (deps : list dependency) :
  (versions_ !! k = None \/ versions_ !! k = Some v) ->
  check_plugin_dependencies versions_ deps = None ->
  check_plugin_dependencies (<[k := v]> versions_) deps = None.
Proof.
  intros Hk. induction deps as [|dep rest IH]; [reflexivity|].
  rewrite !check_plugin_dependencies_cons. intros [H1 H2].
  split; [now apply satisfies_insert|now apply IH].
Qed.

Lemma load_core_inv (metas : Dict.t plugin_meta) (entries : list dir_entry)
    (plugin_name : string) (pm : plugin_meta) (st : load_state) :
  load_inv metas st -> Dict.get metas plugin_name = Some pm ->
  check_plugin_dependencies (versions st) (dependencies pm) = None ->
  load_inv metas (snd (load_core entries plugin_name pm st)).
Proof.
  intros [Hreg Hver] Hget Hcheck. unfold load_core.
  destruct (find_entry entries plugin_name) as [e|]; [|now split].
  destruct (core_py e) as [[module|reason]|]; try now split.
  destruct (module_getattr module (handler pm)) as [[h|]|]; try now split.
  assert (Hk : versions st !! plugin_name = None \/
               versions st !! plugin_name = Some (version pm)).
  { destruct (versions st !! plugin_name) as [v|] eqn:E; [right|now left].
    destruct (Hver _ _ E) as (pm' & Hget' & ->). congruence. }
  cbn [snd registry versions]. split.
  - intros p Hp. apply check_insert; [exact Hk|].
    apply elem_of_app in Hp as [Hp|Hp]; [now apply Hreg|].
    apply list_elem_of_singleton in Hp as ->. exact Hcheck.
  - intros k v. cbn [versions].
    destruct (decide (plugin_name = k)) as [<-|Hne].
    + rewrite (lookup_insert_eq (versions st) plugin_name (version pm)).
      intros [= <-]. now exists pm.
    + rewrite (lookup_insert_ne (versions st) plugin_name k (version pm) Hne).
      apply Hver.
Qed.

Lemma load_dependencies_inv (metas : Dict.t plugin_meta)
    (rec : string -> load_state -> option (bool * load_state))
    (deps : list dependency) :
  (forall d st b st', rec d st = Some (b, st') ->
                      load_inv metas st -> load_inv metas st') ->
  forall st b st',
    load_dependencies rec deps st = Some (b, st') ->
    load_inv metas st -> load_inv metas st'.
Proof.
  intros Hrec. induction deps as [|dep rest IH]; intros st b st' H Hinv;
    cbn [load_dependencies] in H.
  - now injection H as <- <-.
  - case_bool_decide; [|now apply IH in H].
    destruct (rec (dep_name dep) st) as [[[] st1]|] eqn:Hr; try discriminate.
    + apply IH in H; [exact H|]. now apply Hrec in Hr.
    + injection H as <- <-. now apply Hrec in Hr.
Qed.

Lemma load_plugin_inv (metas : Dict.t plugin_meta) (entries : list dir_entry)
    (fuel : nat) :
  forall plugin_name st b st',
    load_plugin metas entries fuel plugin_name st = Some (b, st') ->
    load_inv metas st -> load_inv metas st'.
Proof.
  induction fuel as [|fuel IH]; intros plugin_name st b st' H Hinv;
    [discriminate|]. cbn [load_plugin] in H.
  case_bool_decide; [now injection H as <- <-|].
  destruct (Dict.get metas plugin_name) as [pm|] eqn:Hget;
    [|now injection H as <- <-].
  destruct (load_dependencies _ _ st) as [[[] st1]|] eqn:Hdeps; try discriminate.
  - apply load_dependencies_inv with (metas := metas) in Hdeps; [|exact IH|exact Hinv].
    destruct (check_plugin_dependencies (versions st1) (dependencies pm)) eqn:Hc.
    + now injection H as <- <-.
    + injection H as H. pose proof (load_core_inv metas entries plugin_name pm st1
                                      Hdeps Hget Hc) as Hcore.
      now rewrite H in Hcore.
  - injection H as <- <-.
    now apply load_dependencies_inv with (metas := metas) in Hdeps.
Qed.

Lemma load_all_inv (metas : Dict.t plugin_meta) (entries : list dir_entry)
    (names : list string) :
  forall st st', load_all metas entries names st = Some st' ->
                 load_inv metas st -> load_inv metas st'.
Proof.
  induction names as [|n rest IH]; intros st st' H Hinv; cbn [load_all] in H.
  - now injection H as <-.
  - case_bool_decide; [|now apply IH in H].
    destruct (load_plugin _ _ _ n st) as [[b st1]|] eqn:Hl; [|discriminate].
    apply IH in H; [exact H|]. now apply load_plugin_inv in Hl.
Qed.

(** X5: [init] on a manager that is not yet initialised always returns
    (the dependency recursion is bounded, cycles having been excluded
    first); the manager ends initialised exactly when the scanned graph
    is acyclic; and in the resulting registry every plugin passes
    [check_plugin_dependencies] against the final table of loaded
    versions: all its declared dependencies are loaded within their
    version bounds. *)
Theorem init_result_is_consistent (fs : file_system) (plugin_dir : string)
    (st : state) :
  initialized st = false ->
  exists st',
    init fs plugin_dir st = Some st' /\
    (initialized st' = true <-> ~ DepGraph.has_cycle (DEPENDENCY_GRAPH st')) /\
    (forall p, p ∈ PLUGIN_REGISTRY st' ->
       check_plugin_dependencies (LOADED_PLUGIN_VERSIONS st')
         (dependencies (meta p)) = None).
Proof.
  intros Hinit. unfold init. rewrite Hinit.
  set (scanned := scan_plugins_metadata fs plugin_dir [] (trace st)).
  destruct (DepGraph.detect_cycles_spec (scan_graph scanned) (error_log st))
    as (b & errs & -> & Hb).
  destruct b.
  - destruct Hb as (mid & (c & Hc & _) & _).
    eexists. split; [reflexivity|]. cbn [initialized DEPENDENCY_GRAPH PLUGIN_REGISTRY].
    split; [|intros p Hp; inversion Hp].
    split; [discriminate|]. intros Hno. destruct Hno. now exists c.
  - destruct Hb as (_ & Hacyc).
    assert (Hok : graph_of_metas (plugins_meta scanned) (scan_graph scanned)).
    { unfold scanned, scan_plugins_metadata.
      destruct (fs plugin_dir) as [entries|].
      - apply scan_entries_graph. intros k pm. discriminate.
      - intros k pm. discriminate. }
    unfold load_plugins_by_dependency.
    destruct (load_all_returns _ _ (listing fs plugin_dir) Hok Hacyc
                (Dict.keys (plugins_meta scanned))
                (mk_load_state [] ∅ ∅ (scan_trace scanned))) as [ld Hld].
    rewrite Hld. eexists. split; [reflexivity|].
    cbn [initialized DEPENDENCY_GRAPH PLUGIN_REGISTRY LOADED_PLUGIN_VERSIONS].
    split; [tauto|].
    apply load_all_inv in Hld as [Hreg _].
    + exact Hreg.
    + split; [intros p Hp; inversion Hp|]. intros k v. cbn [versions].
      rewrite (lookup_empty (M := gmap string)). discriminate.
Qed.

(** ** Each directory is registered once *)








(** ** [get_plugin_metadata] and [get_all_plugins_metadata] *)

(** The dictionary that [get_plugin_metadata] builds. *)
Record metadata : Type := mk_metadata {
  md_name : string;
  md_version : string;
  md_commands : list string;
  md_chat_type : list string;
  md_permission : string;
  md_dependencies : list dependency;
  md_plugin_path : string
}.

Definition metadata_of (p : registered_plugin) : metadata :=
  mk_metadata (name (meta p)) (version (meta p)) (commands (meta p))
    (chat_type (meta p)) (permission (meta p)) (dependencies (meta p))
    (plugin_path (meta p)).

Definition get_plugin_metadata (registry_ : list registered_plugin)
    (plugin_name : string) : option metadata :=
  option_map metadata_of
    (List.find (fun p => String.eqb (name (meta p)) plugin_name) registry_).

Definition get_all_plugins_metadata (registry_ : list registered_plugin)
  : list (option metadata) :=
  map (fun p => get_plugin_metadata registry_ (name (meta p))) registry_.

Lemma find_by_name_some (registry_ : list registered_plugin)
    (p : registered_plugin) :
  p ∈ registry_ ->
  exists q, List.find (fun q => String.eqb (name (meta q)) (name (meta p)))
              registry_ = Some q /\
            name (meta q) = name (meta p) /\ q ∈ registry_.
Proof.
  induction registry_ as [|q l IH]; intros Hin; [inversion Hin|].
  cbn [List.find]. destruct (String.eqb_spec (name (meta q)) (name (meta p)))
    as [Heq|Hne].
  - exists q. split_and!; [reflexivity|exact Heq|constructor].
  - apply elem_of_cons in Hin as [->|Hin]; [congruence|].
    destruct (IH Hin) as (r & Hr & Hname & Hrl). exists r.
    split_and!; [exact Hr|exact Hname|now apply elem_of_cons; right].
Qed.

Lemma find_by_name_own (registry_ : list registered_plugin)
    (p : registered_plugin) :
  NoDup (map (fun q => name (meta q)) registry_) -> p ∈ registry_ ->
  List.find (fun q => String.eqb (name (meta q)) (name (meta p))) registry_
  = Some p.
Proof.
  induction registry_ as [|q l IH]; intros Hnd Hin; [inversion Hin|].
  cbn [map] in Hnd. apply NoDup_cons in Hnd as [Hq Hnd].
  cbn [List.find]. apply elem_of_cons in Hin as [->|Hin].
  - now rewrite String.eqb_refl.
  - destruct (String.eqb_spec (name (meta q)) (name (meta p))) as [Heq|Hne].
    + exfalso. apply Hq. rewrite Heq.
      apply (list_elem_of_fmap_2 (fun q => name (meta q))) in Hin. exact Hin.
    + now apply IH.
Qed.

(** X25: [get_all_plugins_metadata] answers with one record per
    registered plugin, in registry order, none of them [None], and the
    record at a plugin's position carries that plugin's name; it is the
    plugin's own metadata whenever the registered names are distinct
    (with a repeated name, the first plugin of that name is shown). *)
Theorem all_plugins_metadata (registry_ : list registered_plugin) :
  length (get_all_plugins_metadata registry_) = length registry_ /\
  (forall i p, registry_ !! i = Some p ->
     exists md, get_all_plugins_metadata registry_ !! i = Some (Some md) /\
                md_name md = name (meta p)) /\
  (NoDup (map (fun q => name (meta q)) registry_) ->
   get_all_plugins_metadata registry_
   = map (fun p => Some (metadata_of p)) registry_).
Proof.
  unfold get_all_plugins_metadata. split_and!.
  - apply length_map.
  - intros i p Hi.
    destruct (find_by_name_some registry_ p) as (q & Hq & Hname & _).
    { now apply list_elem_of_lookup_2 in Hi. }
    exists (metadata_of q). split; [|exact Hname].
    change (map ?f registry_) with (f <$> registry_).
    rewrite list_lookup_fmap, Hi. cbn. unfold get_plugin_metadata.
    now rewrite Hq.
  - intros Hnd. apply map_ext_in. intros p Hp.
    unfold get_plugin_metadata. rewrite find_by_name_own; [reflexivity|exact Hnd|].
    now apply list_elem_of_In.
Qed.

End WithHandlers.

Arguments Callable {Handler} h.
Arguments NotCallable {Handler}.

(** ** A small plugin directory *)

(** A plugin whose [__init__.py] declares [PLUGIN_META] with the given
    dependencies and whose core file exports a callable [handle]. *)
Definition demo_meta (plugin_name : string) (deps : list string) : raw_meta :=
  mk_raw_meta (Some plugin_name) None (Some ["/" +:+ plugin_name])
    (Some "handle") (Some ["private"; "group"]) (Some "all") None
    (Some (map (fun d => mk_dependency d None None) deps)).

Definition demo_module : core_module unit :=
  mk_core_module unit
    (fun attr => if String.eqb attr "handle" then Some (Callable tt) else None).

Definition demo_entry (plugin_name : string) (deps : list string)
  : dir_entry unit :=
  mk_dir_entry unit plugin_name true None
    (Some (Imported (Some (demo_meta plugin_name deps))))
    (Some (Imported demo_module)).

Definition demo_fs (entries : list (dir_entry unit)) : file_system unit :=
  fun dir => if String.eqb dir "./plugins" then Some entries else None.

Definition registered_names (st : option (state unit)) : option (list string) :=
  option_map (fun st => map (fun p => name (meta unit p)) (PLUGIN_REGISTRY unit st)) st.

(** [A] and [B] depend on each other; [C] depends on nothing. *)
Definition cyclic_batch : list (dir_entry unit) :=
  [demo_entry "A" ["B"]; demo_entry "B" ["A"]; demo_entry "C" []].

Example init_loads_in_dependency_order :
  registered_names
    (init unit (demo_fs [demo_entry "A" ["B"]; demo_entry "B" []; demo_entry "C" ["A"]])
       "./plugins" (initial_state unit)) = Some ["B"; "A"; "C"].
Proof. vm_compute. reflexivity. Qed.

Lemma init_cycle_aborts_batch_witness :
  exists st' c,
    init unit (demo_fs cyclic_batch) "./plugins" (initial_state unit) = Some st' /\
    PLUGIN_REGISTRY unit st' = [] /\ LOADED_PLUGIN_VERSIONS unit st' = ∅ /\
    initialized unit st' = false /\
    DepGraph.is_cycle (DEPENDENCY_GRAPH unit st') c /\
    error_log unit st' =
      error_log unit (initial_state unit) ++
      [DepGraph.cycle_message (Str.join " -> " (DepGraph.closed c));
       DepGraph.init_failed_message].
Proof.
  apply (init_cycle_aborts_batch unit (demo_fs cyclic_batch) "./plugins"
           (initial_state unit)); [reflexivity|].
  exists ["A"; "B"]. cbn. unfold DepGraph.edge, DepGraph.succs. cbn.
  repeat split; constructor.
Defined.

(** The claim that plugins outside every cycle are still loaded fails on
    [cyclic_batch]: [C] is on no cycle and loads when it is alone in the
    directory, yet after [init] on the whole batch nothing is registered. *)
Lemma init_cycle_drops_unrelated_plugin :
  registered_names
    (init unit (demo_fs [demo_entry "C" []]) "./plugins" (initial_state unit))
    = Some ["C"] /\
  option_map (DEPENDENCY_GRAPH unit)
    (init unit (demo_fs cyclic_batch) "./plugins" (initial_state unit))
    = Some [("A", ["B"]); ("B", ["A"]); ("C", [])] /\
  DepGraph.is_cycle [("A", ["B"]); ("B", ["A"]); ("C", [])] ["A"; "B"] /\
  (forall c, DepGraph.is_cycle [("A", ["B"]); ("B", ["A"]); ("C", [])] c ->
             "C" ∉ c) /\
  registered_names
    (init unit (demo_fs cyclic_batch) "./plugins" (initial_state unit))
    = Some [] /\
  option_map (initialized unit)
    (init unit (demo_fs cyclic_batch) "./plugins" (initial_state unit))
    = Some false.
Proof.
  split_and!; try (vm_compute; reflexivity).
  - cbn. unfold DepGraph.edge, DepGraph.succs. cbn. repeat split; constructor.
  - intros c Hc Hin. destruct c as [|x c]; [exact Hc|]. cbn [DepGraph.is_cycle] in Hc.
    destruct (DepGraph.chain_successor _ _ _ _ Hc Hin) as (m & He & _).
    unfold DepGraph.edge, DepGraph.succs in He. cbn in He. inversion He.
Qed.

(** The claim that no plugin code runs in Phase 1 fails on a directory
    that carries its metadata in [__init__.py]. *)
Lemma phase1_executes_plugin_code :
  scan_trace
    (scan_plugins_metadata unit (demo_fs [demo_entry "P" []]) "./plugins" [] [])
    = [ExecInit "P"] /\
  Dict.keys
    (plugins_meta
       (scan_plugins_metadata unit (demo_fs [demo_entry "P" []]) "./plugins" [] []))
    = ["P"].
Proof. split; vm_compute; reflexivity. Qed.

(** A directory with a well-formed [adapter.json] and no [__init__.py]
    yields no metadata: [json] is not among the module's names. *)
Example adapter_json_only_is_skipped :
  plugins_meta
    (scan_plugins_metadata unit
       (demo_fs [mk_dir_entry unit "Q" true (Some (Parsed (demo_meta "Q" [])))
                   None (Some (Imported demo_module))])
       "./plugins" [] [])
  = [].
Proof. vm_compute. reflexivity. Qed.

(** A directory whose [__init__.py] raises, and one whose [PLUGIN_META]
    lacks [handler], are skipped; their neighbours are collected. *)
Example scan_skips_malformed :
  Dict.keys
    (plugins_meta
       (scan_plugins_metadata unit
          (demo_fs
             [demo_entry "A" [];
              mk_dir_entry unit "Bad1" true None (Some (ImportFails "SyntaxError")) None;
              mk_dir_entry unit "Bad2" true None
                (Some (Imported (Some (mk_raw_meta (Some "Bad2") None (Some ["x"])
                                         None (Some ["group"]) (Some "all") None None))))
                None;
              demo_entry "B" ["A"]])
          "./plugins" [] []))
  = ["A"; "B"].
Proof. vm_compute. reflexivity. Qed.

(** Reloading a plugin that is loaded. *)
Example reload_loaded_plugin :
  match init unit (demo_fs [demo_entry "A" []]) "./plugins" (initial_state unit) with
  | Some st =>
      registered_names (Some st) = Some ["A"] /\
      reload_plugin unit (demo_fs [demo_entry "A" []]) "A" st
      = Py.Raised (Py.UnboundLocalError "PLUGIN_REGISTRY")
  | None => False
  end.
Proof. vm_compute. split; reflexivity. Qed.

(** The example of the specification: one plugin with trigger "foo". *)
Definition plugin_A : registered_plugin unit :=
  mk_registered_plugin unit
    (mk_plugin_meta "A" "1.0.0" ["foo"] "handle" ["private"; "group"] "all"
       false [] "./plugins/A")
    tt demo_module.

Example match_say_foo_please :
  option_map (fun p => name (meta unit p))
    (get_matched_plugin unit "192004908" [plugin_A] "say foo please" "group"
       "10001" false) = Some "A".
Proof. vm_compute. reflexivity. Qed.

Example match_bar_is_none :
  option_map (fun p => name (meta unit p))
    (get_matched_plugin unit "192004908" [plugin_A] "bar" "group" "10001" false)
  = None.
Proof. vm_compute. reflexivity. Qed.

Lemma unbounded_dependency_witness :
  check_plugin_dependencies ({["B" := "nightly"]} : gmap string string)
    [mk_dependency "B" None None] = None <->
  is_Some (({["B" := "nightly"]} : gmap string string) !! "B").
Proof.
  apply (unbounded_dependency ({["B" := "nightly"]} : gmap string string)
           (mk_dependency "B" None None)); reflexivity.
Defined.

Lemma init_result_is_consistent_witness :
  exists st',
    init unit (demo_fs [demo_entry "A" ["B"]; demo_entry "B" []]) "./plugins"
      (initial_state unit) = Some st' /\
    (initialized unit st' = true <->
     ~ DepGraph.has_cycle (DEPENDENCY_GRAPH unit st')) /\
    (forall p, p ∈ PLUGIN_REGISTRY unit st' ->
       check_plugin_dependencies (LOADED_PLUGIN_VERSIONS unit st')
         (dependencies (meta unit p)) = None).
Proof.
  apply (init_result_is_consistent unit
           (demo_fs [demo_entry "A" ["B"]; demo_entry "B" []]) "./plugins"
           (initial_state unit)).
  reflexivity.
Defined.


End PluginManager.

(* ===================================================================== *)
(** * The security manager ([core/security_manager.py]) *)
(* ===================================================================== *)

Module Re.

(** The part of Python's [re] that the sources apply to caller ids:
    anchors, a range of characters, [\d], and bounded repetition. *)
Inductive char_class : Type :=
| Range (lo hi : N)   (* [lo-hi], by code point *)
| Decimal.            (* \d *)

Inductive item : Type :=
| AtStart                                   (* ^ *)
| AtEnd                                     (* $ *)
| Chars (cls : char_class) (lo hi : nat).   (* cls{lo,hi} *)

Section WithInterpreter.

Context {interp : Unicode.Interpreter}.

Definition in_class (cls : char_class) (cp : N) : bool :=
  match cls with
  | Range lo hi => (lo <=? cp)%N && (cp <=? hi)%N
  | Decimal => Unicode.is_digit cp
  end.

(** [$] without [re.MULTILINE]: at the end of the string, or just before
    a line feed that ends the string. *)
Definition at_end (s : list N) : bool :=
  match s with
  | [] => true
  | [c] => (c =? 10)%N
  | _ => false
  end.

(** [cls{lo,hi}] followed by [k]: [count] characters are taken already. *)
Fixpoint repetitions (cls : char_class) (lo hi : nat)
    (k : nat -> list N -> bool) (count : nat) (s : list N) : bool :=
  ((lo <=? count)%nat && k count s) ||
  match s with
  | c :: s' =>
      (count <? hi)%nat && in_class cls c &&
      repetitions cls lo hi k (S count) s'
  | [] => false
  end.

(** The pattern matches at position [pos], where [s] is what is left of
    the string. *)
Fixpoint match_at (pattern : list item) (pos : nat) (s : list N) : bool :=
  match pattern with
  | [] => true
  | AtStart :: rest => (pos =? 0)%nat && match_at rest pos s
  | AtEnd :: rest => at_end s && match_at rest pos s
  | Chars cls lo hi :: rest =>
      repetitions cls lo hi (fun n s' => match_at rest (pos + n) s') 0 s
  end.

(** [bool(re.match(pattern, string))] for a [str]. *)
Definition matches (pattern : list item) (string : string) : bool :=
  match_at pattern 0 (Unicode.decode string).

Lemma repetitions_spec (cls : char_class) (lo hi : nat)
    (k : nat -> list N -> bool) (s : list N) :
  forall count,
    (count <= hi)%nat ->
    repetitions cls lo hi k count s = true <->
    exists pre post,
      s = pre ++ post /\ forallb (in_class cls) pre = true /\
      (lo <= count + length pre <= hi)%nat /\
      k (count + length pre)%nat post = true.
Proof.
  induction s as [|c s IH]; intros count Hcount; cbn [repetitions].
  - rewrite orb_false_r, andb_true_iff, Nat.leb_le. split.
    + intros [Hlo Hk]. exists [], []. cbn [length forallb app].
      rewrite Nat.add_0_r. split_and!; [reflexivity|reflexivity|lia|lia|exact Hk].
    + intros (pre & post & Hs & _ & Hlen & Hk).
      symmetry in Hs. apply app_eq_nil in Hs as [-> ->].
      cbn [length] in *. rewrite Nat.add_0_r in *. split; [lia|exact Hk].
  - rewrite orb_true_iff, !andb_true_iff, Nat.leb_le, Nat.ltb_lt. split.
    + intros [[Hlo Hk]|[[Hlt Hc] Hrep]].
      * exists [], (c :: s). cbn [length forallb app].
        rewrite Nat.add_0_r. split_and!; [reflexivity|reflexivity|lia|lia|exact Hk].
      * apply IH in Hrep as (pre & post & -> & Hpre & Hlen & Hk); [|lia].
        exists (c :: pre), post. cbn [length forallb app].
        rewrite Hc, Hpre. replace (count + S (length pre))%nat
          with (S count + length pre)%nat by lia.
        split_and!; [reflexivity|reflexivity|lia|lia|exact Hk].
    + intros (pre & post & Hs & Hpre & Hlen & Hk). destruct pre as [|d pre].
      * left. cbn [app] in Hs. subst post. cbn [length] in *.
        rewrite Nat.add_0_r in *. split; [lia|exact Hk].
      * right. cbn [app] in Hs. injection Hs as <- ->.
        cbn [forallb length] in *. apply andb_true_iff in Hpre as [Hd Hpre].
        split; [split; [lia|exact Hd]|].
        apply IH; [lia|]. exists pre, post.
        replace (S count + length pre)%nat
          with (count + S (length pre))%nat by lia.
        split_and!; [reflexivity|exact Hpre|lia|lia|exact Hk].
Qed.

Lemma at_end_spec (s : list N) : at_end s = true <-> s = [] \/ s = [10%N].
Proof.
  destruct s as [|c [|d s]]; cbn [at_end].
  - split; [now left|reflexivity].
  - rewrite N.eqb_eq. split; [intros ->; now right|].
    intros [H|H]; [discriminate|now injection H].
  - split; [discriminate|]. intros [H|H]; discriminate.
Qed.

End WithInterpreter.

End Re.

(* ===================================================================== *)

Module Security.

Section WithInterpreter.

(** The interpreter's table of decimal digits, which [\d] stands for. *)
Context {interp : Unicode.Interpreter}.

(** ** [InputValidator.is_valid_qq] *)

(** [r'^[1-9]\d{4,14}$']; the characters 1 and 9 are U+0031 and U+0039. *)
Definition qq_pattern : list Re.item :=
  [Re.AtStart; Re.Chars (Re.Range 49 57) 1 1; Re.Chars Re.Decimal 4 14;
   Re.AtEnd].

(** [bool(re.match(r'^[1-9]\d{4,14}$', user_id))]. *)
Definition is_valid_qq (user_id : string) : bool :=
  Re.matches qq_pattern user_id.

(** What the pattern says of the code points of an id: a digit 1 to 9,
    then 4 to 14 decimal digits, up to the end of the id or to the line
    feed that ends it. *)
Definition well_formed_qq (id : list N) : Prop :=
  exists c rest,
    (id = c :: rest \/ id = c :: rest ++ [10%N]) /\
    (49 <= c <= 57)%N /\
    Forall (fun d => Unicode.is_digit d = true) rest /\
    4 <= length rest <= 14.

(** ** [RateLimiter] *)

Definition max_requests_per_minute : nat := 60.
Definition max_requests_per_hour : nat := 1000.

(** [self.requests : Dict[str, List[float]]]. *)
Abbreviation requests_table := (gmap string (list Q)).

Definition Qltb (x y : Q) : bool :=
  if Qlt_le_dec x y then true else false.

Definition history (requests : requests_table) (key : string) : list Q :=
  match requests !! key with Some l => l | None => [] end.

Definition minute_denial : string := "请求过于频繁，请稍后再试（每分钟最多60次）".
Definition hour_denial : string := "请求过于频繁，请稍后再试（每小时最多1000次）".

(** [RateLimiter.check_rate_limit(key)], with [current_time] the reading
    of [time.time()]. *)
Definition check_rate_limit (current_time : Q) (key : string)
    (requests : requests_table) : (bool * option string) * requests_table :=
  let kept :=
    List.filter (fun t => Qltb (current_time - t) 3600) (history requests key) in
  let requests := <[key := kept]> requests in
  let minute_requests :=
    List.filter (fun t => Qltb (current_time - t) 60) kept in
  if (max_requests_per_minute <=? length minute_requests)%nat then
    ((false, Some minute_denial), requests)
  else if (max_requests_per_hour <=? length kept)%nat then
    ((false, Some hour_denial), requests)
  else
    ((true, None), <[key := kept ++ [current_time]]> requests).

(** Successive calls for one key at the given times; the answers in
    order. *)
Fixpoint run (key : string) (times : list Q) (requests : requests_table)
  : list bool * requests_table :=
  match times with
  | [] => ([], requests)
  | t :: rest =>
      let '((allowed, _), requests) := check_rate_limit t key requests in
      let '(answers, requests) := run key rest requests in
      (allowed :: answers, requests)
  end.

(** ** Roles and permissions *)

Inductive UserRole : Type := GUEST | SELF | MASTER.

Definition role_value (r : UserRole) : string :=
  match r with
  | GUEST => "guest"
  | SELF => "self"
  | MASTER => "master"
  end.

Definition role_permissions (r : UserRole) : list string :=
  match r with
  | GUEST => ["basic_query"]
  | SELF => ["basic_query"; "use_plugins"]
  | MASTER => ["basic_query"; "use_plugins"; "manage_plugins"; "system_admin"]
  end.

(** One record of [self.audit_logs]; the timestamp is left out. *)
Record audit_entry : Type := mk_audit_entry {
  audit_user_id : string;
  audit_role : string;
  audit_action : string;
  audit_resource : option string;
  audit_success : bool
}.

(** The singleton's state.  [self_qq] is [config_manager.get('self_qq', '')];
    a blacklist record keeps its optional [reason]. *)
Record manager : Type := mk_manager {
  user_roles : gmap string UserRole;
  blacklist : gmap string (option string);
  self_qq : string;
  requests : requests_table;
  audit_logs : list audit_entry
}.

Definition get_user_role (sm : manager) (user_id : string) : UserRole :=
  match user_roles sm !! user_id with
  | Some r => r
  | None =>
      match self_qq sm with
      | EmptyString => GUEST
      | _ => if String.eqb user_id (self_qq sm) then SELF else GUEST
      end
  end.

(** [SecurityManager.check_permission(user_id, permission)]. *)
Definition check_permission (sm : manager) (user_id permission : string)
  : bool * string :=
  if negb (is_valid_qq user_id) then (false, "无效的用户ID")
  else
    match blacklist sm !! user_id with
    | Some info =>
        (false,
         "您已被禁止使用此功能（原因：" +:+
         (match info with Some reason => reason | None => "未指定" end) +:+ "）")
    | None =>
        let role := get_user_role sm user_id in
        if bool_decide (permission ∈ role_permissions role)
        then (true, "权限校验通过（" +:+ role_value role +:+ "）")
        else (false, "权限不足！需要" +:+ permission +:+ "权限，当前角色：" +:+
                     role_value role)
    end.

(** [SecurityManager.check_rate_limit(key)] delegates to the limiter. *)
Definition manager_check_rate_limit (current_time : Q) (key : string)
    (sm : manager) : (bool * option string) * manager :=
  let '(answer, requests) := check_rate_limit current_time key (requests sm) in
  (answer, mk_manager (user_roles sm) (blacklist sm) (self_qq sm) requests
             (audit_logs sm)).

(** [log_audit_event]: append, then keep the newest 1000 records. *)
Definition log_audit_event (sm : manager) (user_id action : string)
    (resource : option string) (success : bool) : manager :=
  let entry := mk_audit_entry user_id (role_value (get_user_role sm user_id))
                 action resource success in
  let logs := audit_logs sm ++ [entry] in
  let logs := if (1000 <? length logs)%nat
              then drop (length logs - 1000) logs else logs in
  mk_manager (user_roles sm) (blacklist sm) (self_qq sm) (requests sm) logs.

(** [validate_plugin_access(plugin_name, user_id)]: each of its three
    branches returns [True]. *)
Definition validate_plugin_access (sm : manager) (plugin_name user_id : string)
  : bool :=
  if fst (check_permission sm user_id "manage_plugins") then true
  else if bool_decide (plugin_name ∈ ["general"; "help"; "weather"]) then true
  else true.

(** ** The validator comes before every permission *)

(** [is_valid_qq] accepts exactly the ids that the pattern describes. *)
Lemma is_valid_qq_spec (user_id : string) :
  is_valid_qq user_id = true <-> well_formed_qq (Unicode.decode user_id).
Proof.
  unfold is_valid_qq, Re.matches, qq_pattern, well_formed_qq.
  generalize (Unicode.decode user_id). intros s.
  cbn [Re.match_at Nat.eqb andb].
  rewrite Re.repetitions_spec by lia. split.
  - intros (pre & post & -> & Hpre & Hlen & Hrest).
    apply Re.repetitions_spec in Hrest as (ds & tail & -> & Hds & Hn & Hend);
      [|lia].
    rewrite andb_true_r in Hend. apply Re.at_end_spec in Hend.
    destruct pre as [|c [|c' pre]]; cbn [length] in Hlen; try lia.
    cbn [forallb Re.in_class] in Hpre. rewrite andb_true_r in Hpre.
    apply andb_true_iff in Hpre as [H1 H9].
    apply N.leb_le in H1, H9. exists c, ds. cbn [app].
    split_and!; try lia.
    + destruct Hend as [-> | ->]; [left; now rewrite app_nil_r|now right].
    + apply Forall_forall. intros d Hd.
      rewrite forallb_forall in Hds. apply (Hds d).
      now apply list_elem_of_In.
  - intros (c & rest & Hs & Hc & Hrest & Hlen).
    assert (Hds : forallb (Re.in_class Re.Decimal) rest = true).
    { apply forallb_forall. intros d Hd. rewrite Forall_forall in Hrest.
      apply Hrest. now apply list_elem_of_In. }
    assert (Hc' : forallb (Re.in_class (Re.Range 49 57)) [c] = true).
    { cbn [forallb Re.in_class]. rewrite andb_true_r.
      apply andb_true_iff. split; apply N.leb_le; lia. }
    destruct Hs as [-> | ->].
    + exists [c], rest.
      split_and!; [reflexivity|exact Hc'|cbn [length]; lia|cbn [length]; lia|].
      apply Re.repetitions_spec; [lia|]. exists rest, [].
      split_and!; [now rewrite app_nil_r|exact Hds|lia|lia|reflexivity].
    + exists [c], (rest ++ [10%N]).
      split_and!; [reflexivity|exact Hc'|cbn [length]; lia|cbn [length]; lia|].
      apply Re.repetitions_spec; [lia|]. exists rest, [10%N].
      split_and!; [reflexivity|exact Hds|lia|lia|reflexivity].
Qed.

Lemma ascii_digit_is_digit (c : N) :
  (48 <= c <= 57)%N -> Unicode.is_digit c = true.
Proof.
  intros H. unfold Unicode.is_digit, Unicode.digit.
  destruct (N.leb_spec 48 c); [|lia]. destruct (N.leb_spec c 57); [|lia].
  reflexivity.
Qed.

Lemma line_feed_is_no_digit : Unicode.is_digit 10 = false.
Proof. reflexivity. Qed.

(** The code points of a well-formed id are decimal digits, but for a
    final line feed. *)
Lemma well_formed_qq_digits (id : list N) (cp : N) :
  well_formed_qq id -> In cp id -> Unicode.is_digit cp = true \/ cp = 10%N.
Proof.
  intros (c & rest & Hs & Hc & Hrest & _) Hin.
  rewrite Forall_forall in Hrest.
  assert (Hcases : cp = c \/ In cp rest \/ cp = 10%N).
  { destruct Hs as [-> | ->]; cbn [In] in Hin.
    - destruct Hin as [<-|Hin]; auto.
    - destruct Hin as [<-|Hin]; [auto|].
      apply in_app_or in Hin as [Hin|Hin]; [auto|].
      cbn [In] in Hin. destruct Hin as [Hin|Hin]; [auto|contradiction]. }
  destruct Hcases as [-> | [Hin' | ->]].
  - left. apply ascii_digit_is_digit. lia.
  - left. apply Hrest. now apply list_elem_of_In.
  - now right.
Qed.

Lemma well_formed_qq_length (id : list N) :
  well_formed_qq id -> 5 <= length id <= 16.
Proof.
  intros (c & rest & Hs & _ & _ & Hlen).
  destruct Hs as [-> | ->]; cbn [length]; rewrite ?length_app; cbn [length]; lia.
Qed.

Lemma granted_is_valid_qq (sm : manager) (user_id permission : string) :
  fst (check_permission sm user_id permission) = true ->
  is_valid_qq user_id = true.
Proof.
  unfold check_permission. destruct (is_valid_qq user_id); [reflexivity|].
  cbn. discriminate.
Qed.

(** C10: a caller id that does not match [^[1-9]\d{4,14}$] is denied every
    capability, whatever the role table, the black list and the
    configured ids hold, so a granted permission implies a well-formed
    numeric caller id.  [is_valid_qq], which applies [re.match] to the
    pattern, holds exactly of the ids made of a digit 1 to 9 and 4 to 14
    further decimal digits (up to the end or to a final line feed);
    [check_permission] answers every other id with the invalid-id
    refusal, for every manager state and permission; and an id of fewer
    than 5 characters, an id that starts with 0, and an id holding a
    character that is neither a decimal digit nor a line feed (such as
    "system") do not match.  This holds for every table of decimal digits
    of the interpreter. *)
Theorem invalid_qq_is_denied :
  (forall user_id,
     is_valid_qq user_id = true <-> well_formed_qq (Unicode.decode user_id)) /\
  (forall sm user_id permission,
     ~ well_formed_qq (Unicode.decode user_id) ->
     check_permission sm user_id permission = (false, "无效的用户ID")) /\
  (forall sm user_id permission,
     fst (check_permission sm user_id permission) = true ->
     well_formed_qq (Unicode.decode user_id)) /\
  (forall user_id,
     length (Unicode.decode user_id) < 5 ->
     ~ well_formed_qq (Unicode.decode user_id)) /\
  (forall user_id rest,
     Unicode.decode user_id = 48%N :: rest ->
     ~ well_formed_qq (Unicode.decode user_id)) /\
  (forall user_id cp,
     In cp (Unicode.decode user_id) ->
     Unicode.is_digit cp = false -> cp <> 10%N ->
     ~ well_formed_qq (Unicode.decode user_id)) /\
  is_valid_qq "1234" = false /\ is_valid_qq "012345" = false /\
  is_valid_qq "system" = false /\
  (forall sm permission,
     check_permission sm "system" permission = (false, "无效的用户ID")).
Proof.
  split_and!.
  - apply is_valid_qq_spec.
  - intros sm user_id permission Hno. unfold check_permission.
    destruct (is_valid_qq user_id) eqn:Hv; [|reflexivity].
    now apply is_valid_qq_spec in Hv.
  - intros sm user_id permission Hok. apply is_valid_qq_spec.
    now apply (granted_is_valid_qq sm user_id permission).
  - intros user_id Hlen Hwf. apply well_formed_qq_length in Hwf. lia.
  - intros user_id rest Hs (c & rest' & Hs' & Hc & _). rewrite Hs in Hs'.
    destruct Hs' as [Hs'|Hs']; injection Hs' as <- _; lia.
  - intros user_id cp Hin Hnd Hnl Hwf.
    destruct (well_formed_qq_digits _ cp Hwf Hin) as [Hd|Hl]; congruence.
  - reflexivity.
  - reflexivity.
  - reflexivity.
  - reflexivity.
Qed.

(** ** The sliding window *)

Lemma Qltb_true (x y : Q) : Qltb x y = true <-> (x < y)%Q.
Proof.
  unfold Qltb. destruct (Qlt_le_dec x y) as [H|H]; split; intros; try easy.
  exfalso. eapply Qlt_not_le; eauto.
Qed.

Lemma Qltb_false (x y : Q) : Qltb x y = false <-> (y <= x)%Q.
Proof.
  unfold Qltb. destruct (Qlt_le_dec x y) as [H|H]; split; intros; try easy.
  exfalso. eapply Qlt_not_le; eauto.
Qed.

Lemma filter_all {A} (f : A -> bool) (l : list A) :
  (forall x, In x l -> f x = true) -> List.filter f l = l.
Proof.
  induction l as [|a l IH]; intros H; [reflexivity|]. cbn [List.filter].
  rewrite (H a) by now left. f_equal. apply IH. intros x Hx. apply H. now right.
Qed.

Lemma filter_length_le {A} (f : A -> bool) (l : list A) :
  length (List.filter f l) <= length l.
Proof.
  induction l as [|a l IH]; [reflexivity|]. cbn [List.filter].
  destruct (f a); cbn [length]; lia.
Qed.

(** All of [l] lies in the 60-second window that starts at [t0]. *)
Definition within_window (t0 : Q) (l : list Q) : Prop :=
  forall t, In t l -> (t0 <= t)%Q /\ (t < t0 + 60)%Q.

Lemma window_keeps_all (t0 now : Q) (l : list Q) :
  within_window t0 l -> (t0 <= now)%Q /\ (now < t0 + 60)%Q ->
  List.filter (fun t => Qltb (now - t) 3600) l = l /\
  List.filter (fun t => Qltb (now - t) 60) l = l.
Proof.
  intros Hl Hnow. split; apply filter_all; intros t Ht;
    apply Qltb_true; destruct (Hl t Ht); lra.
Qed.

(** Below the threshold and inside one window, a request is allowed and
    its time stamp is appended. *)
Lemma check_rate_limit_allows (t0 now : Q) (key : string)
    (requests : requests_table) :
  within_window t0 (history requests key) ->
  (t0 <= now)%Q /\ (now < t0 + 60)%Q ->
  length (history requests key) < 60 ->
  check_rate_limit now key requests =
  ((true, None), <[key := history requests key ++ [now]]> requests).
Proof.
  intros Hw Hnow Hlen. unfold check_rate_limit. cbv zeta.
  destruct (window_keeps_all t0 now _ Hw Hnow) as [-> ->].
  unfold max_requests_per_minute, max_requests_per_hour.
  destruct (Nat.leb_spec 60 (length (history requests key))); [lia|].
  destruct (Nat.leb_spec 1000 (length (history requests key))); [lia|].
  now rewrite insert_insert_eq.
Qed.

Lemma history_insert (key : string) (l : list Q) (requests : requests_table) :
  history (<[key := l]> requests) key = l.
Proof. unfold history. now rewrite lookup_insert_eq. Qed.

Lemma run_allows (t0 : Q) (key : string) (times : list Q) :
  forall requests,
    within_window t0 (history requests key) -> within_window t0 times ->
    length (history requests key) + length times <= 60 ->
    exists requests',
      run key times requests = (repeat true (length times), requests') /\
      history requests' key = history requests key ++ times.
Proof.
  induction times as [|t rest IH]; intros requests Hh Ht Hlen.
  - exists requests. split; [reflexivity|]. now rewrite app_nil_r.
  - cbn [run length] in *.
    rewrite (check_rate_limit_allows t0 t key requests Hh); [| |lia].
    2:{ apply Ht. now left. }
    destruct (IH (<[key := history requests key ++ [t]]> requests))
      as (requests' & Hrun & Hhist).
    + rewrite history_insert. intros x Hx. apply in_app_or in Hx as [Hx|Hx].
      * now apply Hh.
      * apply Ht. destruct Hx as [<-|[]]. now left.
    + intros x Hx. apply Ht. now right.
    + rewrite history_insert, length_app. cbn. lia.
    + exists requests'. rewrite Hrun. split; [reflexivity|].
      rewrite Hhist, history_insert. now rewrite <- app_assoc.
Qed.

(** A denied request leaves only the pruned history behind. *)
Lemma denied_records_nothing (now : Q) (key : string) (requests : requests_table) :
  fst (fst (check_rate_limit now key requests)) = false ->
  history (snd (check_rate_limit now key requests)) key =
  List.filter (fun t => Qltb (now - t) 3600) (history requests key).
Proof.
  unfold check_rate_limit. cbv zeta.
  destruct (_ <=? _)%nat; [intros _; apply history_insert|].
  destruct (_ <=? _)%nat; [intros _; apply history_insert|].
  discriminate.
Qed.

(** C6: for one key that starts with no recorded request, 60 requests
    inside one 60-second window are all allowed; a 61st request inside
    that window is denied and records no time stamp (the history is still
    the 60 stamps); any later request made 60 seconds or more after the
    first one is allowed again.  In general a denied request leaves the
    (pruned) earlier history and nothing else. *)
Theorem sliding_window_limit (key : string) (requests : requests_table)
    (t0 first t61 : Q) (rest : list Q) :
  history requests key = [] ->
  length (first :: rest) = 60 ->
  within_window t0 (first :: rest ++ [t61]) ->
  exists after60,
    run key (first :: rest) requests = (repeat true 60, after60) /\
    history after60 key = first :: rest /\
    fst (check_rate_limit t61 key after60) = (false, Some minute_denial) /\
    history (snd (check_rate_limit t61 key after60)) key = first :: rest /\
    (forall later, (first + 60 <= later)%Q ->
       fst (fst (check_rate_limit later key
                   (snd (check_rate_limit t61 key after60)))) = true) /\
    (forall now k reqs,
       fst (fst (check_rate_limit now k reqs)) = false ->
       history (snd (check_rate_limit now k reqs)) k =
       List.filter (fun t => Qltb (now - t) 3600) (history reqs k)).
Proof.
  intros Hfresh Hlen Hw.
  assert (Hw60 : within_window t0 (first :: rest)).
  { intros x Hx. apply Hw. cbn. destruct Hx as [->|Hx]; [now left|right].
    apply in_or_app. now left. }
  assert (Hw61 : (t0 <= t61)%Q /\ (t61 < t0 + 60)%Q).
  { apply Hw. cbn. right. apply in_or_app. right. now left. }
  destruct (run_allows t0 key (first :: rest) requests) as (after60 & Hrun & Hh).
  { rewrite Hfresh. intros x []. }
  { exact Hw60. }
  { rewrite Hfresh, Hlen. cbn. lia. }
  rewrite Hfresh, Hlen in *. cbn [app] in Hh.
  exists after60. split; [exact Hrun|]. split; [exact Hh|].
  assert (Hdenied : check_rate_limit t61 key after60 =
                    ((false, Some minute_denial), <[key := first :: rest]> after60)).
  { unfold check_rate_limit. cbv zeta. rewrite Hh.
    destruct (window_keeps_all t0 t61 _ Hw60 Hw61) as [-> ->].
    unfold max_requests_per_minute. rewrite Hlen. reflexivity. }
  rewrite Hdenied. cbn [fst snd]. rewrite history_insert.
  split_and!; [reflexivity | reflexivity | | ].
  - intros later Hlater. unfold check_rate_limit. cbv zeta.
    rewrite history_insert.
    set (kept := List.filter (fun t => Qltb (later - t) 3600) (first :: rest)).
    assert (Hkept : length kept <= 60).
    { unfold kept. rewrite <- Hlen. apply filter_length_le. }
    assert (Hminute :
      length (List.filter (fun t => Qltb (later - t) 60) kept) <= 59).
    { unfold kept. cbn [List.filter].
      assert (Hf : Qltb (later - first) 60 = false) by (apply Qltb_false; lra).
      pose proof (filter_length_le (fun t => Qltb (later - t) 60)
                    (List.filter (fun t => Qltb (later - t) 3600) rest)) as H1.
      pose proof (filter_length_le (fun t => Qltb (later - t) 3600) rest) as H2.
      cbn [length] in Hlen.
      destruct (Qltb (later - first) 3600); cbn [List.filter];
        rewrite ?Hf; lia. }
    unfold max_requests_per_minute, max_requests_per_hour.
    destruct (Nat.leb_spec 60
                (length (List.filter (fun t => Qltb (later - t) 60) kept)));
      [lia|].
    destruct (Nat.leb_spec 1000 (length kept)); [lia|]. reflexivity.
  - intros now k reqs. apply denied_records_nothing.
Qed.

Definition sixty_stamps : list Q :=
  map (fun n => inject_Z (Z.of_nat n)) (seq 0 60).

Lemma within_window_check (t0 : Q) (l : list Q) :
  forallb (fun t => Qle_bool t0 t && Qltb t (t0 + 60)) l = true ->
  within_window t0 l.
Proof.
  intros H t Ht. rewrite forallb_forall in H. specialize (H t Ht).
  apply andb_true_iff in H as [H1 H2]. split.
  - now apply Qle_bool_iff.
  - now apply Qltb_true.
Qed.

Lemma sliding_window_limit_witness :
  exists after60,
    run "user_10001" (0%Q :: tl sixty_stamps) ∅ = (repeat true 60, after60) /\
    history after60 "user_10001" = 0%Q :: tl sixty_stamps /\
    fst (check_rate_limit (119 # 2) "user_10001" after60)
      = (false, Some minute_denial) /\
    history (snd (check_rate_limit (119 # 2) "user_10001" after60)) "user_10001"
      = 0%Q :: tl sixty_stamps /\
    (forall later, (0 + 60 <= later)%Q ->
       fst (fst (check_rate_limit later "user_10001"
                   (snd (check_rate_limit (119 # 2) "user_10001" after60))))
       = true) /\
    (forall now k reqs,
       fst (fst (check_rate_limit now k reqs)) = false ->
       history (snd (check_rate_limit now k reqs)) k =
       List.filter (fun t => Qltb (now - t) 3600) (history reqs k)).
Proof.
  apply (sliding_window_limit "user_10001" ∅ 0 0 (119 # 2) (tl sixty_stamps)).
  - reflexivity.
  - reflexivity.
  - apply within_window_check. vm_compute. reflexivity.
Defined.

(** ** The limiter's decision and its table *)

Lemma filter_filter_implied {A} (f g : A -> bool) (l : list A) :
  (forall x, f x = true -> g x = true) ->
  List.filter f (List.filter g l) = List.filter f l.
Proof.
  intros Hfg. induction l as [|a l IH]; [reflexivity|]. cbn [List.filter].
  destruct (g a) eqn:Hg; cbn [List.filter].
  - now rewrite IH.
  - destruct (f a) eqn:Hf; [|exact IH]. apply Hfg in Hf. congruence.
Qed.

Lemma minute_of_hour (now : Q) (l : list Q) :
  List.filter (fun t => Qltb (now - t) 60)
    (List.filter (fun t => Qltb (now - t) 3600) l)
  = List.filter (fun t => Qltb (now - t) 60) l.
Proof.
  apply filter_filter_implied. intros t Ht. apply Qltb_true in Ht.
  apply Qltb_true. lra.
Qed.

(** X6: a request is allowed exactly when fewer than 60 recorded requests
    of the key are less than 60 seconds old and fewer than 1000 are less
    than 3600 seconds old; an allowed request leaves the stamps of the
    last hour followed by its own time, a denied one only the stamps of
    the last hour. *)
Theorem rate_limit_decision (now : Q) (key : string) (requests : requests_table) :
  let recent w := List.filter (fun t => Qltb (now - t) w) (history requests key) in
  (fst (fst (check_rate_limit now key requests)) = true <->
   length (recent 60%Q) < 60 /\ length (recent 3600%Q) < 1000) /\
  history (snd (check_rate_limit now key requests)) key =
    (if fst (fst (check_rate_limit now key requests))
     then recent 3600%Q ++ [now] else recent 3600%Q).
Proof.
  cbv zeta. unfold check_rate_limit. cbv zeta. rewrite minute_of_hour.
  unfold max_requests_per_minute, max_requests_per_hour.
  destruct (Nat.leb_spec 60
              (length (List.filter (fun t => Qltb (now - t) 60)
                         (history requests key)))) as [H60|H60];
    cbn [fst snd].
  - split; [|apply history_insert]. split; [discriminate|lia].
  - destruct (Nat.leb_spec 1000
                (length (List.filter (fun t => Qltb (now - t) 3600)
                           (history requests key)))) as [H1000|H1000];
      cbn [fst snd].
    + split; [|apply history_insert]. split; [discriminate|lia].
    + split; [|apply history_insert]. split; [lia|reflexivity].
Qed.

(** Calls of the limiter for any keys at any times, in order. *)
Fixpoint serve (calls : list (Q * string)) (requests : requests_table)
  : requests_table :=
  match calls with
  | [] => requests
  | (t, key) :: rest => serve rest (snd (check_rate_limit t key requests))
  end.

Lemma history_other (now : Q) (key k : string) (requests : requests_table) :
  k <> key ->
  snd (check_rate_limit now key requests) !! k = requests !! k.
Proof.
  intros Hne. unfold check_rate_limit. cbv zeta.
  destruct (_ <=? _)%nat; [|destruct (_ <=? _)%nat]; cbn [snd];
    rewrite ?lookup_insert_ne by congruence; reflexivity.
Qed.

Lemma key_is_kept (now : Q) (key k : string) (requests : requests_table) :
  k = key \/ is_Some (requests !! k) ->
  is_Some (snd (check_rate_limit now key requests) !! k).
Proof.
  intros H. destruct (decide (k = key)) as [->|Hne].
  - unfold check_rate_limit. cbv zeta.
    destruct (_ <=? _)%nat; [|destruct (_ <=? _)%nat]; cbn [snd];
      rewrite lookup_insert_eq; eauto.
  - rewrite history_other by exact Hne. now destruct H.
Qed.

Lemma serve_keeps_keys (calls : list (Q * string)) :
  forall requests k, is_Some (requests !! k) ->
                     is_Some (serve calls requests !! k).
Proof.
  induction calls as [|[t key] rest IH]; intros requests k Hk; [exact Hk|].
  cbn [serve]. apply IH, key_is_kept. now right.
Qed.

Lemma serve_records_keys (calls : list (Q * string)) :
  forall requests t k, In (t, k) calls -> is_Some (serve calls requests !! k).
Proof.
  induction calls as [|[t' key] rest IH]; intros requests t k Ht; [destruct Ht|].
  cbn [serve]. destruct Ht as [[= -> ->]|Ht].
  - apply serve_keeps_keys, key_is_kept. now left.
  - now apply IH with (t := t).
Qed.

Lemma limiter_step (now : Q) (key : string) (requests : requests_table) :
  let kept := List.filter (fun t => Qltb (now - t) 3600) (history requests key) in
  (fst (fst (check_rate_limit now key requests)) = true -> length kept < 1000) /\
  history (snd (check_rate_limit now key requests)) key =
    (if fst (fst (check_rate_limit now key requests))
     then kept ++ [now] else kept).
Proof.
  cbv zeta. unfold check_rate_limit. cbv zeta.
  unfold max_requests_per_minute, max_requests_per_hour.
  destruct (_ <=? _)%nat; cbn [fst snd];
    [split; [discriminate|apply history_insert]|].
  destruct (Nat.leb_spec 1000
              (length (List.filter (fun t => Qltb (now - t) 3600)
                         (history requests key)))); cbn [fst snd].
  - split; [discriminate|apply history_insert].
  - split; [intros _; lia|apply history_insert].
Qed.

Lemma serve_invariant (calls : list (Q * string)) :
  forall (requests : requests_table) (earlier : list (Q * string)),
    (forall k, length (history requests k) <= 1000 /\
               forall t, In t (history requests k) -> In (t, k) earlier) ->
    forall k, length (history (serve calls requests) k) <= 1000 /\
              forall t, In t (history (serve calls requests) k) ->
                        In (t, k) (earlier ++ calls).
Proof.
  induction calls as [|[now key] rest IH]; intros requests earlier Hinv k.
  - rewrite app_nil_r. apply Hinv.
  - cbn [serve].
    replace (earlier ++ (now, key) :: rest)
      with ((earlier ++ [(now, key)]) ++ rest) by now rewrite <- app_assoc.
    apply IH. clear k. intros k. destruct (decide (k = key)) as [->|Hne].
    + destruct (limiter_step now key requests) as [Hdec ->].
      destruct (Hinv key) as [Hlen Hin].
      pose proof (filter_length_le (fun t => Qltb (now - t) 3600)
                    (history requests key)) as Hle.
      assert (Hsub : forall t,
                In t (List.filter (fun t => Qltb (now - t) 3600)
                        (history requests key)) ->
                In (t, key) (earlier ++ [(now, key)])).
      { intros t Ht. apply filter_In in Ht as [Ht _].
        apply in_or_app. left. now apply Hin. }
      destruct (fst (fst (check_rate_limit now key requests))).
      * pose proof (Hdec eq_refl) as H1000.
        split; [rewrite length_app; cbn; lia|].
        intros t Ht. apply in_app_or in Ht as [Ht|[<-|[]]];
          [now apply Hsub|]. apply in_or_app. right. now left.
      * split; [lia|exact Hsub].
    + unfold history. rewrite history_other by exact Hne.
      destruct (Hinv k) as [Hlen Hin]. split; [exact Hlen|].
      intros t Ht. apply in_or_app. left. now apply Hin.
Qed.

(** X7: after any sequence of calls that starts from the empty table,
    whatever the keys and the clock readings, a key holds at most 1000 time
    stamps, each of them the time of one of that key's own calls, and every
    key that was ever checked (allowed or denied) still has an entry: the
    limiter never removes a key. *)
Theorem limiter_table_invariant (calls : list (Q * string)) (k : string) :
  length (history (serve calls ∅) k) <= 1000 /\
  (forall t, In t (history (serve calls ∅) k) -> In (t, k) calls) /\
  (forall t, In (t, k) calls -> is_Some (serve calls ∅ !! k)).
Proof.
  destruct (serve_invariant calls ∅ []) with (k := k) as [Hlen Hin].
  { intros k'. unfold history. rewrite (lookup_empty (M := gmap string)).
    cbn. split; [lia|tauto]. }
  split_and!; [exact Hlen|exact Hin|].
  intros t Ht. now apply serve_records_keys with (t := t).
Qed.

(** ** The audit log *)

(** One call of [log_audit_event]: [(user_id, action, resource, success)]. *)
Definition audit_call : Type := string * string * option string * bool.

Definition entry_of (sm : manager) (c : audit_call) : audit_entry :=
  let '(user_id, action, resource, success) := c in
  mk_audit_entry user_id (role_value (get_user_role sm user_id)) action
    resource success.

(** Successive calls of [log_audit_event]. *)
Fixpoint log_all (calls : list audit_call) (sm : manager) : manager :=
  match calls with
  | [] => sm
  | (user_id, action, resource, success) :: rest =>
      log_all rest (log_audit_event sm user_id action resource success)
  end.

Lemma log_audit_event_logs (sm : manager) (user_id action : string)
    (resource : option string) (success : bool) :
  let logs := audit_logs sm ++
              [entry_of sm (user_id, action, resource, success)] in
  audit_logs (log_audit_event sm user_id action resource success)
  = drop (length logs - 1000) logs.
Proof.
  cbv zeta. unfold log_audit_event, entry_of. cbn [audit_logs].
  destruct (Nat.ltb_spec 1000
              (length (audit_logs sm ++
                       [mk_audit_entry user_id
                          (role_value (get_user_role sm user_id))
                          action resource success]))) as [H|H];
    [reflexivity|].
  now replace (_ - 1000) with 0 by lia.
Qed.

Lemma entry_of_logged (sm : manager) (user_id action : string)
    (resource : option string) (success : bool) (c : audit_call) :
  entry_of (log_audit_event sm user_id action resource success) c
  = entry_of sm c.
Proof. now destruct c as [[[u a] r] b]. Qed.

Lemma log_all_logs (calls : list audit_call) :
  forall sm,
    length (audit_logs sm) <= 1000 ->
    let all := audit_logs sm ++ map (entry_of sm) calls in
    audit_logs (log_all calls sm) = drop (length all - 1000) all.
Proof.
  induction calls as [|c rest IH]; intros sm Hlen; cbv zeta.
  - cbn [log_all map]. rewrite app_nil_r.
    now replace (_ - 1000) with 0 by lia.
  - destruct c as [[[u a] r] b]. cbn [log_all map].
    pose proof (log_audit_event_logs sm u a r b) as Hstep. cbv zeta in Hstep.
    set (sm1 := log_audit_event sm u a r b) in *.
    set (e := entry_of sm (u, a, r, b)) in *.
    assert (Hlen1 : length (audit_logs sm1) <= 1000).
    { rewrite Hstep, length_drop, length_app. cbn [length]. lia. }
    specialize (IH sm1 Hlen1). cbv zeta in IH. rewrite IH.
    rewrite (map_ext (entry_of sm1) (entry_of sm))
      by (intros c; apply entry_of_logged).
    rewrite Hstep.
    set (es := map (entry_of sm) rest).
    set (l := audit_logs sm) in *.
    assert (Happ : drop (length (l ++ [e]) - 1000) (l ++ [e]) ++ es
                   = drop (length (l ++ [e]) - 1000) (l ++ e :: es)).
    { replace (l ++ e :: es) with ((l ++ [e]) ++ es)
        by now rewrite <- app_assoc.
      rewrite (drop_app_le (l ++ [e]) es); [reflexivity|lia]. }
    rewrite Happ, drop_drop. f_equal.
    rewrite length_drop, !length_app. cbn [length].
    rewrite length_app in *. cbn [length] in *. lia.
Qed.

(** X8: the audit log is a window over the newest 1000 records: starting
    from a log of at most 1000 records, after any sequence of
    [log_audit_event] calls the log holds, in order, the last 1000 of the
    old records followed by the new ones (all of them while there are at
    most 1000), and never more than 1000. *)
Theorem audit_log_keeps_newest (calls : list audit_call) (sm : manager) :
  length (audit_logs sm) <= 1000 ->
  let all := audit_logs sm ++ map (entry_of sm) calls in
  audit_logs (log_all calls sm) = drop (length all - 1000) all /\
  length (audit_logs (log_all calls sm)) = Nat.min (length all) 1000.
Proof.
  intros Hlen. cbv zeta. rewrite (log_all_logs calls sm Hlen).
  split; [reflexivity|]. rewrite length_drop. lia.
Qed.

(** ** The black list *)

(** [add_to_blacklist(user_id, reason, duration)].  The record's
    [added_at] and [duration] are stored and never read; the model keeps
    the reason. *)
Definition add_to_blacklist (sm : manager) (user_id reason : string)
    (duration : Z) : manager :=
  mk_manager (user_roles sm) (<[user_id := Some reason]> (blacklist sm))
    (self_qq sm) (requests sm) (audit_logs sm).

(** [remove_from_blacklist(user_id)]. *)
Definition remove_from_blacklist (sm : manager) (user_id : string) : manager :=
  match blacklist sm !! user_id with
  | Some _ =>
      mk_manager (user_roles sm) (delete user_id (blacklist sm)) (self_qq sm)
        (requests sm) (audit_logs sm)
  | None => sm
  end.

(** [check_master_permission(user_id)]. *)
Definition check_master_permission (sm : manager) (user_id : string)
  : bool * string :=
  check_permission sm user_id "system_admin".

(** X9: once [add_to_blacklist] has listed a caller, every permission is
    refused to that caller, whatever role the caller has (the master
    included) and whatever duration was given: for a well-formed id the
    answer carries the stored reason.  The answers for every other caller
    are unchanged. *)
Theorem blacklist_overrides_role (sm : manager) (user_id reason : string)
    (duration : Z) (permission : string) :
  fst (check_permission (add_to_blacklist sm user_id reason duration)
         user_id permission) = false /\
  (is_valid_qq user_id = true ->
   check_permission (add_to_blacklist sm user_id reason duration)
     user_id permission
   = (false, "您已被禁止使用此功能（原因：" +:+ reason +:+ "）")) /\
  (forall other, other <> user_id ->
     check_permission (add_to_blacklist sm user_id reason duration)
       other permission
     = check_permission sm other permission).
Proof.
  unfold check_permission, add_to_blacklist. cbn [blacklist].
  split_and!.
  - destruct (is_valid_qq user_id); cbn [negb]; [|reflexivity].
    now rewrite lookup_insert_eq.
  - intros ->. cbn [negb]. now rewrite lookup_insert_eq.
  - intros other Hne. destruct (is_valid_qq other); cbn [negb]; [|reflexivity].
    rewrite lookup_insert_ne by congruence. reflexivity.
Qed.

(** X10: [remove_from_blacklist] undoes [add_to_blacklist]: listing a
    caller who was not listed and removing that caller again gives back
    the manager as it was. *)
Theorem blacklist_round_trip (sm : manager) (user_id reason : string)
    (duration : Z) :
  blacklist sm !! user_id = None ->
  remove_from_blacklist (add_to_blacklist sm user_id reason duration) user_id
  = sm.
Proof.
  intros Hnone. unfold remove_from_blacklist, add_to_blacklist.
  cbn [blacklist user_roles self_qq requests audit_logs].
  rewrite lookup_insert_eq, delete_insert_id by exact Hnone.
  now destruct sm.
Qed.

(** X11: [check_master_permission] grants exactly the callers with a
    well-formed id who are not on the black list and whom the role table
    maps to [MASTER]; the configured [self_qq] does not make a master. *)
Theorem master_permission_spec (sm : manager) (user_id : string) :
  fst (check_master_permission sm user_id) = true <->
  is_valid_qq user_id = true /\ blacklist sm !! user_id = None /\
  user_roles sm !! user_id = Some MASTER.
Proof.
  unfold check_master_permission, check_permission, get_user_role.
  destruct (is_valid_qq user_id); cbn [negb]; [|split; [discriminate|tauto]].
  destruct (blacklist sm !! user_id) as [info|];
    [split; [discriminate|intros (_ & ? & _); discriminate]|].
  destruct (user_roles sm !! user_id) as [[]|].
  - cbn. split; [discriminate|intros (_ & _ & ?); discriminate].
  - cbn. split; [discriminate|intros (_ & _ & ?); discriminate].
  - cbn. split; [tauto|reflexivity].
  - destruct (self_qq sm) as [|c s]; [|destruct (String.eqb _ _)]; cbn;
      (split; [discriminate|intros (_ & _ & ?); discriminate]).
Qed.

Lemma audit_log_keeps_newest_witness :
  let sm := mk_manager {["192004908" := MASTER]} ∅ "" ∅ [] in
  let calls : list audit_call :=
    [("192004908", "message_received", None, true);
     ("10001", "plugin_executed", Some "A", false)] in
  let all := audit_logs sm ++ map (entry_of sm) calls in
  audit_logs (log_all calls sm) = drop (length all - 1000) all /\
  length (audit_logs (log_all calls sm)) = Nat.min (length all) 1000.
Proof.
  intros sm calls. apply (audit_log_keeps_newest calls sm). cbn. lia.
Defined.

Lemma blacklist_round_trip_witness :
  remove_from_blacklist
    (add_to_blacklist (mk_manager {["192004908" := MASTER]} ∅ "" ∅ [])
       "10001" "spam" 0) "10001"
  = mk_manager {["192004908" := MASTER]} ∅ "" ∅ [].
Proof.
  apply (blacklist_round_trip
           (mk_manager {["192004908" := MASTER]} ∅ "" ∅ []) "10001" "spam" 0).
  reflexivity.
Defined.

End WithInterpreter.

(** With the digits of CPython 3.11: a final line feed and the decimal
    digits of other scripts are accepted after the first character. *)
Example is_valid_qq_examples :
  is_valid_qq "192004908" = true /\ is_valid_qq "10000" = true /\
  is_valid_qq "1234" = false /\ is_valid_qq "012345" = false /\
  is_valid_qq "system" = false /\ is_valid_qq "" = false /\
  is_valid_qq "1234567890123456" = false /\ is_valid_qq "12345a" = false /\
  is_valid_qq ("12345" +:+ String "010"%char EmptyString) = true /\
  is_valid_qq "1１２３４" = true /\ is_valid_qq "１2345" = false.
Proof. split_and!; vm_compute; reflexivity. Qed.

End Security.

(* ===================================================================== *)
(** * The execution accountant ([core/monitor.py]) *)
(* ===================================================================== *)

Module Monitor.

(** One value of [MonitorManager.plugin_stats]. *)
Record plugin_stat : Type := mk_plugin_stat {
  total_executions : nat;
  successful_executions : nat;
  total_time : Q;
  avg_execution_time : Q
}.

Definition empty_stat : plugin_stat := mk_plugin_stat 0 0 0 0.

Abbreviation stats_table := (gmap string plugin_stat).

(** [record_plugin_execution(plugin_name, execution_time, success)]. *)
Definition record_plugin_execution (plugin_name : string) (execution_time : Q)
    (success : bool) (plugin_stats : stats_table) : stats_table :=
  let stats :=
    match plugin_stats !! plugin_name with
    | Some s => s
    | None => empty_stat
    end in
  let total := S (total_executions stats) in
  let successful :=
    if success then S (successful_executions stats)
    else successful_executions stats in
  let time := (total_time stats + execution_time)%Q in
  <[plugin_name :=
      mk_plugin_stat total successful time
        (time / inject_Z (Z.of_nat total))%Q]> plugin_stats.

Definition executions (plugin_stats : stats_table) (plugin_name : string) : nat :=
  match plugin_stats !! plugin_name with
  | Some s => total_executions s
  | None => 0
  end.

Definition successes (plugin_stats : stats_table) (plugin_name : string) : nat :=
  match plugin_stats !! plugin_name with
  | Some s => successful_executions s
  | None => 0
  end.

Definition failures (plugin_stats : stats_table) (plugin_name : string) : nat :=
  executions plugin_stats plugin_name - successes plugin_stats plugin_name.

Lemma record_failure (plugin_name : string) (t : Q) (plugin_stats : stats_table) :
  executions (record_plugin_execution plugin_name t false plugin_stats) plugin_name
    = S (executions plugin_stats plugin_name) /\
  successes (record_plugin_execution plugin_name t false plugin_stats) plugin_name
    = successes plugin_stats plugin_name /\
  forall other, other <> plugin_name ->
    record_plugin_execution plugin_name t false plugin_stats !! other
    = plugin_stats !! other.
Proof.
  unfold executions, successes, record_plugin_execution. cbv zeta.
  rewrite !lookup_insert_eq. split_and!.
  - now destruct (plugin_stats !! plugin_name).
  - now destruct (plugin_stats !! plugin_name).
  - intros other Hne. now rewrite lookup_insert_ne.
Qed.

(** ** The table after any sequence of executions *)

(** Successive calls of [record_plugin_execution]:
    [(plugin_name, execution_time, success)]. *)
Fixpoint record_all (events : list (string * Q * bool))
    (plugin_stats : stats_table) : stats_table :=
  match events with
  | [] => plugin_stats
  | (plugin_name, execution_time, success) :: rest =>
      record_all rest
        (record_plugin_execution plugin_name execution_time success plugin_stats)
  end.

(** The events of one plugin, in order. *)
Definition of_plugin (plugin_name : string) (events : list (string * Q * bool))
  : list (Q * bool) :=
  map (fun e => (snd (fst e), snd e))
    (List.filter (fun e => String.eqb (fst (fst e)) plugin_name) events).

Definition stat_of (plugin_stats : stats_table) (plugin_name : string)
  : plugin_stat :=
  match plugin_stats !! plugin_name with
  | Some s => s
  | None => empty_stat
  end.

Lemma stat_of_record_same (n : string) (t : Q) (b : bool) (stats : stats_table) :
  stat_of (record_plugin_execution n t b stats) n =
  mk_plugin_stat
    (S (total_executions (stat_of stats n)))
    (if b then S (successful_executions (stat_of stats n))
     else successful_executions (stat_of stats n))
    (total_time (stat_of stats n) + t)
    ((total_time (stat_of stats n) + t) /
     inject_Z (Z.of_nat (S (total_executions (stat_of stats n))))).
Proof.
  unfold stat_of, record_plugin_execution. cbv zeta.
  now rewrite lookup_insert_eq.
Qed.

Lemma stat_of_record_other (n k : string) (t : Q) (b : bool)
    (stats : stats_table) :
  k <> n -> stat_of (record_plugin_execution n t b stats) k = stat_of stats k.
Proof.
  intros Hne. unfold stat_of, record_plugin_execution. cbv zeta.
  now rewrite lookup_insert_ne by congruence.
Qed.

Lemma record_all_counts (events : list (string * Q * bool)) (k : string) :
  forall stats,
    let mine := of_plugin k events in
    let s := stat_of stats k in
    let s' := stat_of (record_all events stats) k in
    total_executions s' = total_executions s + length mine /\
    successful_executions s'
      = successful_executions s + length (List.filter snd mine) /\
    total_time s' = fold_left (fun acc e => (acc + fst e)%Q) mine (total_time s) /\
    (mine <> [] ->
     avg_execution_time s'
       = (total_time s' / inject_Z (Z.of_nat (total_executions s')))%Q).
Proof.
  induction events as [|[[n t] b] rest IH]; intros stats; cbv zeta.
  - cbn. split_and!; try lia; [reflexivity|congruence].
  - cbn [record_all]. specialize (IH (record_plugin_execution n t b stats)).
    cbv zeta in IH. destruct IH as (Htot & Hsucc & Htime & Havg).
    unfold of_plugin in *. cbn [List.filter fst snd].
    destruct (String.eqb_spec n k) as [->|Hne].
    + rewrite stat_of_record_same in *.
      cbn [total_executions successful_executions total_time] in *.
      cbn [map length fold_left List.filter fst snd].
      split_and!.
      * lia.
      * rewrite Hsucc. destruct b; cbn [length]; lia.
      * exact Htime.
      * intros _.
        destruct (map (fun e => (snd (fst e), snd e))
                    (List.filter (fun e => String.eqb (fst (fst e)) k) rest))
          as [|e es] eqn:Hrest; [|apply Havg; discriminate].
        assert (Hsame : stat_of (record_all rest
                                   (record_plugin_execution k t b stats)) k
                        = stat_of (record_plugin_execution k t b stats) k).
        { clear -Hrest. generalize (record_plugin_execution k t b stats).
          induction rest as [|[[n' t'] b'] rest IH]; intros st; [reflexivity|].
          cbn [record_all]. cbn [List.filter fst snd] in Hrest.
          destruct (String.eqb_spec n' k) as [->|Hne]; [discriminate|].
          rewrite IH by exact Hrest. apply stat_of_record_other. congruence. }
        rewrite Hsame, stat_of_record_same. reflexivity.
    + rewrite stat_of_record_other in * by congruence.
      split_and!; assumption.
Qed.

(** X12: after any sequence of [record_plugin_execution] calls on an empty
    table, a plugin's counters are the number of its executions and of its
    successful executions, its [total_time] is the sum of its execution
    times, successes never exceed executions, and for a plugin that has
    run [avg_execution_time] is [total_time / total_executions], with a
    positive divisor. *)
Theorem plugin_stats_count (events : list (string * Q * bool))
    (plugin_name : string) :
  let mine := of_plugin plugin_name events in
  let s := stat_of (record_all events ∅) plugin_name in
  total_executions s = length mine /\
  successful_executions s = length (List.filter snd mine) /\
  successful_executions s <= total_executions s /\
  total_time s = fold_left (fun acc e => (acc + fst e)%Q) mine 0%Q /\
  (mine <> [] ->
   0 < total_executions s /\
   avg_execution_time s
     = (total_time s / inject_Z (Z.of_nat (total_executions s)))%Q) /\
  (mine = [] -> record_all events ∅ !! plugin_name = None).
Proof.
  cbv zeta.
  destruct (record_all_counts events plugin_name ∅)
    as (Htot & Hsucc & Htime & Havg).
  assert (Hempty : stat_of (∅ : stats_table) plugin_name = empty_stat)
    by (unfold stat_of; now rewrite (lookup_empty (M := gmap string))).
  rewrite Hempty in *. cbn [empty_stat total_executions successful_executions
                              total_time] in *.
  split_and!.
  - lia.
  - lia.
  - rewrite Htot, Hsucc. cbn [Nat.add].
    apply (Security.filter_length_le snd (of_plugin plugin_name events)).
  - exact Htime.
  - intros Hne. split; [|now apply Havg].
    rewrite Htot. destruct (of_plugin plugin_name events); [congruence|].
    cbn [length]. lia.
  - intros Hnil. unfold of_plugin in Hnil. clear -Hnil.
    assert (H : forall stats : stats_table,
               stats !! plugin_name = None ->
               record_all events stats !! plugin_name = None).
    { induction events as [|[[n t] b] rest IH]; intros stats Hs; [exact Hs|].
      cbn [record_all]. cbn [List.filter fst snd] in Hnil.
      destruct (String.eqb_spec n plugin_name) as [->|Hne]; [discriminate|].
      apply IH; [exact Hnil|]. unfold record_plugin_execution. cbv zeta.
      now rewrite lookup_insert_ne by congruence. }
    apply H. apply (lookup_empty (M := gmap string)).
Qed.

(** ** Message counters *)

(** One item of [message_stats["per_minute"]]; the background thread
    appends them. *)
Record minute_stat : Type := mk_minute_stat {
  minute_received : nat;
  minute_processed : nat;
  minute_errors : nat
}.

(** [MonitorManager.message_stats]. *)
Record message_stats : Type := mk_message_stats {
  total_received : nat;
  total_processed : nat;
  total_errors : nat;
  response_times : list Q;
  per_minute : list minute_stat
}.

(** [d[-1] = f(d[-1])] for a non-empty [d]. *)
Fixpoint update_last {A : Type} (f : A -> A) (l : list A) : list A :=
  match l with
  | [] => []
  | [x] => [f x]
  | x :: l' => x :: update_last f l'
  end.

(** [deque(maxlen=n).append(x)]. *)
Definition deque_append {A : Type} (n : nat) (x : A) (l : list A) : list A :=
  drop (length (l ++ [x]) - n) (l ++ [x]).

Definition record_message_received (ms : message_stats) : message_stats :=
  mk_message_stats (S (total_received ms)) (total_processed ms)
    (total_errors ms) (response_times ms)
    (update_last (fun m => mk_minute_stat (S (minute_received m))
                             (minute_processed m) (minute_errors m))
       (per_minute ms)).

Definition record_message_processed (processing_time : Q) (ms : message_stats)
  : message_stats :=
  mk_message_stats (total_received ms) (S (total_processed ms))
    (total_errors ms)
    (deque_append 100 (processing_time * 1000)%Q (response_times ms))
    (update_last (fun m => mk_minute_stat (minute_received m)
                             (S (minute_processed m)) (minute_errors m))
       (per_minute ms)).

Definition record_message_error (ms : message_stats) : message_stats :=
  mk_message_stats (total_received ms) (total_processed ms)
    (S (total_errors ms)) (response_times ms)
    (update_last (fun m => mk_minute_stat (minute_received m)
                             (minute_processed m) (S (minute_errors m)))
       (per_minute ms)).

(** ** [_format_uptime] *)

(** [int(x)] for a float: the fractional part is dropped. *)
Definition truncate (x : Q) : Z := Z.quot (Qnum x) (Z.pos (Qden x)).

Inductive time_unit : Type := Days | Hours | Minutes | Seconds.

Definition label (u : time_unit) : string :=
  match u with
  | Days => "天"
  | Hours => "小时"
  | Minutes => "分钟"
  | Seconds => "秒"
  end.

Definition weight (u : time_unit) : Z :=
  match u with
  | Days => 86400
  | Hours => 3600
  | Minutes => 60
  | Seconds => 1
  end.

(** The list [parts] of [_format_uptime] before formatting: each number
    with its unit. *)
Definition uptime_parts (seconds : Q) : list (Z * time_unit) :=
  let days := (truncate seconds / 86400)%Z in
  let remainder := (truncate seconds mod 86400)%Z in
  let hours := (remainder / 3600)%Z in
  let remainder := (remainder mod 3600)%Z in
  let minutes := (remainder / 60)%Z in
  let seconds := (remainder mod 60)%Z in
  let parts := if (days >? 0)%Z then [(days, Days)] else [] in
  let parts :=
    if (hours >? 0)%Z || negb (Nat.eqb (length parts) 0)
    then parts ++ [(hours, Hours)] else parts in
  let parts :=
    if (minutes >? 0)%Z || negb (Nat.eqb (length parts) 0)
    then parts ++ [(minutes, Minutes)] else parts in
  parts ++ [(seconds, Seconds)].

Definition format_uptime (seconds : Q) : string :=
  String.concat " "
    (map (fun p => NilZero.string_of_int (Z.to_int (fst p)) +:+ label (snd p))
       (uptime_parts seconds)).

Definition parts_value (parts : list (Z * time_unit)) : Z :=
  fold_right (fun p acc => (fst p * weight (snd p) + acc)%Z) 0%Z parts.

(** X24: for a non-negative uptime the parts that [_format_uptime]
    prints add up to the whole seconds of the uptime (a unit that is left
    out is zero), the last part is the seconds, and every printed hour,
    minute and second count is within its range. *)
Theorem uptime_parts_add_up (seconds : Q) :
  (0 <= seconds)%Q ->
  parts_value (uptime_parts seconds) = truncate seconds /\
  (exists s, last (uptime_parts seconds) = Some (s, Seconds)) /\
  (forall n u, In (n, u) (uptime_parts seconds) ->
     (0 <= n)%Z /\ (u <> Days -> (n * weight u < match u with
                                               | Seconds => 60
                                               | Minutes => 3600
                                               | _ => 86400
                                               end)%Z)).
Proof.
  intros Hpos.
  assert (Hz : (0 <= truncate seconds)%Z).
  { unfold truncate. apply Z.quot_pos; [|lia].
    destruct seconds as [n d]. unfold Qle in Hpos. cbn in *. lia. }
  unfold uptime_parts. cbv zeta.
  set (z := truncate seconds) in *.
  pose proof (Z.div_mod z 86400 ltac:(lia)) as E1.
  pose proof (Z.mod_pos_bound z 86400 ltac:(lia)) as B1.
  pose proof (Z.div_mod (z mod 86400) 3600 ltac:(lia)) as E2.
  pose proof (Z.mod_pos_bound (z mod 86400) 3600 ltac:(lia)) as B2.
  pose proof (Z.div_mod ((z mod 86400) mod 3600) 60 ltac:(lia)) as E3.
  pose proof (Z.mod_pos_bound ((z mod 86400) mod 3600) 60 ltac:(lia)) as B3.
  pose proof (Z.div_pos z 86400 Hz ltac:(lia)) as P1.
  pose proof (Z.div_pos (z mod 86400) 3600 ltac:(lia) ltac:(lia)) as P2.
  pose proof (Z.div_pos ((z mod 86400) mod 3600) 60 ltac:(lia) ltac:(lia)) as P3.
  assert (H24 : (z mod 86400 / 3600 < 24)%Z)
    by (apply Z.div_lt_upper_bound; lia).
  assert (H60 : ((z mod 86400) mod 3600 / 60 < 60)%Z)
    by (apply Z.div_lt_upper_bound; lia).
  set (d := (z / 86400)%Z) in *.
  set (h := (z mod 86400 / 3600)%Z) in *.
  set (m := ((z mod 86400) mod 3600 / 60)%Z) in *.
  set (s := (((z mod 86400) mod 3600) mod 60)%Z) in *.
  destruct (Z.gtb_spec d 0) as [Hd|Hd]; cbn [length Nat.eqb negb orb app].
  - rewrite orb_true_r. cbn [app length Nat.eqb negb]. rewrite orb_true_r.
    cbn [app]. split_and!.
    + unfold parts_value. cbn [fold_right fst snd weight]. lia.
    + exists s. reflexivity.
    + intros n u [[= <- <-]|[[= <- <-]|[[= <- <-]|[[= <- <-]|[]]]]];
        cbn [weight]; split; try lia; congruence.
  - assert (d = 0%Z) by lia.
    destruct (Z.gtb_spec h 0) as [Hh|Hh]; cbn [length Nat.eqb negb orb app].
    + rewrite orb_true_r. cbn [app]. split_and!.
      * unfold parts_value. cbn [fold_right fst snd weight]. lia.
      * exists s. reflexivity.
      * intros n u [[= <- <-]|[[= <- <-]|[[= <- <-]|[]]]];
          cbn [weight]; split; try lia; congruence.
    + assert (h = 0%Z) by lia.
      destruct (Z.gtb_spec m 0) as [Hm|Hm]; cbn [length Nat.eqb negb orb app].
      * split_and!.
        -- unfold parts_value. cbn [fold_right fst snd weight]. lia.
        -- exists s. reflexivity.
        -- intros n u [[= <- <-]|[[= <- <-]|[]]];
             cbn [weight]; split; lia.
      * assert (m = 0%Z) by lia. split_and!.
        -- unfold parts_value. cbn [fold_right fst snd weight]. lia.
        -- exists s. reflexivity.
        -- intros n u [[= <- <-]|[]]; cbn [weight]; split; lia.
Qed.

Lemma uptime_parts_add_up_witness :
  parts_value (uptime_parts (187569 # 2)) = truncate (187569 # 2) /\
  (exists s, last (uptime_parts (187569 # 2)) = Some (s, Seconds)) /\
  (forall n u, In (n, u) (uptime_parts (187569 # 2)) ->
     (0 <= n)%Z /\ (u <> Days -> (n * weight u < match u with
                                               | Seconds => 60
                                               | Minutes => 3600
                                               | _ => 86400
                                               end)%Z)).
Proof.
  apply (uptime_parts_add_up (187569 # 2)). unfold Qle. cbn. lia.
Defined.

Example format_uptime_example :
  format_uptime (187569 # 2) = "1天 2小时 3分钟 4秒" /\
  format_uptime 59 = "59秒" /\ format_uptime 3600 = "1小时 0分钟 0秒".
Proof. split_and!; vm_compute; reflexivity. Qed.

End Monitor.

(* ===================================================================== *)
(** * Callback pre-checks and plugin dispatch ([core/handler.py]) *)
(* ===================================================================== *)

Module Handler.

(** ** Inbound events *)

(** A JSON scalar of the event mapping. *)
Inductive scalar : Type :=
| SNull
| SBool (b : bool)
| SInt (z : Z)
| SStr (s : string).

(** [str(v)]. *)
Definition py_str (v : scalar) : string :=
  match v with
  | SNull => "None"
  | SBool true => "True"
  | SBool false => "False"
  | SInt z => NilZero.string_of_int (Z.to_int z)
  | SStr s => s
  end.

(** The value of [d.get(key)]: [None] when the key is absent. *)
Definition or_none (o : option scalar) : scalar :=
  match o with Some v => v | None => SNull end.

(** [d.get(key, "")]. *)
Definition or_empty (o : option scalar) : scalar :=
  match o with Some v => v | None => SStr "" end.

(** [v == "literal"] for the result of [data.get(key)]. *)
Definition is_str (v : option scalar) (literal : string) : bool :=
  match v with
  | Some (SStr s) => String.eqb s literal
  | _ => false
  end.

(** An item of [data["message"]]: [item.get("type")] and
    [item.get("data", {}).get("qq")]. *)
Record segment : Type := mk_segment {
  seg_type : option scalar;
  seg_qq : option scalar
}.

(** The event mapping: its scalar items in order, [data["message"]] when
    that is a list, [data["sender"]["nickname"]] when present, and the
    length of [json.dumps(data, ensure_ascii=False)]. *)
Record event : Type := mk_event {
  fields : Dict.t scalar;
  message : option (list segment);
  sender_nickname : option string;
  dumps_length : nat
}.

Definition get (data : event) (key : string) : option scalar :=
  Dict.get (fields data) key.

(** [not data]: the mapping is empty. *)
Definition is_empty (data : event) : bool :=
  match fields data, message data, sender_nickname data with
  | [], None, None => true
  | _, _, _ => false
  end.

(** [len(s)]: the number of code points of the UTF-8 text. *)
Fixpoint py_len (s : string) : nat :=
  match s with
  | EmptyString => 0
  | String c s' =>
      let n := nat_of_ascii c in
      if (128 <=? n)%nat && (n <=? 191)%nat then py_len s' else S (py_len s')
  end.

(** [SecurityManager.validate_input(data)] on a mapping. *)
Definition validate_input (data : event) : bool :=
  if (Z.of_nat (dumps_length data) >? 50000)%Z then false
  else
    forallb (fun item =>
               match snd item with
               | SStr value => negb (Z.of_nat (py_len value) >? 5000)%Z
               | _ => true
               end) (fields data).

Record request : Type := mk_request {
  remote_addr : string;
  get_json : option event
}.

(** ** The gateway's state and its collaborators *)

Record outgoing : Type := mk_outgoing {
  out_target : string;
  out_content : string;
  out_chat_type : option scalar
}.

Record gateway : Type := mk_gateway {
  security : Security.manager;
  plugin_stats : Monitor.stats_table;
  outbox : list outgoing
}.

Definition with_security (sm : Security.manager) (gw : gateway) : gateway :=
  mk_gateway sm (plugin_stats gw) (outbox gw).

Definition with_stats (stats : Monitor.stats_table) (gw : gateway) : gateway :=
  mk_gateway (security gw) stats (outbox gw).

(** [send_http_msg(target, content, chat_type)]: it catches every
    [Exception] itself; the message handed over is recorded. *)
Definition send_http_msg (target content : string) (chat_type : option scalar)
    (gw : gateway) : gateway :=
  mk_gateway (security gw) (plugin_stats gw)
    (outbox gw ++ [mk_outgoing target content chat_type]).

(** What [callback_base] hands to [dispatch_plugin_cmd]. *)
Record parsed_data : Type := mk_parsed_data {
  pd_chat_type : option scalar;
  pd_sender_id : string;
  pd_target_id : string;
  pd_raw_msg : string;
  pd_nickname : string;
  pd_is_at_bot : bool;
  pd_data : event
}.

(** [jsonify({...}), status]. *)
Record response : Type := mk_response {
  retcode : Z;
  msg : option string;
  http_status : nat
}.

Inductive callback_result : Type :=
| Respond (r : response)
| Parsed (pd : parsed_data).

(** The import of the XiaoYu plugin inside [callback_base]. *)
Inductive xiaoyu_import : Type :=
| XiaoYuLoaded
| XiaoYuImportError
| XiaoYuFails (reason : string).

(** [handle_auto_reply] of the OpenAI plugin, imported inside
    [dispatch_plugin_cmd]. *)
Inductive reply_outcome : Type :=
| Reply (text : option string)
| ReplyFails (reason : string).

Inductive auto_reply_import : Type :=
| AutoReplyLoaded (handle_auto_reply : string -> reply_outcome)
| AutoReplyImportError
| AutoReplyFails (reason : string).

(** A plugin handler, as far as the gateway observes it: called on the
    parsed event, it returns or raises.  What a handler does to the
    outside world, or to the gateway through the references it is given,
    is not modelled. *)
Definition handler : Type := parsed_data -> Py.result unit.

Abbreviation plugin := (PluginManager.registered_plugin handler).

Section WithConfig.

(** The interpreter's table of decimal digits, which [is_valid_qq] reads. *)
Context {interp : Unicode.Interpreter}.

Variable ROBOT_QQ : string.
Variable MASTER_QQ : string.
(** Keys of [AUTO_REPLIES]. *)
Variable AUTO_REPLIES : list string.
Variable xiaoyu : xiaoyu_import.
Variable openai : auto_reply_import.
(** [SecurityManager.validate_command], consulted only for the built-in
    command. *)
Variable validate_command : string -> bool.

Definition ok : response := mk_response 0 None 200.

Definition rate_limited : response :=
  mk_response 429 (Some "请求频率过高，请稍后再试") 429.

Definition callback_error (reason : string) : response :=
  mk_response 1 (Some ("回调处理异常：" +:+ reason)) 500.

Definition dispatch_error (reason : string) : response :=
  mk_response 1 (Some ("指令处理异常：" +:+ reason)) 500.

(** ** [callback_base] *)

Definition is_at_segment (item : segment) : bool :=
  is_str (seg_type item) "at" &&
  String.eqb (py_str (or_none (seg_qq item))) ROBOT_QQ.

(** The outcome of the statements of [callback_base] that can raise for a
    message event: [data.get("raw_message", "").strip()]. *)
Definition raw_message (data : event) : Py.result string :=
  match get data "raw_message" with
  | None => Py.Returned (Str.strip "")
  | Some (SStr s) => Py.Returned (Str.strip s)
  | Some SNull =>
      Py.Raised (Py.OtherException "'NoneType' object has no attribute 'strip'")
  | Some (SBool _) =>
      Py.Raised (Py.OtherException "'bool' object has no attribute 'strip'")
  | Some (SInt _) =>
      Py.Raised (Py.OtherException "'int' object has no attribute 'strip'")
  end.

Definition nickname_of (data : event) : string :=
  match sender_nickname data with
  | Some n => n
  | None => "未知用户"
  end.

(** [callback_base()], for the request [req]; [t_ip] and [t_user] are the
    readings of [time.time()] inside the two [check_rate_limit] calls.
    Every [Exception] raised in the body ends in the status-500 answer.
    The auto-accept and welcome side requests go to the messaging
    platform only and change nothing here. *)
Definition callback_base (t_ip t_user : Q) (req : request) (gw : gateway)
  : callback_result * gateway :=
  let client_ip := remote_addr req in
  let '(ip_answer, sm) :=
    Security.manager_check_rate_limit t_ip client_ip (security gw) in
  let gw := with_security sm gw in
  if negb (Py.truthy_pair ip_answer) then (Respond rate_limited, gw)
  else
    match get_json req with
    | None => (Respond (mk_response 1 (Some "消息为空") 400), gw)
    | Some data =>
        if is_empty data then
          (Respond (mk_response 1 (Some "消息为空") 400), gw)
        else if negb (validate_input data) then
          (Respond (mk_response 403 (Some "输入内容不合法") 403), gw)
        else
          match xiaoyu with
          | XiaoYuFails reason => (Respond (callback_error reason), gw)
          | _ =>
              if negb (is_str (get data "post_type") "message") then
                (Respond ok,
                 with_security
                   (Security.log_audit_event sm "system"
                      (py_str (or_none (get data "post_type"))) None true) gw)
              else
                let chat_type := get data "message_type" in
                let sender_id := py_str (or_empty (get data "user_id")) in
                let target_id :=
                  py_str (or_empty (get data (if is_str chat_type "private"
                                              then "user_id" else "group_id"))) in
                match raw_message data with
                | Py.Raised e => (Respond (callback_error (Py.message e)), gw)
                | Py.Returned raw_msg =>
                    let nickname := nickname_of data in
                    let '(user_answer, sm) :=
                      Security.manager_check_rate_limit t_user
                        ("user_" +:+ sender_id) sm in
                    let gw := with_security sm gw in
                    if negb (Py.truthy_pair user_answer) then
                      (Respond ok,
                       if is_str chat_type "private"
                       then send_http_msg sender_id
                              "您的消息发送频率过高，请稍后再试"
                              (Some (SStr "private")) gw
                       else gw)
                    else
                      let is_at_bot :=
                        if is_str chat_type "group" then
                          match message data with
                          | Some items => existsb is_at_segment items
                          | None => Str.contains ("@" +:+ ROBOT_QQ) raw_msg
                          end
                        else false in
                      let raw_msg :=
                        if is_str chat_type "group" && is_at_bot
                        then Str.strip (Str.replace ("@" +:+ ROBOT_QQ) "" raw_msg)
                        else raw_msg in
                      if String.eqb sender_id ROBOT_QQ then (Respond ok, gw)
                      else
                        (Parsed (mk_parsed_data chat_type sender_id target_id
                                   raw_msg nickname is_at_bot data), gw)
                end
          end
    end.

(** ** [dispatch_plugin_cmd] *)

Definition about_content : string := "🏷️ 机器人基础信息
• 机器人框架：GracyBot
• 当前版本：v1.8.0
• 核心定位：基于Python3.10编写的企业级安全QQ机器人框架，可对接NapCat，欢迎大佬来开发插件
• 开发模式：插件独立运行的特定开发模式，每个插件编写导入文件，通过插件注册器注册所有插件，可独立开发插件，无需增减其它文件
🛠️ 框架产品特征
• 核心开发语言：Python 3.10+
• 安全防护：全局日志脱敏、危险命令拦截、权限分级校验、频率限制、企业级安全管理
• 插件管理：动态插件加载、指令自动分发、插件隔离运行
• 基础工具：结构化日志系统、统一消息发送接口、自动回复匹配
• 兼容环境：Linux（Debian 11+）、Windows 10+（UTF-8编码适配）
• 依赖组件版本：Flask 2.3.3、Requests 2.31.0、cryptography 41.0.7
📋 核心特性
1. 企业级安全：敏感信息自动脱敏、系统命令风险拦截、输入验证、频率限制、审计日志
2. 配置管理：集中化配置、环境变量支持、多级配置优先级
3. 插件生态：支持插件独立目录管理，无需修改核心即可扩展功能
4. 稳定可靠：超时请求保护、异常精准捕获、跨平台编码适配
5. 监控与可观测性：结构化日志、性能监控、健康检查
📞 维护信息
• 开发作者：QQ:192004908
• 版本更新记录：v1.8.0 升级为企业级架构，新增安全管理器、配置管理器和日志管理器".

(** [has_basic_perm or has_plugin_perm]. *)
Definition has_permission (sm : Security.manager) (sender_id : string) : bool :=
  fst (Security.check_permission sm sender_id "basic_query") ||
  fst (Security.check_permission sm sender_id "use_plugins").

(** [plugin_manager.get_matched_plugin(raw_msg, chat_type, sender_id,
    is_at_bot)]; a [chat_type] that is not a string is in no plugin's
    scene list. *)
Definition matched_plugin (registry : list plugin) (pd : parsed_data)
  : option plugin :=
  match pd_chat_type pd with
  | Some (SStr chat_type) =>
      PluginManager.get_matched_plugin handler MASTER_QQ registry
        (pd_raw_msg pd) chat_type (pd_sender_id pd) (pd_is_at_bot pd)
  | _ => None
  end.

(** The built-in [/关于] command: whether it was handled. *)
Definition builtin_about (pd : parsed_data) (gw : gateway) : bool * gateway :=
  if String.eqb (Str.strip (pd_raw_msg pd)) "/关于" then
    if validate_command (pd_raw_msg pd)
    then (true, send_http_msg (pd_target_id pd) about_content (pd_chat_type pd) gw)
    else (false, gw)
  else (false, gw).

(** The call of the matched plugin's handler inside its own [try]:
    [Py.Returned handled] when control stays in [dispatch_plugin_cmd],
    [Py.Raised e] when [e] leaves the [try] uncaught. *)
Definition run_plugin (t_start t_end : Q) (p : plugin) (pd : parsed_data)
    (gw : gateway) : Py.result bool * gateway :=
  let plugin_name := PluginManager.name (PluginManager.meta handler p) in
  let plugin_execution_time := (t_end - t_start)%Q in
  match PluginManager.handler_func handler p pd with
  | Py.Returned _ =>
      let gw := with_stats
                  (Monitor.record_plugin_execution plugin_name
                     plugin_execution_time true (plugin_stats gw)) gw in
      let gw := with_security
                  (Security.log_audit_event (security gw) (pd_sender_id pd)
                     "plugin_executed" (Some plugin_name) true) gw in
      (Py.Returned true, gw)
  | Py.Raised e =>
      if Py.is_Exception e then
        let gw := with_stats
                    (Monitor.record_plugin_execution plugin_name
                       plugin_execution_time false (plugin_stats gw)) gw in
        let gw := with_security
                    (Security.log_audit_event (security gw) (pd_sender_id pd)
                       "plugin_executed" (Some plugin_name) false) gw in
        (Py.Returned false, gw)
      else (Py.Raised e, gw)
  end.

(** The permission check, the match and the plugin call. *)
Definition plugin_stage (t_start t_end : Q) (registry : list plugin)
    (pd : parsed_data) (gw : gateway) : Py.result bool * gateway :=
  if has_permission (security gw) (pd_sender_id pd) then
    match matched_plugin registry pd with
    | Some p =>
        let plugin_name := PluginManager.name (PluginManager.meta handler p) in
        if Security.validate_plugin_access (security gw) plugin_name
             (pd_sender_id pd)
        then run_plugin t_start t_end p pd gw
        else
          (Py.Returned false,
           with_security
             (Security.log_audit_event (security gw) (pd_sender_id pd)
                "permission_denied" (Some "plugin") false) gw)
    | None => (Py.Returned false, gw)
    end
  else (Py.Returned false, gw).

Definition starts_with (prefix s : string) : bool := String.prefix prefix s.

(** The auto-reply fall-back for a message nothing has handled. *)
Definition auto_reply_stage (pd : parsed_data) (gw : gateway)
  : Py.result unit * gateway :=
  match openai with
  | AutoReplyImportError => (Py.Returned tt, gw)
  | AutoReplyFails reason => (Py.Raised (Py.OtherException reason), gw)
  | AutoReplyLoaded openai_auto_reply =>
      let raw_msg := pd_raw_msg pd in
      let chat_type := pd_chat_type pd in
      let is_special_command := Str.contains "小禹帮助" raw_msg in
      let is_auto_reply_match := bool_decide (raw_msg ∈ AUTO_REPLIES) in
      let is_private_direct_chat :=
        is_str chat_type "private" &&
        negb (starts_with "/" raw_msg || starts_with "//" raw_msg) &&
        negb is_special_command in
      let is_group_at_reply := is_str chat_type "group" && pd_is_at_bot pd in
      if is_auto_reply_match || is_private_direct_chat || is_group_at_reply then
        match openai_auto_reply raw_msg with
        | ReplyFails reason => (Py.Raised (Py.OtherException reason), gw)
        | Reply auto_reply =>
            if Py.truthy_opt_str auto_reply then
              let text := match auto_reply with Some r => r | None => "" end in
              if is_str chat_type "group"
              then (Py.Returned tt,
                    send_http_msg (pd_target_id pd) text (Some (SStr "group")) gw)
              else (Py.Returned tt,
                    send_http_msg (pd_sender_id pd) text (Some (SStr "private")) gw)
            else (Py.Returned tt, gw)
        end
      else (Py.Returned tt, gw)
  end.

(** [dispatch_plugin_cmd(parsed_data)]; [t_start] and [t_end] are the
    readings of [time.time()] around the handler call.  The outer
    [except Exception] turns an [Exception] into the status-500 answer;
    anything else leaves the function. *)
Definition dispatch_plugin_cmd (t_start t_end : Q) (registry : list plugin)
    (pd : parsed_data) (gw : gateway) : Py.result response * gateway :=
  let gw := with_security
              (Security.log_audit_event (security gw) (pd_sender_id pd)
                 "message_received" None true) gw in
  let '(handled, gw) := builtin_about pd gw in
  let '(stage, gw) :=
    if negb handled then plugin_stage t_start t_end registry pd gw
    else (Py.Returned handled, gw) in
  match stage with
  | Py.Raised e => (Py.Raised e, gw)
  | Py.Returned handled =>
      if negb handled then
        match auto_reply_stage pd gw with
        | (Py.Returned _, gw) => (Py.Returned ok, gw)
        | (Py.Raised e, gw) =>
            if Py.is_Exception e
            then (Py.Returned (dispatch_error (Py.message e)), gw)
            else (Py.Raised e, gw)
        end
      else (Py.Returned ok, gw)
  end.

(** ** The rate-limit answer does not gate the callback *)

(** A message event that passes the earlier stages is handed on for
    dispatch whatever [check_rate_limit] answers. *)
Lemma callback_base_message_is_parsed (t_ip t_user : Q) (req : request)
    (gw : gateway) (data : event) (raw_msg : string) :
  get_json req = Some data -> is_empty data = false ->
  validate_input data = true ->
  (forall reason, xiaoyu <> XiaoYuFails reason) ->
  is_str (get data "post_type") "message" = true ->
  raw_message data = Py.Returned raw_msg ->
  String.eqb (py_str (or_empty (get data "user_id"))) ROBOT_QQ = false ->
  exists pd, fst (callback_base t_ip t_user req gw) = Parsed pd /\
             pd_sender_id pd = py_str (or_empty (get data "user_id")).
Proof.
  intros Hjson Hne Hvalid Hx Hpost Hraw Hself. unfold callback_base.
  destruct (Security.manager_check_rate_limit t_ip (remote_addr req) (security gw))
    as [ip_answer sm]. cbn [Py.truthy_pair negb].
  rewrite Hjson, Hne, Hvalid, Hpost, Hraw. cbn [negb].
  destruct xiaoyu as [| |reason]; [| |now destruct (Hx reason)];
    (destruct (Security.manager_check_rate_limit t_user _ sm) as [user_answer sm'];
     cbn [Py.truthy_pair negb]; rewrite Hself; eexists; split; reflexivity).
Qed.

(** ** Containment of handler exceptions *)

Lemma check_permission_audit (sm : Security.manager) (u a : string)
    (r : option string) (b : bool) (user_id permission : string) :
  Security.check_permission (Security.log_audit_event sm u a r b) user_id permission
  = Security.check_permission sm user_id permission.
Proof. reflexivity. Qed.

Lemma validate_plugin_access_true (sm : Security.manager) (n u : string) :
  Security.validate_plugin_access sm n u = true.
Proof.
  unfold Security.validate_plugin_access.
  destruct (fst _); [reflexivity|]. now destruct (bool_decide _).
Qed.

Lemma builtin_about_state (pd : parsed_data) (gw : gateway) :
  security (snd (builtin_about pd gw)) = security gw /\
  plugin_stats (snd (builtin_about pd gw)) = plugin_stats gw.
Proof.
  unfold builtin_about.
  destruct (String.eqb _ _); [destruct (validate_command _)|]; now split.
Qed.

Lemma builtin_about_handled (pd : parsed_data) (gw : gateway) :
  fst (builtin_about pd gw) =
  String.eqb (Str.strip (pd_raw_msg pd)) "/关于" && validate_command (pd_raw_msg pd).
Proof.
  unfold builtin_about.
  destruct (String.eqb _ _); [destruct (validate_command _)|]; reflexivity.
Qed.

Lemma auto_reply_stage_stats (pd : parsed_data) (gw : gateway) :
  plugin_stats (snd (auto_reply_stage pd gw)) = plugin_stats gw.
Proof.
  unfold auto_reply_stage. destruct openai as [f| |reason]; try reflexivity.
  cbv zeta. destruct (_ || _); [|reflexivity].
  destruct (f (pd_raw_msg pd)) as [auto_reply|reason]; [|reflexivity].
  destruct (Py.truthy_opt_str auto_reply); [|reflexivity].
  now destruct (is_str _ _).
Qed.

Lemma auto_reply_stage_exception (pd : parsed_data) (gw : gateway) (e : Py.exn) :
  fst (auto_reply_stage pd gw) = Py.Raised e -> Py.is_Exception e = true.
Proof.
  unfold auto_reply_stage. destruct openai as [f| |reason]; cbn.
  - destruct (_ || _); [|discriminate].
    destruct (f (pd_raw_msg pd)) as [auto_reply|reason].
    + destruct (Py.truthy_opt_str auto_reply); [|discriminate].
      destruct (is_str _ _); discriminate.
    + now intros [= <-].
  - discriminate.
  - now intros [= <-].
Qed.

(** After a caught handler failure the dispatch goes on to the auto-reply
    stage, from a state whose statistics hold the failed execution. *)
Lemma dispatch_after_failure (t_start t_end : Q) (registry : list plugin)
    (pd : parsed_data) (gw : gateway) (p : plugin) (e : Py.exn) :
  String.eqb (Str.strip (pd_raw_msg pd)) "/关于" && validate_command (pd_raw_msg pd)
    = false ->
  has_permission (security gw) (pd_sender_id pd) = true ->
  matched_plugin registry pd = Some p ->
  PluginManager.handler_func handler p pd = Py.Raised e ->
  Py.is_Exception e = true ->
  exists gw3,
    plugin_stats gw3 =
      Monitor.record_plugin_execution
        (PluginManager.name (PluginManager.meta handler p))
        (t_end - t_start) false (plugin_stats gw) /\
    dispatch_plugin_cmd t_start t_end registry pd gw =
      match auto_reply_stage pd gw3 with
      | (Py.Returned _, g) => (Py.Returned ok, g)
      | (Py.Raised e', g) =>
          if Py.is_Exception e'
          then (Py.Returned (dispatch_error (Py.message e')), g)
          else (Py.Raised e', g)
      end.
Proof.
  intros Hbuiltin Hperm Hmatch Hraise Hexc. unfold dispatch_plugin_cmd.
  set (gw1 := with_security _ gw).
  pose proof (builtin_about_handled pd gw1) as Hh.
  pose proof (builtin_about_state pd gw1) as [Hsec Hstats].
  destruct (builtin_about pd gw1) as [handled gw2]. cbn [fst snd] in *.
  rewrite Hbuiltin in Hh. subst handled. cbn [negb].
  assert (Hperm2 : has_permission (security gw2) (pd_sender_id pd) = true).
  { rewrite Hsec. unfold gw1. cbn [security with_security].
    unfold has_permission in *. now rewrite !check_permission_audit. }
  unfold plugin_stage. rewrite Hperm2, Hmatch, validate_plugin_access_true.
  unfold run_plugin. cbv zeta. rewrite Hraise, Hexc. cbn [negb].
  eexists. split; [|reflexivity].
  cbn [plugin_stats with_security with_stats]. rewrite Hstats. reflexivity.
Qed.

(** C8 (as the code behaves): when the matched plugin's handler raises an
    exception that derives from [Exception], [dispatch_plugin_cmd] still
    returns a response, the accountant gains exactly one execution for
    that plugin and no success (one failed-execution record), and the
    statistics of the other plugins are untouched. *)
Theorem handler_exception_is_contained (t_start t_end : Q)
    (registry : list plugin) (pd : parsed_data) (gw : gateway) (p : plugin)
    (e : Py.exn) :
  String.eqb (Str.strip (pd_raw_msg pd)) "/关于" && validate_command (pd_raw_msg pd)
    = false ->
  has_permission (security gw) (pd_sender_id pd) = true ->
  matched_plugin registry pd = Some p ->
  PluginManager.handler_func handler p pd = Py.Raised e ->
  Py.is_Exception e = true ->
  let plugin_name := PluginManager.name (PluginManager.meta handler p) in
  let result := dispatch_plugin_cmd t_start t_end registry pd gw in
  (exists r, fst result = Py.Returned r) /\
  Monitor.executions (plugin_stats (snd result)) plugin_name
    = S (Monitor.executions (plugin_stats gw) plugin_name) /\
  Monitor.successes (plugin_stats (snd result)) plugin_name
    = Monitor.successes (plugin_stats gw) plugin_name /\
  (forall other, other <> plugin_name ->
     plugin_stats (snd result) !! other = plugin_stats gw !! other).
Proof.
  intros Hbuiltin Hperm Hmatch Hraise Hexc. cbv zeta.
  destruct (dispatch_after_failure t_start t_end registry pd gw p e
              Hbuiltin Hperm Hmatch Hraise Hexc) as (gw3 & Hstats3 & ->).
  pose proof (auto_reply_stage_stats pd gw3) as Hs.
  pose proof (auto_reply_stage_exception pd gw3) as He.
  destruct (auto_reply_stage pd gw3) as [[u|e'] gw4]; cbn [fst snd] in *.
  - split; [eauto|]. rewrite Hs, Hstats3. apply Monitor.record_failure.
  - rewrite (He e' eq_refl). cbn [fst snd]. split; [eauto|].
    rewrite Hs, Hstats3. apply Monitor.record_failure.
Qed.

(** ** Who reaches the plugins *)

(** X13: the permission check of the dispatch lets a sender through
    exactly when the id is well formed and not on the black list: every
    role holds [basic_query], so the role table and [use_plugins] play no
    part. *)
Theorem has_permission_spec (sm : Security.manager) (sender_id : string) :
  has_permission sm sender_id = true <->
  Security.is_valid_qq sender_id = true /\
  Security.blacklist sm !! sender_id = None.
Proof.
  unfold has_permission, Security.check_permission.
  destruct (Security.is_valid_qq sender_id); cbn [negb fst orb];
    [|split; [discriminate|intros [? _]; discriminate]].
  destruct (Security.blacklist sm !! sender_id) as [info|]; cbn [fst orb];
    [split; [discriminate|intros [_ ?]; discriminate]|].
  destruct (Security.get_user_role sm sender_id); cbn; tauto.
Qed.

(** X14: what [callback_base] hands on for dispatch is always a message
    event of the request that passed [validate_input], sent by someone
    other than the robot itself, with the sender id read from [user_id];
    nothing has been sent and no statistics have changed by then. *)
Theorem parsed_event_is_foreign_message (t_ip t_user : Q) (req : request)
    (gw : gateway) (pd : parsed_data) :
  fst (callback_base t_ip t_user req gw) = Parsed pd ->
  get_json req = Some (pd_data pd) /\
  is_str (get (pd_data pd) "post_type") "message" = true /\
  validate_input (pd_data pd) = true /\
  pd_sender_id pd = py_str (or_empty (get (pd_data pd) "user_id")) /\
  pd_sender_id pd <> ROBOT_QQ /\
  outbox (snd (callback_base t_ip t_user req gw)) = outbox gw /\
  plugin_stats (snd (callback_base t_ip t_user req gw)) = plugin_stats gw.
Proof.
  unfold callback_base.
  destruct (Security.manager_check_rate_limit t_ip (remote_addr req) (security gw))
    as [ip_answer sm].
  destruct (negb (Py.truthy_pair ip_answer)); [discriminate|].
  destruct (get_json req) as [data|]; [|discriminate].
  destruct (is_empty data); [discriminate|].
  destruct (validate_input data) eqn:Hvalid; cbn [negb]; [|discriminate].
  destruct (is_str (get data "post_type") "message") eqn:Hpost; cbn [negb].
  2:{ destruct xiaoyu; discriminate. }
  destruct (raw_message data) as [raw_msg|e].
  2:{ destruct xiaoyu; discriminate. }
  destruct (Security.manager_check_rate_limit t_user _ sm) as [user_answer sm'].
  destruct (negb (Py.truthy_pair user_answer)).
  { destruct xiaoyu; discriminate. }
  destruct (String.eqb_spec (py_str (or_empty (get data "user_id"))) ROBOT_QQ)
    as [Heq|Hne].
  { destruct xiaoyu; discriminate. }
  destruct xiaoyu; try discriminate;
    (intros [= <-]; cbn [fst snd pd_data pd_sender_id outbox plugin_stats
                         with_security];
     split_and!; try reflexivity; assumption).
Qed.

Lemma builtin_about_unhandled (pd : parsed_data) (gw : gateway) :
  fst (builtin_about pd gw) = false -> snd (builtin_about pd gw) = gw.
Proof.
  unfold builtin_about.
  destruct (String.eqb _ _); [destruct (validate_command _)|];
    [discriminate|reflexivity|reflexivity].
Qed.

Lemma auto_reply_stage_security (pd : parsed_data) (gw : gateway) :
  security (snd (auto_reply_stage pd gw)) = security gw.
Proof.
  unfold auto_reply_stage. destruct openai as [f| |reason]; try reflexivity.
  cbv zeta. destruct (_ || _); [|reflexivity].
  destruct (f (pd_raw_msg pd)) as [auto_reply|reason]; [|reflexivity].
  destruct (Py.truthy_opt_str auto_reply); [|reflexivity].
  now destruct (is_str _ _).
Qed.

(** X15: when the sender does not pass the permission check, or no plugin
    matches the message, [dispatch_plugin_cmd] still answers, no plugin
    execution is recorded, and the only audit record written is
    [message_received]: a refused sender leaves no record of the
    refusal. *)
Theorem unserved_message_runs_no_plugin (t_start t_end : Q)
    (registry : list plugin) (pd : parsed_data) (gw : gateway) :
  has_permission (security gw) (pd_sender_id pd) = false \/
  matched_plugin registry pd = None ->
  let result := dispatch_plugin_cmd t_start t_end registry pd gw in
  (exists r, fst result = Py.Returned r) /\
  plugin_stats (snd result) = plugin_stats gw /\
  security (snd result) =
    Security.log_audit_event (security gw) (pd_sender_id pd)
      "message_received" None true.
Proof.
  intros Hno. cbv zeta. unfold dispatch_plugin_cmd.
  set (gw1 := with_security _ gw).
  pose proof (builtin_about_state pd gw1) as [Hsec Hstats].
  destruct (builtin_about pd gw1) as [handled gw2]. cbn [fst snd] in *.
  destruct handled; cbn [negb].
  - cbn [fst snd]. split_and!; [eauto|now rewrite Hstats|now rewrite Hsec].
  - assert (Hstage : plugin_stage t_start t_end registry pd gw2
                     = (Py.Returned false, gw2)).
    { unfold plugin_stage. destruct Hno as [Hperm|Hmatch].
      - assert (Hp : has_permission (security gw2) (pd_sender_id pd) = false).
        { rewrite Hsec. unfold gw1. cbn [security with_security].
          unfold has_permission in *. now rewrite !check_permission_audit. }
        now rewrite Hp.
      - rewrite Hmatch. now destruct (has_permission _ _). }
    rewrite Hstage. cbn [negb].
    pose proof (auto_reply_stage_stats pd gw2) as Hs.
    pose proof (auto_reply_stage_security pd gw2) as Hsc.
    pose proof (auto_reply_stage_exception pd gw2) as He.
    destruct (auto_reply_stage pd gw2) as [[u|e'] gw4]; cbn [fst snd] in *.
    + split_and!; [eauto|now rewrite Hs, Hstats|now rewrite Hsc, Hsec].
    + rewrite (He e' eq_refl). cbn [fst snd].
      split_and!; [eauto|now rewrite Hs, Hstats|now rewrite Hsc, Hsec].
Qed.

(** X16: when the matched plugin's handler returns, the dispatch answers
    [retcode 0], records exactly one successful execution with the
    measured time, writes the [message_received] and the successful
    [plugin_executed] audit records, and sends nothing itself: the
    auto-reply fall-back is not consulted. *)
Theorem served_message_is_final (t_start t_end : Q) (registry : list plugin)
    (pd : parsed_data) (gw : gateway) (p : plugin) :
  String.eqb (Str.strip (pd_raw_msg pd)) "/关于" && validate_command (pd_raw_msg pd)
    = false ->
  has_permission (security gw) (pd_sender_id pd) = true ->
  matched_plugin registry pd = Some p ->
  PluginManager.handler_func handler p pd = Py.Returned tt ->
  let plugin_name := PluginManager.name (PluginManager.meta handler p) in
  let result := dispatch_plugin_cmd t_start t_end registry pd gw in
  fst result = Py.Returned ok /\
  plugin_stats (snd result) =
    Monitor.record_plugin_execution plugin_name (t_end - t_start) true
      (plugin_stats gw) /\
  outbox (snd result) = outbox gw /\
  security (snd result) =
    Security.log_audit_event
      (Security.log_audit_event (security gw) (pd_sender_id pd)
         "message_received" None true)
      (pd_sender_id pd) "plugin_executed" (Some plugin_name) true.
Proof.
  intros Hbuiltin Hperm Hmatch Hret. cbv zeta. unfold dispatch_plugin_cmd.
  set (gw1 := with_security _ gw).
  pose proof (builtin_about_handled pd gw1) as Hh.
  pose proof (builtin_about_unhandled pd gw1) as Hsame.
  destruct (builtin_about pd gw1) as [handled gw2]. cbn [fst snd] in *.
  rewrite Hbuiltin in Hh. subst handled. rewrite (Hsame eq_refl). cbn [negb].
  assert (Hperm1 : has_permission (security gw1) (pd_sender_id pd) = true).
  { unfold gw1. cbn [security with_security].
    unfold has_permission in *. now rewrite !check_permission_audit. }
  unfold plugin_stage. rewrite Hperm1, Hmatch, validate_plugin_access_true.
  unfold run_plugin. cbv zeta. rewrite Hret. cbn [negb fst snd].
  split_and!; reflexivity.
Qed.

End WithConfig.

(** ** A small gateway *)

Definition demo_meta (perm : string) : PluginManager.plugin_meta :=
  PluginManager.mk_plugin_meta "A" "1.0.0" ["foo"] "handle"
    ["private"; "group"] perm false [] "./plugins/A".

Definition demo_plugin (h : handler) : plugin :=
  PluginManager.mk_registered_plugin handler (demo_meta "all") h
    (PluginManager.mk_core_module handler (fun _ => None)).

Definition demo_security : Security.manager :=
  Security.mk_manager {["192004908" := Security.MASTER]} ∅ "" ∅ [].

Definition demo_gateway : gateway := mk_gateway demo_security ∅ [].

Definition demo_pd : parsed_data :=
  mk_parsed_data (Some (SStr "private")) "10001" "10001" "say foo please"
    "nick" false (mk_event [] None None 2).

Definition demo_dispatch (h : handler) : Py.result response * gateway :=
  dispatch_plugin_cmd "192004908" [] AutoReplyImportError (fun _ => false)
    0 (1 # 2) [demo_plugin h] demo_pd demo_gateway.

Lemma handler_exception_is_contained_witness :
  let h : handler := fun _ => Py.Raised (Py.OtherException "boom") in
  (exists r, fst (demo_dispatch h) = Py.Returned r) /\
  Monitor.executions (plugin_stats (snd (demo_dispatch h))) "A"
    = S (Monitor.executions (plugin_stats demo_gateway) "A") /\
  Monitor.successes (plugin_stats (snd (demo_dispatch h))) "A"
    = Monitor.successes (plugin_stats demo_gateway) "A" /\
  (forall other, other <> "A" ->
     plugin_stats (snd (demo_dispatch h)) !! other
     = plugin_stats demo_gateway !! other).
Proof.
  intros h.
  apply (handler_exception_is_contained "192004908" [] AutoReplyImportError
           (fun _ => false) 0 (1 # 2) [demo_plugin h] demo_pd demo_gateway
           (demo_plugin h) (Py.OtherException "boom")); reflexivity.
Defined.

(** The claim that every exception is contained fails for a handler that
    raises [SystemExit]: it leaves [dispatch_plugin_cmd] uncaught and no
    execution is recorded. *)
Lemma system_exit_escapes_dispatch :
  fst (demo_dispatch (fun _ => Py.Raised (Py.BaseOnly "SystemExit")))
    = Py.Raised (Py.BaseOnly "SystemExit") /\
  Monitor.executions
    (plugin_stats (snd (demo_dispatch (fun _ => Py.Raised (Py.BaseOnly "SystemExit")))))
    "A" = 0.
Proof. split; vm_compute; reflexivity. Qed.

Example handler_success_is_recorded :
  fst (demo_dispatch (fun _ => Py.Returned tt)) = Py.Returned ok /\
  Monitor.executions
    (plugin_stats (snd (demo_dispatch (fun _ => Py.Returned tt)))) "A" = 1 /\
  Monitor.successes
    (plugin_stats (snd (demo_dispatch (fun _ => Py.Returned tt)))) "A" = 1.
Proof. split_and!; vm_compute; reflexivity. Qed.

(** ** A caller over the limit *)

(** The gateway after caller 10001 has sent 60 messages during second 0
    to 59. *)
Definition busy_gateway : gateway :=
  mk_gateway
    (Security.mk_manager {["192004908" := Security.MASTER]} ∅ ""
       (snd (Security.run "user_10001" Security.sixty_stamps ∅)) [])
    ∅ [].

Definition message_61 : request :=
  mk_request "203.0.113.7"
    (Some (mk_event
             [("post_type", SStr "message"); ("message_type", SStr "private");
              ("user_id", SInt 10001); ("raw_message", SStr "say foo please")]
             None (Some "nick") 120)).

Definition callback_61 : callback_result * gateway :=
  callback_base "1972693082" XiaoYuImportError (119 # 2) (119 # 2) message_61
    busy_gateway.

(** C2 (failing input): caller 10001 has used its 60 requests of the
    current minute and the limiter denies the 61st, yet [callback_base]
    hands the message on and the dispatch runs the plugin handler. *)
Theorem rate_limited_request_reaches_plugin :
  fst (Security.check_rate_limit (119 # 2) "user_10001"
         (Security.requests (security busy_gateway)))
    = (false, Some Security.minute_denial) /\
  (exists pd,
     fst callback_61 = Parsed pd /\ pd_sender_id pd = "10001" /\
     pd_raw_msg pd = "say foo please" /\
     outbox (snd callback_61) = [] /\
     Monitor.successes
       (plugin_stats
          (snd (dispatch_plugin_cmd "192004908" [] AutoReplyImportError
                  (fun _ => false) 60 61 [demo_plugin (fun _ => Py.Returned tt)]
                  pd (snd callback_61)))) "A" = 1).
Proof.
  split; [vm_compute; reflexivity|].
  eexists. split; [vm_compute; reflexivity|].
  split_and!; vm_compute; reflexivity.
Qed.

Definition parsed_61 : parsed_data :=
  mk_parsed_data (Some (SStr "private")) "10001" "10001" "say foo please"
    "nick" false
    (mk_event
       [("post_type", SStr "message"); ("message_type", SStr "private");
        ("user_id", SInt 10001); ("raw_message", SStr "say foo please")]
       None (Some "nick") 120).

Lemma parsed_event_is_foreign_message_witness :
  get_json message_61 = Some (pd_data parsed_61) /\
  is_str (get (pd_data parsed_61) "post_type") "message" = true /\
  validate_input (pd_data parsed_61) = true /\
  pd_sender_id parsed_61 = py_str (or_empty (get (pd_data parsed_61) "user_id")) /\
  pd_sender_id parsed_61 <> "1972693082" /\
  outbox (snd (callback_base "1972693082" XiaoYuImportError 0 0 message_61
                 demo_gateway)) = outbox demo_gateway /\
  plugin_stats (snd (callback_base "1972693082" XiaoYuImportError 0 0 message_61
                       demo_gateway)) = plugin_stats demo_gateway.
Proof.
  apply (parsed_event_is_foreign_message "1972693082" XiaoYuImportError 0 0
           message_61 demo_gateway parsed_61).
  vm_compute. reflexivity.
Defined.

(** A sender on the black list. *)
Definition banned_gateway : gateway :=
  mk_gateway (Security.add_to_blacklist demo_security "10001" "spam" 0) ∅ [].

Lemma unserved_message_runs_no_plugin_witness :
  let result :=
    dispatch_plugin_cmd "192004908" [] AutoReplyImportError (fun _ => false)
      0 (1 # 2) [demo_plugin (fun _ => Py.Returned tt)] demo_pd banned_gateway in
  (exists r, fst result = Py.Returned r) /\
  plugin_stats (snd result) = plugin_stats banned_gateway /\
  security (snd result) =
    Security.log_audit_event (security banned_gateway) (pd_sender_id demo_pd)
      "message_received" None true.
Proof.
  apply (unserved_message_runs_no_plugin "192004908" [] AutoReplyImportError
           (fun _ => false) 0 (1 # 2) [demo_plugin (fun _ => Py.Returned tt)]
           demo_pd banned_gateway).
  left. vm_compute. reflexivity.
Defined.

Lemma served_message_is_final_witness :
  let p := demo_plugin (fun _ => Py.Returned tt) in
  let result :=
    dispatch_plugin_cmd "192004908" [] AutoReplyImportError (fun _ => false)
      0 (1 # 2) [p] demo_pd demo_gateway in
  fst result = Py.Returned ok /\
  plugin_stats (snd result) =
    Monitor.record_plugin_execution "A" ((1 # 2) - 0) true
      (plugin_stats demo_gateway) /\
  outbox (snd result) = outbox demo_gateway /\
  security (snd result) =
    Security.log_audit_event
      (Security.log_audit_event (security demo_gateway) (pd_sender_id demo_pd)
         "message_received" None true)
      (pd_sender_id demo_pd) "plugin_executed" (Some "A") true.
Proof.
  intros p.
  apply (served_message_is_final "192004908" [] AutoReplyImportError
           (fun _ => false) 0 (1 # 2) [p] demo_pd demo_gateway p); reflexivity.
Defined.

End Handler.

(* ===================================================================== *)
(** * Input validation and content filters ([core/security_manager.py]) *)
(* ===================================================================== *)

Module Validator.

(** [re.search] of a character class: some character of [s] is in it. *)
Fixpoint any_char (f : ascii -> bool) (s : string) : bool :=
  match s with
  | EmptyString => false
  | String c s' => f c || any_char f s'
  end.

(** [c in s] for a single character [c]. *)
Definition occurs (c : ascii) (s : string) : bool := any_char (Ascii.eqb c) s.

Abbreviation code := Str.code.

(** A byte that continues a UTF-8 sequence. *)
Definition is_continuation (c : ascii) : bool :=
  (128 <=? code c)%nat && (code c <=? 191)%nat.

(** [s[:n]]: the first [n] code points of the UTF-8 text. *)
Fixpoint py_take (n : nat) (s : string) : string :=
  match s with
  | EmptyString => EmptyString
  | String c s' =>
      if is_continuation c then String c (py_take n s')
      else match n with
           | O => EmptyString
           | S n' => String c (py_take n' s')
           end
  end.

(** ** [InputValidator.is_valid_command] *)

(** The characters of the literal ['\x00-\x1F\x7F']: NUL, the hyphen, US
    and DEL. *)
Definition command_blacklist : list ascii :=
  ["000"; "-"; "031"; "127"]%char.

Definition is_valid_command (cmd : string) : bool :=
  match cmd with
  | EmptyString => false
  | _ =>
      if (500 <? Handler.py_len cmd)%nat then false
      else if existsb (fun c => occurs c cmd) command_blacklist then false
      else true
  end.

(** ** [InputValidator.sanitize_input] *)

Definition html_escape_table (c : ascii) : string :=
  if Ascii.eqb c "&"%char then "&amp;"
  else if Ascii.eqb c "<"%char then "&lt;"
  else if Ascii.eqb c ">"%char then "&gt;"
  else if Ascii.eqb c "034"%char then "&quot;"
  else if Ascii.eqb c "'"%char then "&#39;"
  else if Ascii.eqb c "/"%char then "&#47;"
  else String c EmptyString.

Fixpoint escape (s : string) : string :=
  match s with
  | EmptyString => EmptyString
  | String c s' => html_escape_table c +:+ escape s'
  end.

(** The class [[\x00-\x1F\x7F]]. *)
Definition is_control (c : ascii) : bool :=
  (code c <=? 31)%nat || (code c =? 127)%nat.

Fixpoint remove_control (s : string) : string :=
  match s with
  | EmptyString => EmptyString
  | String c s' =>
      if is_control c then remove_control s' else String c (remove_control s')
  end.

(** White-space code points are those of [str.strip]. *)
Abbreviation ws_width := Str.ws_width.

Definition emit (word : string) : list string :=
  match word with
  | EmptyString => []
  | _ => [word]
  end.

(** [s.split()]: the maximal runs without white space.  [skip] counts
    the bytes of a white-space code point still to be dropped, [word] is
    the run read so far. *)
Fixpoint split_from (skip : nat) (word : string) (s : string) : list string :=
  match s with
  | EmptyString => emit word
  | String c s' =>
      match skip with
      | S k => split_from k word s'
      | O =>
          match ws_width s with
          | O => split_from 0 (word +:+ String c EmptyString) s'
          | S k => emit word ++ split_from k EmptyString s'
          end
      end
  end.

Definition split (s : string) : list string := split_from 0 EmptyString s.

Definition sanitize_input (content : string) (max_length : nat) : string :=
  let content :=
    if (max_length <? Handler.py_len content)%nat
    then py_take max_length content else content in
  let content := escape content in
  let content := remove_control content in
  Str.join " " (split content).

(** ** [SecurityManager.filter_dangerous_content] and [validate_command] *)

Definition dangerous_commands : list string :=
  ["rm\s+-rf"; "shutdown"; "init\s+0"; "reboot"; "mkfs|mke2fs";
   "dd\s+if=.*of=.*"; "chmod\s+777"; "sudo\s+su"].

(** The class of [sensitive_pattern]. *)
Definition is_sensitive (c : ascii) : bool :=
  existsb (Ascii.eqb c) [";"; "&"; "|"; "$"; "<"; ">"; "'"; "034"; "`"]%char.

Definition sql_patterns : list string :=
  ["\b(select|insert|update|delete|drop|truncate|alter)\b.*?\b(from|into|table|database)\b";
   "\bunion\s+select\b"; "--|#"; ";\s*[a-zA-Z]"].

Section WithRegex.

(** [re.search(pattern, content, re.IGNORECASE)] as a truth value. *)
Variable re_search : string -> string -> bool.

Definition filter_dangerous_content (content : string) : bool * option string :=
  let content := sanitize_input content 1000 in
  match List.find (fun pattern => re_search pattern content) dangerous_commands with
  | Some pattern => (false, Some ("检测到危险命令模式：" +:+ pattern))
  | None =>
      if any_char is_sensitive content then
        (false, Some "内容包含敏感字符，可能存在安全风险")
      else
        match List.find (fun pattern => re_search pattern content) sql_patterns with
        | Some _ => (false, Some "检测到潜在的SQL注入攻击")
        | None => (true, None)
        end
  end.

Definition safe_commands : list string := ["/关于"; "/help"; "/菜单"].

Definition validate_command (command : string) : bool :=
  if (200 <? Handler.py_len command)%nat then false
  else if negb (fst (filter_dangerous_content command)) then false
  else if bool_decide (Str.strip command ∈ safe_commands) then true
  else true.

End WithRegex.

(** ** Characters that never pass *)

(** The characters [sanitize_input] escapes and those of the sensitive
    class. *)
Definition is_special (c : ascii) : bool := is_sensitive c || Ascii.eqb c "/"%char.

(** Sensitive characters that [sanitize_input] leaves in place. *)
Definition survives (c : ascii) : bool :=
  existsb (Ascii.eqb c) [";"; "&"; "|"; "$"; "`"]%char.

Lemma any_char_app (f : ascii -> bool) (s t : string) :
  any_char f (s +:+ t) = any_char f s || any_char f t.
Proof.
  induction s as [|c s IH]; [reflexivity|].
  change (f c || any_char f (s +:+ t) = f c || any_char f s || any_char f t).
  now rewrite IH, orb_assoc.
Qed.

Lemma any_char_exists (f : ascii -> bool) (s : string) :
  any_char f s = true <-> exists c, occurs c s = true /\ f c = true.
Proof.
  unfold occurs. induction s as [|d s IH]; cbn [any_char].
  - split; [discriminate|now intros (c & ? & _)].
  - rewrite orb_true_iff, IH. split.
    + intros [Hd|(c & Hc & Hf)].
      * exists d. now rewrite Ascii.eqb_refl.
      * exists c. now rewrite Hc, orb_true_r.
    + intros (c & Hc & Hf). apply orb_true_iff in Hc as [Hc|Hc].
      * apply Ascii.eqb_eq in Hc as ->. now left.
      * right. now exists c.
Qed.

Lemma survives_sensitive (c : ascii) : survives c = true -> is_sensitive c = true.
Proof.
  unfold survives. cbn [existsb]. rewrite !orb_true_iff.
  intros [H|[H|[H|[H|[H|H]]]]]; try discriminate;
    apply Ascii.eqb_eq in H as ->; reflexivity.
Qed.

Lemma survives_plain (c : ascii) :
  survives c = true ->
  is_control c = false /\ Str.is_space c = false /\ (code c <? 128)%nat = true.
Proof.
  unfold survives. cbn [existsb]. rewrite !orb_true_iff.
  intros [H|[H|[H|[H|[H|H]]]]]; try discriminate;
    apply Ascii.eqb_eq in H as ->; now vm_compute.
Qed.

Lemma escape_special (s : string) :
  any_char is_special s = true -> any_char survives (escape s) = true.
Proof.
  induction s as [|c s IH]; [discriminate|]. cbn [any_char escape].
  rewrite any_char_app. intros H. apply orb_true_iff in H as [H|H].
  - apply orb_true_iff. left. unfold html_escape_table.
    destruct (Ascii.eqb_spec c "&"%char); [reflexivity|].
    destruct (Ascii.eqb_spec c "<"%char); [reflexivity|].
    destruct (Ascii.eqb_spec c ">"%char); [reflexivity|].
    destruct (Ascii.eqb_spec c "034"%char); [reflexivity|].
    destruct (Ascii.eqb_spec c "'"%char); [reflexivity|].
    destruct (Ascii.eqb_spec c "/"%char); [reflexivity|].
    cbn [any_char]. rewrite orb_false_r.
    unfold is_special, is_sensitive, survives in *. cbn [existsb] in *.
    repeat match goal with
           | Hn : c <> _ |- _ => apply Ascii.eqb_neq in Hn; rewrite Hn in H
           end.
    cbn [orb] in *. rewrite !orb_false_r in H.
    destruct (Ascii.eqb c ";"%char); [reflexivity|].
    destruct (Ascii.eqb c "|"%char); [now rewrite !orb_true_r|].
    destruct (Ascii.eqb c "$"%char); [now rewrite !orb_true_r|].
    cbn [orb] in *. now rewrite H, !orb_true_r.
  - rewrite (IH H). apply orb_true_r.
Qed.

Lemma remove_control_keeps (f : ascii -> bool) (s : string) :
  (forall c, f c = true -> is_control c = false) ->
  any_char f s = true -> any_char f (remove_control s) = true.
Proof.
  intros Hf. induction s as [|c s IH]; [discriminate|].
  cbn [any_char remove_control]. intros H.
  destruct (is_control c) eqn:Hc.
  - apply orb_true_iff in H as [H|H]; [|now apply IH].
    apply Hf in H. congruence.
  - cbn [any_char]. apply orb_true_iff in H as [H|H];
      [now rewrite H|rewrite (IH H); apply orb_true_r].
Qed.

(** The first [skip] bytes of [s] are not ASCII. *)
Fixpoint high_prefix (skip : nat) (s : string) : Prop :=
  match skip, s with
  | S k, String c s' => (code c <? 128)%nat = false /\ high_prefix k s'
  | _, _ => True
  end.

Lemma ws_width_high (c : ascii) (s : string) (k : nat) :
  ws_width (String c s) = S k ->
  (Str.is_space c = true \/ (code c <? 128)%nat = false) /\ high_prefix k s.
Proof.
  cbn [ws_width]. destruct (Str.is_space c) eqn:Hsp.
  - intros [= <-]. split; [now left|exact I].
  - destruct s as [|d s]; [discriminate|].
    destruct (Nat.eqb_spec (code c) 194) as [Hc|_].
    + destruct (Nat.eqb_spec (code d) 133) as [Hd|_]; cbn [orb].
      * intros [= <-]. cbn [high_prefix]. rewrite Hc, Hd.
        split_and!; solve [exact I | reflexivity | right; reflexivity].
      * destruct (Nat.eqb_spec (code d) 160) as [Hd|_]; [|discriminate].
        intros [= <-]. cbn [high_prefix]. rewrite Hc, Hd.
        split_and!; solve [exact I | reflexivity | right; reflexivity].
    + destruct s as [|e s]; [discriminate|].
      destruct (Nat.eqb_spec (code c) 225) as [Hc|_].
      { destruct (Nat.eqb_spec (code d) 154) as [Hd|_]; [|discriminate].
        destruct (Nat.eqb_spec (code e) 128) as [He|_]; [|discriminate].
        intros [= <-]. cbn [high_prefix]. rewrite Hc, Hd, He.
        split_and!; solve [exact I | reflexivity | right; reflexivity]. }
      destruct (Nat.eqb_spec (code c) 226) as [Hc|_].
      { destruct (_ || _) eqn:Hde; [|discriminate]. intros [= <-].
        cbn [high_prefix]. rewrite Hc.
        assert (128 <= code d /\ 128 <= code e) as [Hd He].
        { apply orb_true_iff in Hde as [Hde|Hde];
            apply andb_true_iff in Hde as [Hd He];
            apply Nat.eqb_eq in Hd.
          - split; [lia|]. rewrite !orb_true_iff, andb_true_iff in He.
            rewrite !Nat.eqb_eq, !Nat.leb_le in He. lia.
          - apply Nat.eqb_eq in He. lia. }
        split_and!; try exact I; [right; reflexivity| |];
          apply Nat.ltb_ge; assumption. }
      destruct (Nat.eqb_spec (code c) 227) as [Hc|_]; [|discriminate].
      destruct (Nat.eqb_spec (code d) 128) as [Hd|_]; [|discriminate].
      destruct (Nat.eqb_spec (code e) 128) as [He|_]; [|discriminate].
      intros [= <-]. cbn [high_prefix]. rewrite Hc, Hd, He.
      split_and!; solve [exact I | reflexivity | right; reflexivity].
Qed.

Lemma occurs_emit (c : ascii) (word : string) :
  occurs c word = true -> exists w, In w (emit word) /\ occurs c w = true.
Proof.
  destruct word as [|d word]; [discriminate|]. intros H.
  exists (String d word). split; [now left|exact H].
Qed.

Lemma split_from_keeps (c : ascii) :
  Str.is_space c = false -> (code c <? 128)%nat = true ->
  forall s skip word,
    high_prefix skip s ->
    occurs c word || occurs c s = true ->
    exists w, In w (split_from skip word s) /\ occurs c w = true.
Proof.
  intros Hsp Hlow. induction s as [|d s IH]; intros skip word Hhigh H.
  - cbn [split_from]. apply occurs_emit.
    unfold occurs in H. cbn [any_char] in H. now rewrite orb_false_r in H.
  - assert (Hd : forall k, ws_width (String d s) = S k \/
                           (code d <? 128)%nat = false ->
                           Ascii.eqb c d = false).
    { intros k Hk. apply Ascii.eqb_neq. intros ->.
      destruct Hk as [Hk|Hk]; [|congruence].
      apply ws_width_high in Hk as [[Hk|Hk] _]; congruence. }
    cbn [split_from]. destruct skip as [|k].
    + destruct (ws_width (String d s)) as [|k] eqn:Hw.
      * apply IH; [exact I|].
        unfold occurs in *. rewrite any_char_app. cbn [any_char] in *.
        rewrite orb_false_r, <- orb_assoc. exact H.
      * apply orb_true_iff in H as [H|H].
        -- destruct (occurs_emit c word H) as (w & Hin & Hw').
           exists w. split; [|exact Hw']. apply in_or_app. now left.
        -- destruct (IH k EmptyString) as (w & Hin & Hw').
           ++ now apply ws_width_high in Hw as [_ Hw].
           ++ unfold occurs in *. cbn [any_char] in *.
              rewrite (Hd k) in H by now left. exact H.
           ++ exists w. split; [|exact Hw']. apply in_or_app. now right.
    + cbn [high_prefix] in Hhigh. destruct Hhigh as [Hdh Hhigh].
      apply IH; [exact Hhigh|]. unfold occurs in *. cbn [any_char] in *.
      rewrite (Hd 0) in H by now right. exact H.
Qed.

Lemma occurs_join (c : ascii) (sep w : string) (l : list string) :
  In w l -> occurs c w = true -> occurs c (Str.join sep l) = true.
Proof.
  unfold Str.join, occurs. intros Hin Hw.
  induction l as [|x l IH]; [destruct Hin|]. cbn [String.concat].
  destruct Hin as [->|Hin].
  - destruct l; [exact Hw|]. rewrite any_char_app, Hw. reflexivity.
  - destruct l as [|y l]; [destruct Hin|].
    rewrite !any_char_app, (IH Hin). now rewrite !orb_true_r.
Qed.

Lemma sanitize_keeps_special (content : string) (max_length : nat) :
  Handler.py_len content <= max_length ->
  any_char is_special content = true ->
  any_char is_sensitive (sanitize_input content max_length) = true.
Proof.
  intros Hlen H. unfold sanitize_input.
  destruct (Nat.ltb_spec max_length (Handler.py_len content)); [lia|].
  apply escape_special in H.
  apply (remove_control_keeps survives) in H;
    [|intros c Hc; now apply survives_plain in Hc].
  apply any_char_exists in H as (c & Hc & Hs).
  destruct (survives_plain c Hs) as (_ & Hsp & Hlow).
  destruct (split_from_keeps c Hsp Hlow (remove_control (escape content)) 0
              EmptyString I) as (w & Hin & Hw).
  { now rewrite Hc, orb_true_r. }
  apply any_char_exists. exists c. split.
  - now apply occurs_join with (w := w).
  - now apply survives_sensitive.
Qed.

Lemma filter_rejects_special (re_search : string -> string -> bool)
    (content : string) :
  Handler.py_len content <= 1000 ->
  any_char is_special content = true ->
  fst (filter_dangerous_content re_search content) = false.
Proof.
  intros Hlen H.
  assert (Hs : any_char is_sensitive (sanitize_input content 1000) = true)
    by (apply sanitize_keeps_special; [exact Hlen|exact H]).
  unfold filter_dangerous_content. cbv zeta.
  destruct (List.find _ dangerous_commands); [reflexivity|].
  now rewrite Hs.
Qed.

(** X17: [validate_command] rejects every command in which a semicolon,
    an ampersand, a vertical bar, a dollar sign, an angle bracket, a
    single or double quote, a backquote or a slash occurs, whatever the
    regular expression searches answer: [sanitize_input] turns such a
    character into, or leaves it as, a character of the sensitive class.
    A command that starts with a slash is therefore never valid. *)
Theorem validate_command_rejects_special (re_search : string -> string -> bool)
    (command : string) :
  any_char is_special command = true ->
  validate_command re_search command = false.
Proof.
  intros H. unfold validate_command.
  destruct (Nat.ltb_spec 200 (Handler.py_len command)) as [|Hlen];
    [reflexivity|].
  rewrite filter_rejects_special; [reflexivity|lia|exact H].
Qed.

Lemma validate_command_rejects_special_witness :
  validate_command (fun _ _ => false) "/help" = false.
Proof.
  apply (validate_command_rejects_special (fun _ _ => false) "/help").
  reflexivity.
Defined.

(** ** The literal of [is_valid_command] is not a range *)

(** X19: [is_valid_command] tests the four characters of the literal
    ['\x00-\x1F\x7F'] and not a range: every command that contains a
    hyphen is rejected, while a non-empty command of at most 500
    characters made only of control characters U+0001 to U+001E (tab,
    line feed, escape, ...) is accepted. *)
Theorem is_valid_command_literal_class :
  (forall cmd, occurs "-" cmd = true -> is_valid_command cmd = false) /\
  (forall cmd,
     cmd <> EmptyString -> Handler.py_len cmd <= 500 ->
     (forall c, occurs c cmd = true -> 1 <= code c <= 30) ->
     is_valid_command cmd = true).
Proof.
  split.
  - intros cmd H. unfold is_valid_command.
    destruct cmd as [|c cmd]; [reflexivity|].
    destruct (_ <? _)%nat; [reflexivity|].
    unfold command_blacklist. cbn [existsb]. rewrite H.
    now rewrite orb_true_r.
  - intros cmd Hne Hlen Hctl. unfold is_valid_command.
    destruct cmd as [|c cmd]; [congruence|].
    destruct (Nat.ltb_spec 500 (Handler.py_len (String c cmd))); [lia|].
    assert (Hno : forall d, (code d = 0 \/ 31 <= code d) ->
                            occurs d (String c cmd) = false).
    { intros d Hd. destruct (occurs d (String c cmd)) eqn:Ho; [|reflexivity].
      apply Hctl in Ho. lia. }
    unfold command_blacklist. cbn [existsb].
    rewrite !Hno; [reflexivity| | | |]; vm_compute; lia.
Qed.

(** ** The built-in command *)

Lemma occurs_lstrip_from (c : ascii) (s : string) :
  forall skip,
    occurs c (Str.lstrip_from skip s) = true -> occurs c s = true.
Proof.
  unfold occurs. induction s as [|d s IH]; intros skip.
  - cbn [Str.lstrip_from]. discriminate.
  - cbn [Str.lstrip_from]. destruct skip as [|k].
    + destruct (Str.ws_width (String d s)) as [|k]; [trivial|].
      intros H. cbn [any_char]. now rewrite (IH k H), orb_true_r.
    + intros H. cbn [any_char]. now rewrite (IH k H), orb_true_r.
Qed.

Lemma occurs_lstrip (c : ascii) (s : string) :
  occurs c (Str.lstrip s) = true -> occurs c s = true.
Proof. apply occurs_lstrip_from. Qed.

Lemma occurs_rstrip (c : ascii) (s : string) :
  occurs c (Str.rstrip s) = true -> occurs c s = true.
Proof.
  unfold occurs. induction s as [|d s IH]; [discriminate|].
  cbn [Str.rstrip]. destruct (Str.all_space_from 0 (String d s));
    [discriminate|].
  cbn [any_char]. intros H. apply orb_true_iff in H as [H|H].
  - now rewrite H.
  - rewrite (IH H). apply orb_true_r.
Qed.

(** X18: with [SecurityManager.validate_command] as the command check,
    the built-in [/关于] command of [dispatch_plugin_cmd] is never served:
    for every message the built-in stage reports "not handled" and leaves
    the gateway as it was (no information message is sent), so the message
    goes on to the plugin stage. *)
Theorem builtin_about_is_never_served (re_search : string -> string -> bool)
    (pd : Handler.parsed_data) (gw : Handler.gateway) :
  Handler.builtin_about (validate_command re_search) pd gw = (false, gw).
Proof.
  unfold Handler.builtin_about.
  destruct (String.eqb_spec (Str.strip (Handler.pd_raw_msg pd)) "/关于")
    as [Heq|_]; [|reflexivity].
  assert (Hslash : occurs "/" (Handler.pd_raw_msg pd) = true).
  { apply occurs_lstrip, occurs_rstrip.
    change (occurs "/" (Str.strip (Handler.pd_raw_msg pd)) = true).
    now rewrite Heq. }
  assert (Hsp : any_char is_special (Handler.pd_raw_msg pd) = true).
  { apply any_char_exists. exists "/"%char. now split. }
  unfold validate_command.
  destruct (Nat.ltb_spec 200 (Handler.py_len (Handler.pd_raw_msg pd)))
    as [|Hlen]; [reflexivity|].
  rewrite filter_rejects_special; [reflexivity|lia|exact Hsp].
Qed.

End Validator.

(* ===================================================================== *)
(** * The callback route ([bot.py]) *)
(* ===================================================================== *)

Module Bot.

(** What [request.get_json()] does: it raises, or returns the parsed body
    ([None] for a body that parses to nothing). *)
Inductive json_body : Type :=
| Unreadable
| Body (data : option Handler.event).

Record http_request : Type := mk_http_request {
  content_type : option string;
  remote_addr : string;
  body : json_body
}.

(** The gateway with the monitor's message counters. *)
Record server : Type := mk_server {
  gateway : Handler.gateway;
  stats : Monitor.message_stats
}.

Section WithConfig.

(** The interpreter's table of decimal digits, which [is_valid_qq] reads. *)
Context {interp : Unicode.Interpreter}.

Variable ROBOT_QQ : string.
Variable MASTER_QQ : string.
Variable AUTO_REPLIES : list string.
Variable xiaoyu : Handler.xiaoyu_import.
Variable openai : Handler.auto_reply_import.
Variable validate_command : string -> bool.

(** The readings of [time.time()] during one request. *)
Record clock : Type := mk_clock {
  t_begin : Q;
  t_ip : Q;
  t_user : Q;
  t_plugin_start : Q;
  t_plugin_end : Q;
  t_done : Q
}.

(** [callback()], the [/callback] route. *)
Definition callback (clk : clock) (registry : list Handler.plugin)
    (req : http_request) (sv : server) : Py.result Handler.response * server :=
  let ms := Monitor.record_message_received (stats sv) in
  let gw := gateway sv in
  match content_type req with
  | Some "application/json" =>
      match body req with
      | Unreadable =>
          (Py.Returned (Handler.mk_response 400 (Some "JSON解析错误") 400),
           mk_server gw (Monitor.record_message_error ms))
      | Body None =>
          (Py.Returned (Handler.mk_response 400 (Some "无效的JSON格式") 400),
           mk_server gw (Monitor.record_message_error ms))
      | Body (Some data) =>
          let '(parsed_data, gw) :=
            Handler.callback_base ROBOT_QQ xiaoyu (t_ip clk) (t_user clk)
              (Handler.mk_request (remote_addr req) (Some data)) gw in
          match parsed_data with
          | Handler.Parsed pd =>
              match Handler.dispatch_plugin_cmd MASTER_QQ AUTO_REPLIES openai
                      validate_command (t_plugin_start clk) (t_plugin_end clk)
                      registry pd gw with
              | (Py.Returned result, gw) =>
                  (Py.Returned result,
                   mk_server gw
                     (Monitor.record_message_processed
                        (t_done clk - t_begin clk) ms))
              | (Py.Raised e, gw) =>
                  if Py.is_Exception e then
                    (Py.Returned
                       (Handler.mk_response 500 (Some "服务繁忙，请稍后再试") 500),
                     mk_server gw (Monitor.record_message_error ms))
                  else (Py.Raised e, mk_server gw ms)
              end
          | Handler.Respond r =>
              (Py.Returned r,
               mk_server gw
                 (Monitor.record_message_processed
                    (t_done clk - t_begin clk) ms))
          end
      end
  | _ =>
      (Py.Returned
         (Handler.mk_response 415 (Some "仅支持application/json格式") 415),
       mk_server gw (Monitor.record_message_error ms))
  end.

(** Successive requests, while none of them lets an exception escape. *)
Fixpoint serve (registry : list Handler.plugin)
    (requests : list (clock * http_request)) (sv : server) : option server :=
  match requests with
  | [] => Some sv
  | (clk, req) :: rest =>
      match callback clk registry req sv with
      | (Py.Returned _, sv') => serve registry rest sv'
      | (Py.Raised _, _) => None
      end
  end.

Lemma dispatch_raises_base_only (t_start t_end : Q)
    (registry : list Handler.plugin) (pd : Handler.parsed_data)
    (gw : Handler.gateway) (e : Py.exn) :
  fst (Handler.dispatch_plugin_cmd MASTER_QQ AUTO_REPLIES openai
         validate_command t_start t_end registry pd gw) = Py.Raised e ->
  Py.is_Exception e = false.
Proof.
  unfold Handler.dispatch_plugin_cmd.
  destruct (Handler.builtin_about _ _ _) as [handled gw2].
  assert (Hstage : forall g e0,
            fst (Handler.plugin_stage MASTER_QQ t_start t_end registry pd g)
            = Py.Raised e0 -> Py.is_Exception e0 = false).
  { intros g e0. unfold Handler.plugin_stage.
    destruct (Handler.has_permission _ _); [|discriminate].
    destruct (Handler.matched_plugin _ _ _) as [p|]; [|discriminate].
    destruct (Security.validate_plugin_access _ _ _); [|discriminate].
    unfold Handler.run_plugin. cbv zeta.
    destruct (PluginManager.handler_func _ p pd) as [u|e']; [discriminate|].
    destruct (Py.is_Exception e') eqn:He; [discriminate|].
    now intros [= <-]. }
  destruct handled; cbn [negb].
  - discriminate.
  - specialize (Hstage gw2).
    destruct (Handler.plugin_stage _ _ _ _ _ _) as [[h|e'] gw3];
      cbn [fst] in *.
    2:{ intros [= <-]. now apply Hstage. }
    destruct h; cbn [negb]; [discriminate|].
    pose proof (Handler.auto_reply_stage_exception AUTO_REPLIES openai pd gw3)
      as He.
    destruct (Handler.auto_reply_stage _ _ _ _) as [[u|e'] gw4];
      cbn [fst] in *; [discriminate|].
    rewrite (He e' eq_refl). discriminate.
Qed.

Lemma received_and_settled (clk : clock) (registry : list Handler.plugin)
    (req : http_request) (sv : server) :
  let result := callback clk registry req sv in
  Monitor.total_received (stats (snd result))
    = S (Monitor.total_received (stats sv)) /\
  match fst result with
  | Py.Returned _ =>
      Monitor.total_processed (stats (snd result))
      + Monitor.total_errors (stats (snd result))
      = S (Monitor.total_processed (stats sv) + Monitor.total_errors (stats sv))
  | Py.Raised e => True
  end.
Proof.
  cbv zeta. unfold callback.
  destruct (content_type req) as [ct|]; [|cbn; split; [reflexivity|lia]].
  assert (Hany : forall (x y : Py.result Handler.response * server),
            (Monitor.total_received (stats (snd x))
               = S (Monitor.total_received (stats sv)) /\
             match fst x with
             | Py.Returned _ =>
                 Monitor.total_processed (stats (snd x))
                 + Monitor.total_errors (stats (snd x))
                 = S (Monitor.total_processed (stats sv)
                      + Monitor.total_errors (stats sv))
             | Py.Raised e => True
             end) ->
            (Monitor.total_received (stats (snd y))
               = S (Monitor.total_received (stats sv)) /\
             match fst y with
             | Py.Returned _ =>
                 Monitor.total_processed (stats (snd y))
                 + Monitor.total_errors (stats (snd y))
                 = S (Monitor.total_processed (stats sv)
                      + Monitor.total_errors (stats sv))
             | Py.Raised e => True
             end) ->
            let z := match ct with
                     | "application/json" => x
                     | _ => y
                     end in
            Monitor.total_received (stats (snd z))
              = S (Monitor.total_received (stats sv)) /\
            match fst z with
            | Py.Returned _ =>
                Monitor.total_processed (stats (snd z))
                + Monitor.total_errors (stats (snd z))
                = S (Monitor.total_processed (stats sv)
                     + Monitor.total_errors (stats sv))
            | Py.Raised e => True
            end).
  { intros x y Hx Hy. cbv zeta.
    destruct (String.eqb_spec ct "application/json") as [->|Hne]; [exact Hx|].
    replace (match ct with "application/json" => x | _ => y end) with y;
      [exact Hy|].
    clear -Hne.
    repeat (destruct ct as [|[[] [] [] [] [] [] [] []] ct]; try reflexivity).
    congruence. }
  apply Hany; [|cbn; split; [reflexivity|lia]].
  destruct (body req) as [|[data|]]; try (cbn; split; [reflexivity|lia]).
  destruct (Handler.callback_base _ _ _ _ _ _) as [[r|pd] gw1];
    [cbn; split; [reflexivity|lia]|].
  destruct (Handler.dispatch_plugin_cmd _ _ _ _ _ _ _ _ _) as [[r|e] gw2];
    [cbn; split; [reflexivity|lia]|].
  destruct (Py.is_Exception e); cbn; split; try reflexivity; try lia; exact I.
Qed.

(** X20: every request to [/callback] is counted as received, and when
    the route answers, as exactly one of processed or failed; an
    exception can leave the route only if it is outside the [Exception]
    hierarchy, and then neither counter moves.  For a JSON request with a
    readable body the error counter never moves: the refusals and the
    status-500 answers produced inside [callback_base] and
    [dispatch_plugin_cmd] are counted as processed. *)
Theorem callback_counts_each_request (clk : clock)
    (registry : list Handler.plugin) (req : http_request) (sv : server) :
  let result := callback clk registry req sv in
  let before := stats sv in
  let after := stats (snd result) in
  Monitor.total_received after = S (Monitor.total_received before) /\
  match fst result with
  | Py.Returned _ =>
      Monitor.total_processed after + Monitor.total_errors after
      = S (Monitor.total_processed before + Monitor.total_errors before)
  | Py.Raised e =>
      Py.is_Exception e = false /\
      Monitor.total_processed after = Monitor.total_processed before /\
      Monitor.total_errors after = Monitor.total_errors before
  end /\
  (content_type req = Some "application/json" ->
   (exists data, body req = Body (Some data)) ->
   Monitor.total_errors after = Monitor.total_errors before).
Proof.
  cbv zeta. unfold callback.
  destruct (content_type req) as [ct|].
  2:{ cbn. split_and!; [reflexivity|lia|discriminate]. }
  destruct (String.eqb_spec ct "application/json") as [->|Hne].
  2:{ assert (Hct : forall A (x y : A),
                match ct with
                | "application/json" => x
                | _ => y
                end = y).
      { intros A x y. clear -Hne.
        repeat (destruct ct as [|[[] [] [] [] [] [] [] []] ct];
                try reflexivity).
        congruence. }
      rewrite Hct. cbn. split_and!; [reflexivity|lia|congruence]. }
  destruct (body req) as [|[data|]].
  - cbn. split_and!; [reflexivity|lia|intros _ [d Hd]; discriminate].
  - destruct (Handler.callback_base _ _ _ _ _ _) as [[r|pd] gw1].
    + cbn. split_and!; [reflexivity|lia|reflexivity].
    + pose proof (dispatch_raises_base_only (t_plugin_start clk)
                    (t_plugin_end clk) registry pd gw1) as Hbase.
      destruct (Handler.dispatch_plugin_cmd _ _ _ _ _ _ _ _ _)
        as [[r|e] gw2]; cbn [fst] in Hbase.
      * cbn. split_and!; [reflexivity|lia|reflexivity].
      * pose proof (Hbase e eq_refl) as He. rewrite He. cbn.
        split_and!; try reflexivity. exact He.
  - cbn. split_and!; [reflexivity|lia|intros _ [d Hd]; discriminate].
Qed.

(** X21: after any sequence of requests that the route answered, starting
    from counters with [total_received = total_processed + total_errors],
    that equation still holds and [total_received] has grown by the
    number of requests. *)
Theorem served_requests_are_accounted (registry : list Handler.plugin)
    (requests : list (clock * http_request)) (sv sv' : server) :
  serve registry requests sv = Some sv' ->
  Monitor.total_received (stats sv)
    = Monitor.total_processed (stats sv) + Monitor.total_errors (stats sv) ->
  Monitor.total_received (stats sv')
    = Monitor.total_processed (stats sv') + Monitor.total_errors (stats sv') /\
  Monitor.total_received (stats sv')
    = Monitor.total_received (stats sv) + length requests.
Proof.
  revert sv. induction requests as [|[clk req] rest IH]; intros sv Hrun Hinv.
  - injection Hrun as <-. split; [exact Hinv|]. cbn. lia.
  - cbn [serve] in Hrun.
    pose proof (received_and_settled clk registry req sv) as Hstep.
    destruct (callback clk registry req sv) as [[r|e] sv1]; [|discriminate].
    cbn [fst snd] in Hstep. destruct Hstep as [Hrec Hsum].
    destruct (IH sv1 Hrun) as [H1 H2]; [lia|].
    split; [exact H1|]. cbn [length]. lia.
Qed.

End WithConfig.

(** Two requests: a private message and a request of the wrong content
    type. *)
Definition demo_clock : clock := mk_clock 0 0 0 0 (1 # 2) 1.

Definition demo_requests : list (clock * http_request) :=
  [(demo_clock,
    mk_http_request (Some "application/json") "203.0.113.7"
      (Body (Handler.get_json Handler.message_61)));
   (demo_clock, mk_http_request (Some "text/plain") "203.0.113.7" Unreadable)].

Definition demo_server : server :=
  mk_server Handler.demo_gateway (Monitor.mk_message_stats 0 0 0 [] []).

Definition demo_serve : option server :=
  serve "1972693082" "192004908" [] Handler.XiaoYuImportError
    Handler.AutoReplyImportError (fun _ => false)
    [Handler.demo_plugin (fun _ => Py.Returned tt)] demo_requests demo_server.

Lemma served_requests_are_accounted_witness :
  exists sv',
    demo_serve = Some sv' /\
    Monitor.total_received (stats sv')
      = Monitor.total_processed (stats sv') + Monitor.total_errors (stats sv') /\
    Monitor.total_received (stats sv')
      = Monitor.total_received (stats demo_server) + length demo_requests.
Proof.
  destruct demo_serve as [sv'|] eqn:Hrun.
  - exists sv'. split; [reflexivity|].
    apply (served_requests_are_accounted "1972693082" "192004908" []
             Handler.XiaoYuImportError Handler.AutoReplyImportError
             (fun _ => false) [Handler.demo_plugin (fun _ => Py.Returned tt)]
             demo_requests demo_server sv' Hrun).
    reflexivity.
  - vm_compute in Hrun. discriminate.
Defined.

End Bot.

(* ===================================================================== *)
(** * Security tokens ([core/security_manager.py]) *)
(* ===================================================================== *)

Module Token.

(** [s.split(sep)] for a one-character separator; [word] is the part read
    so far. *)
Fixpoint split_on (sep : ascii) (word : string) (s : string) : list string :=
  match s with
  | EmptyString => [word]
  | String c s' =>
      if Ascii.eqb c sep then word :: split_on sep EmptyString s'
      else split_on sep (word +:+ String c EmptyString) s'
  end.

Definition split (sep : ascii) (s : string) : list string :=
  split_on sep EmptyString s.

Section WithHash.

(** [hashlib.sha256(data.encode()).hexdigest()]. *)
Variable hexdigest : string -> string.
(** [config_manager.get('secret_key', 'default_secret')]. *)
Variable secret_key : string.
(** [int(s)] for a string; [None] stands for [ValueError]. *)
Variable py_int : string -> option Z.

Definition signed_data (user_id timestamp : string) : string :=
  user_id +:+ ":" +:+ timestamp +:+ ":" +:+ secret_key.

(** [generate_token(user_id)] at clock reading [now]. *)
Definition generate_token (now : Q) (user_id : string) : string :=
  let timestamp := Handler.py_str (Handler.SInt (Monitor.truncate now)) in
  let token := hexdigest (signed_data user_id timestamp) in
  user_id +:+ "." +:+ timestamp +:+ "." +:+ token.

(** [verify_token(token)] at clock reading [now]; every exception ends in
    [False]. *)
Definition verify_token (now : Q) (token : string) : bool :=
  match split "." token with
  | [user_id; timestamp; token_hash] =>
      match py_int timestamp with
      | None => false
      | Some issued =>
          if Security.Qltb 86400 (now - inject_Z issued) then false
          else String.eqb token_hash (hexdigest (signed_data user_id timestamp))
      end
  | _ => false
  end.

End WithHash.

(** ** Round trip *)

Fixpoint count (c : ascii) (s : string) : nat :=
  match s with
  | EmptyString => 0
  | String d s' => (if Ascii.eqb d c then 1 else 0) + count c s'
  end.

Lemma count_app (c : ascii) (s t : string) :
  count c (s +:+ t) = count c s + count c t.
Proof.
  induction s as [|d s IH]; [reflexivity|].
  change (count c (String d (s +:+ t)) = count c (String d s) + count c t).
  cbn [count]. rewrite IH. lia.
Qed.

Lemma count_occurs (c : ascii) (s : string) :
  Validator.occurs c s = false <-> count c s = 0.
Proof.
  unfold Validator.occurs. induction s as [|d s IH]; [easy|].
  cbn [Validator.any_char count]. rewrite orb_false_iff, IH.
  rewrite (Ascii.eqb_sym c d). destruct (Ascii.eqb d c).
  - split; [intros [? _]; discriminate|cbn; lia].
  - cbn [Nat.add]. tauto.
Qed.

Lemma length_split_on (sep : ascii) (s : string) :
  forall word, length (split_on sep word s) = S (count sep s).
Proof.
  induction s as [|c s IH]; intros word; [reflexivity|]. cbn [split_on count].
  destruct (Ascii.eqb c sep); cbn [length]; rewrite IH; lia.
Qed.

Lemma split_on_free (sep : ascii) (a rest : string) :
  Validator.occurs sep a = false ->
  forall word, split_on sep word (a +:+ rest) = split_on sep (word +:+ a) rest.
Proof.
  unfold Validator.occurs. induction a as [|c a IH]; intros Ha word.
  - cbn. now rewrite Str.append_nil_r.
  - cbn [Validator.any_char] in Ha. apply orb_false_iff in Ha as [Hc Ha].
    change (String c a +:+ rest) with (String c (a +:+ rest)).
    cbn [split_on]. rewrite Ascii.eqb_sym, Hc, (IH Ha).
    now rewrite Str.append_assoc.
Qed.

Lemma str_int_no_dot (z : Z) :
  Validator.occurs "." (Handler.py_str (Handler.SInt z)) = false.
Proof.
  cbn [Handler.py_str].
  assert (Hu : forall d, Validator.occurs "." (NilEmpty.string_of_uint d) = false).
  { induction d; cbn; try reflexivity; exact IHd. }
  assert (Hz : forall d, Validator.occurs "." (NilZero.string_of_uint d) = false).
  { intros d. destruct d; try apply Hu. reflexivity. }
  destruct (Z.to_int z) as [d|d]; cbn [NilZero.string_of_int]; [apply Hz|].
  unfold Validator.occurs. cbn [Validator.any_char]. apply Hz.
Qed.

(** X23: provided that the digest contains no dot and that [int] reads
    back what [str] prints, a token made by [generate_token] is accepted
    by [verify_token] exactly when the user id contains no dot and the
    check happens at most 86400 seconds after the (truncated) time of
    issue: a token for an id with a dot is never accepted. *)
Theorem token_round_trip (hexdigest : string -> string) (secret_key : string)
    (py_int : string -> option Z) (issued now : Q) (user_id : string) :
  (forall s, Validator.occurs "." (hexdigest s) = false) ->
  (forall z, py_int (Handler.py_str (Handler.SInt z)) = Some z) ->
  verify_token hexdigest secret_key py_int now
    (generate_token hexdigest secret_key issued user_id) = true <->
  Validator.occurs "." user_id = false /\
  (now - inject_Z (Monitor.truncate issued) <= 86400)%Q.
Proof.
  intros Hhex Hint. unfold verify_token, generate_token, split. cbv zeta.
  set (ts := Handler.py_str (Handler.SInt (Monitor.truncate issued))).
  set (h := hexdigest (signed_data secret_key user_id ts)).
  destruct (Validator.occurs "." user_id) eqn:Hu.
  - split; [|intros [? _]; discriminate].
    pose proof (length_split_on "." (user_id +:+ "." +:+ ts +:+ "." +:+ h)
                  EmptyString) as Hlen.
    rewrite !count_app in Hlen.
    assert (count "." user_id <> 0).
    { intros H0. apply count_occurs in H0. congruence. }
    change (count "." ".") with 1 in Hlen.
    destruct (split_on "." "" (user_id +:+ "." +:+ ts +:+ "." +:+ h))
      as [|a [|b [|c [|d l]]]]; cbn [length] in Hlen;
      first [lia|discriminate].
  - change (user_id +:+ "." +:+ ts +:+ "." +:+ h)
      with (user_id +:+ String "." (ts +:+ String "." h)).
    rewrite split_on_free by exact Hu. cbn [split_on].
    rewrite Ascii.eqb_refl.
    rewrite split_on_free by apply str_int_no_dot. cbn [split_on].
    rewrite Ascii.eqb_refl.
    rewrite <- (Str.append_nil_r h) at 1.
    rewrite split_on_free by apply Hhex. cbn [split_on].
    change (("" +:+ user_id)) with user_id.
    change (("" +:+ ts)) with ts. change (("" +:+ h)) with h.
    unfold ts at 1. rewrite Hint. fold ts.
    destruct (Security.Qltb 86400 (now - inject_Z (Monitor.truncate issued))) eqn:Hq.
    + apply Security.Qltb_true in Hq. split; [discriminate|].
      intros [_ Hle]. exfalso. eapply Qlt_not_le; eauto.
    + apply Security.Qltb_false in Hq. unfold h. rewrite String.eqb_refl.
      tauto.
Qed.

Lemma token_round_trip_witness :
  let hexdigest := fun _ : string => "c0ffee" in
  let py_int := fun s => option_map Z.of_int (NilZero.int_of_string s) in
  verify_token hexdigest "default_secret" py_int 1700000100
    (generate_token hexdigest "default_secret" (3400000001 # 2) "192004908")
    = true <->
  Validator.occurs "." "192004908" = false /\
  (1700000100 - inject_Z (Monitor.truncate (3400000001 # 2)) <= 86400)%Q.
Proof.
  intros hexdigest py_int.
  apply (token_round_trip hexdigest "default_secret" py_int
           (3400000001 # 2) 1700000100 "192004908").
  - intros s. reflexivity.
  - intros z. unfold py_int. cbn [Handler.py_str].
    rewrite NilZero.isi.
    + cbn [option_map]. now rewrite DecimalZ.of_to.
    + destruct z; [discriminate|intros [= H]|discriminate].
      now apply Unsigned.to_uint_nonnil in H.
    + destruct z; [discriminate|discriminate|intros [= H]].
      now apply Unsigned.to_uint_nonnil in H.
Defined.

End Token.

(* ===================================================================== *)
(** * The configuration manager ([core/config_manager.py], [core/config.py]) *)
(* ===================================================================== *)

Module Config.

(** A configuration value.  [VObject] is any other object, with its
    [str()] and its truth value. *)
Inductive py_value : Type :=
| VNone
| VBool (b : bool)
| VInt (z : Z)
| VStr (s : string)
| VObject (repr : string) (truth : bool).

Definition py_str (v : py_value) : string :=
  match v with
  | VNone => "None"
  | VBool true => "True"
  | VBool false => "False"
  | VInt z => NilZero.string_of_int (Z.to_int z)
  | VStr s => s
  | VObject repr _ => repr
  end.

Definition truthy (v : py_value) : bool :=
  match v with
  | VNone => false
  | VBool b => b
  | VInt z => negb (Z.eqb z 0)
  | VStr EmptyString => false
  | VStr _ => true
  | VObject _ truth => truth
  end.

(** [ConfigItem]; the description and the name of the environment
    variable are left out. *)
Record config_item : Type := mk_config_item {
  default : py_value;
  required : bool;
  validate_func : option (py_value -> bool);
  value : py_value
}.

(** [ConfigItem.validate(value)]. *)
Definition validate (item : config_item) (v : py_value) : bool :=
  match validate_func item with
  | Some f => f v
  | None => true
  end.

Definition with_value (item : config_item) (v : py_value) : config_item :=
  mk_config_item (default item) (required item) (validate_func item) v.

Record manager : Type := mk_manager {
  initialized : bool;
  config_items : Dict.t config_item
}.

(** [register_config(config_item)]. *)
Definition register_config (key : string) (item : config_item) (m : manager)
  : manager :=
  mk_manager (initialized m) (Dict.set (config_items m) key item).

(** One run of [load]: whether it returns [True], and the value it
    leaves in each registered item (taken from the environment, the file
    or the default; an item that the run does not reach keeps its
    value). *)
Record load_run : Type := mk_load_run {
  load_ok : bool;
  assigned : string -> config_item -> py_value
}.

(** [load()]: it assigns to the values of the registered items and sets
    the flag when it succeeds. *)
Definition load (r : load_run) (m : manager) : bool * manager :=
  (load_ok r,
   mk_manager (load_ok r || initialized m)
     (map (fun kv => (fst kv, with_value (snd kv) (assigned r (fst kv) (snd kv))))
        (config_items m))).

Definition lookup (m : manager) (key : string) (default_ : py_value) : py_value :=
  match Dict.get (config_items m) key with
  | Some item => value item
  | None => default_
  end.

(** [get(key, default)]; [r] is the run of [load] that the call starts
    when the manager is not initialised. *)
Definition get (r : load_run) (m : manager) (key : string) (default_ : py_value)
  : py_value * manager :=
  if initialized m then (lookup m key default_, m)
  else
    let '(ok, m') := load r m in
    if ok then (lookup m' key default_, m') else (default_, m').

(** [set(key, value)]. *)
Definition set (m : manager) (key : string) (v : py_value) : bool * manager :=
  match Dict.get (config_items m) key with
  | Some item =>
      if validate item v
      then (true, mk_manager (initialized m)
                    (Dict.set (config_items m) key (with_value item v)))
      else (false, m)
  | None => (false, m)
  end.

(** The calls made on the manager once the items are registered. *)
Inductive call : Type :=
| CallLoad (r : load_run)
| CallGet (r : load_run) (key : string) (default_ : py_value)
| CallSet (key : string) (v : py_value).

Definition step (c : call) (m : manager) : manager :=
  match c with
  | CallLoad r => snd (load r m)
  | CallGet r key default_ => snd (get r m key default_)
  | CallSet key v => snd (set m key v)
  end.

Definition run (calls : list call) (m : manager) : manager :=
  fold_left (fun m c => step c m) calls m.

(** ** The items of [core/config.py] *)

Definition plain (default_ : py_value) (required_ : bool) : config_item :=
  mk_config_item default_ required_ None VNone.

Definition valid_port (x : py_value) : bool :=
  match x with
  | VInt z => (1024 <=? z)%Z && (z <=? 65535)%Z
  | VBool b => false
  | _ => false
  end.

Definition valid_level (x : py_value) : bool :=
  match x with
  | VStr s => bool_decide (s ∈ ["DEBUG"; "INFO"; "WARNING"; "ERROR"; "CRITICAL"])
  | _ => false
  end.

Definition core_config : manager :=
  fold_left (fun m kv => register_config (fst kv) (snd kv) m)
    [("napcat_http_url", plain (VStr "http://localhost:3000") false);
     ("robot_qq", plain (VStr "1972693082") true);
     ("callback_port",
      mk_config_item (VInt 3002) false (Some valid_port) VNone);
     ("master_qq", plain (VStr "192004908") true);
     ("bot_version", plain (VStr "v1.8.5") false);
     ("log_encoding", plain (VStr "utf-8") false);
     ("openai_api_key", plain (VStr "") false);
     ("openai_model", plain (VStr "deepseek-chat") false);
     ("openai_api_base", plain (VStr "https://api.deepseek.com/v1") false);
     ("openai_default_character",
      plain (VStr "你是GracyBot的AI助手，性格友好、回答简洁，帮助用户解决问题。") false);
     ("auto_replies", plain (VObject "{...}" true) false);
     ("debug_mode", plain (VBool false) false);
     ("log_level",
      mk_config_item (VStr "INFO") false (Some valid_level) VNone)]
    (mk_manager false []).

(** ** Keys that were never registered *)

Lemma get_map_none {V W} (f : string * V -> W) (d : Dict.t V) (key : string) :
  Dict.get d key = None ->
  Dict.get (map (fun kv => (fst kv, f kv)) d) key = None.
Proof.
  induction d as [|[k v] d IH]; [reflexivity|]. cbn [Dict.get map fst].
  destruct (String.eqb k key); [discriminate|exact IH].
Qed.

Lemma step_keeps_unregistered (c : call) (m : manager) (key : string) :
  Dict.get (config_items m) key = None ->
  Dict.get (config_items (step c m)) key = None.
Proof.
  intros Hnone. destruct c as [r|r k d|k v]; cbn [step].
  - cbn [load snd config_items].
    now apply (get_map_none
                 (fun kv => with_value (snd kv) (assigned r (fst kv) (snd kv)))).
  - unfold get. destruct (initialized m); [exact Hnone|].
    cbn [load]. destruct (load_ok r); cbn [snd config_items];
      now apply (get_map_none
                   (fun kv => with_value (snd kv) (assigned r (fst kv) (snd kv)))).
  - unfold set. destruct (Dict.get (config_items m) k) as [item|] eqn:Hk;
      [|exact Hnone].
    destruct (validate item v); [|exact Hnone]. cbn [snd config_items].
    rewrite Dict.get_set. destruct (String.eqb_spec k key) as [->|];
      [congruence|exact Hnone].
Qed.

Lemma run_keeps_unregistered (calls : list call) :
  forall m key, Dict.get (config_items m) key = None ->
                Dict.get (config_items (run calls m)) key = None.
Proof.
  induction calls as [|c rest IH]; intros m key Hnone; [exact Hnone|].
  cbn [run fold_left]. apply IH. now apply step_keeps_unregistered.
Qed.

Lemma get_unregistered (r : load_run) (m : manager) (key : string)
    (default_ : py_value) :
  Dict.get (config_items m) key = None ->
  fst (get r m key default_) = default_.
Proof.
  intros Hnone. unfold get, lookup. destruct (initialized m); cbn [fst].
  - now rewrite Hnone.
  - cbn [load]. destruct (load_ok r); cbn [fst config_items]; [|reflexivity].
    now rewrite (get_map_none
                   (fun kv => with_value (snd kv) (assigned r (fst kv) (snd kv)))).
Qed.

(** X26: a key that was never registered reads as the caller's default:
    whatever [load] runs, [get] and [set] calls came before, [get]
    answers the default passed to it, [set] refuses the key, and no call
    creates it. *)
Theorem unregistered_key_reads_default (calls : list call) (m : manager)
    (key : string) :
  Dict.get (config_items m) key = None ->
  (forall r default_, fst (get r (run calls m) key default_) = default_) /\
  (forall v, set (run calls m) key v = (false, run calls m)) /\
  Dict.get (config_items (run calls m)) key = None.
Proof.
  intros Hnone. pose proof (run_keeps_unregistered calls m key Hnone) as Hrun.
  split_and!.
  - intros r d. now apply get_unregistered.
  - intros v. unfold set. now rewrite Hrun.
  - exact Hrun.
Qed.

Lemma unregistered_key_reads_default_witness :
  (forall r default_,
     fst (get r (run [CallLoad (mk_load_run true (fun _ item => default item));
                      CallSet "log_level" (VStr "DEBUG")] core_config)
            "secret_key" default_) = default_) /\
  (forall v,
     set (run [CallLoad (mk_load_run true (fun _ item => default item));
               CallSet "log_level" (VStr "DEBUG")] core_config) "secret_key" v
     = (false, run [CallLoad (mk_load_run true (fun _ item => default item));
                    CallSet "log_level" (VStr "DEBUG")] core_config)) /\
  Dict.get
    (config_items
       (run [CallLoad (mk_load_run true (fun _ item => default item));
             CallSet "log_level" (VStr "DEBUG")] core_config)) "secret_key" = None.
Proof.
  apply (unregistered_key_reads_default
           [CallLoad (mk_load_run true (fun _ item => default item));
            CallSet "log_level" (VStr "DEBUG")] core_config "secret_key").
  reflexivity.
Defined.

(** ** What the security manager reads *)

(** [SecurityManager.get_user_role(user_id)] with the configuration it
    reads at the call. *)
Definition get_user_role (r : load_run) (cfg : manager)
    (user_roles : gmap string Security.UserRole) (user_id : string)
  : Security.UserRole :=
  match user_roles !! user_id with
  | Some role => role
  | None =>
      let self_qq := fst (get r cfg "self_qq" (VStr "")) in
      if truthy self_qq && String.eqb user_id (py_str self_qq)
      then Security.SELF else Security.GUEST
  end.

(** X27: with the items that [core/config.py] registers, and after any
    [load], [get] and [set] calls, [get_user_role] never finds a
    configured [self_qq] (the key is not registered, so the read gives the
    empty default): it answers the role table's entry, and [GUEST] for
    everyone else, as the manager with an empty [self_qq] does, so the
    configuration gives the role [SELF] to nobody.  Likewise the token
    secret read under [secret_key] is always the default. *)
Theorem self_role_is_never_assigned (calls : list call) (r : load_run)
    (user_roles : gmap string Security.UserRole) (user_id : string) :
  let cfg := run calls core_config in
  get_user_role r cfg user_roles user_id
    = match user_roles !! user_id with
      | Some role => role
      | None => Security.GUEST
      end /\
  (forall blacklist requests logs,
     get_user_role r cfg user_roles user_id
     = Security.get_user_role
         (Security.mk_manager user_roles blacklist "" requests logs) user_id) /\
  fst (get r cfg "secret_key" (VStr "default_secret")) = VStr "default_secret".
Proof.
  cbv zeta.
  assert (Hself : fst (get r (run calls core_config) "self_qq" (VStr ""))
                  = VStr "").
  { apply get_unregistered, run_keeps_unregistered. reflexivity. }
  unfold get_user_role, Security.get_user_role. cbn [Security.user_roles
                                                      Security.self_qq].
  rewrite Hself. cbn [truthy andb]. split_and!.
  - reflexivity.
  - reflexivity.
  - apply get_unregistered, run_keeps_unregistered. reflexivity.
Qed.

End Config.
